(** * The attribute / effect engine: EffectList and EffectableEntity

    A shallow embedding of [src/src/EffectList.ts] and of the
    [EffectableEntity] class, with the properties of the specification
    stated over it.

    Conventions
    - A JavaScript [number] (a damage amount, the base and the delta of an
      attribute) is a [number] below: the rationals plus [NaN] and the two
      infinities.  [Math.max], [Math.floor], [||] and the comparisons are
      exact on doubles; a sum is rounded to the nearest double.  The two
      zeros are not told apart.
    - Counters and clock readings ([stacks], [ticks], [lastTick],
      [maxStacks]) are integers; a field that may be [undefined] is an
      [option].
    - A [Set<Effect>] is the list of its members in insertion order; the
      identity of an object is its [ref].
    - [Date.now()] is the argument [now] (milliseconds).
    - What an effect or an entity does when a signal reaches it is outside
      the list; a delivery is recorded in [signals]. *)

From Stdlib Require Import ZArith QArith Qround Bool Lia.
From stdpp Require Import base option list strings gmap fin_maps.

Local Open Scope string_scope.
Local Open Scope Z_scope.

(* ===================================================================== *)
(** ** JavaScript numbers *)
(* ===================================================================== *)

Module JS.

Inductive number : Type :=
| NaN
| NegInf
| PosInf
| Fin (q : Q).

Definition zero : number := Fin 0%Q.

(** [ToBoolean] on a number: [NaN] and [0] are falsy. *)
Definition truthy (n : number) : bool :=
  match n with
  | NaN => false
  | NegInf | PosInf => true
  | Fin q => negb (Qeq_bool q 0)
  end.

(** [a || b] *)
Definition or (a b : number) : number := if truthy a then a else b.

(** [Math.max(a, b)] *)
Definition Math_max (a b : number) : number :=
  match a, b with
  | NaN, _ | _, NaN => NaN
  | PosInf, _ | _, PosInf => PosInf
  | NegInf, x | x, NegInf => x
  | Fin p, Fin q => if Qle_bool p q then Fin q else Fin p
  end.

(** [Math.floor(a)] *)
Definition Math_floor (a : number) : number :=
  match a with
  | Fin q => Fin (inject_Z (Qfloor q))
  | other => other
  end.

(** [a >= 0] *)
Definition nonneg (n : number) : bool :=
  match n with
  | NaN | NegInf => false
  | PosInf => true
  | Fin q => Qle_bool 0 q
  end.

(** [Number.isInteger(a)] *)
Definition isInteger (n : number) : bool :=
  match n with
  | Fin q => Qeq_bool q (inject_Z (Qfloor q))
  | _ => false
  end.

(** The integer [z] as a number. *)
Definition ofZ (z : Z) : number := Fin (inject_Z z).

(** *** Addition

    [a + b] is the sum rounded to the nearest double: 53 significant
    bits, the last place no finer than [2^-1074], a tie going to the
    neighbour whose last bit is 0, and an infinity from [2^1024] on. *)

(** [z * 2^k] for a positive [k], [z] otherwise. *)
Definition shift (z k : Z) : Z := z * 2 ^ Z.max 0 k.

(** The integer nearest to [n / d], the even one of two equally near. *)
Definition nearest (n d : Z) : Z :=
  let fl := n / d in
  match (2 * (n mod d)) ?= d with
  | Lt => fl
  | Gt => fl + 1
  | Eq => if Z.even fl then fl else fl + 1
  end.

(** The [e] with [2^e <= n / d < 2^(e+1)], for positive [n] and [d]. *)
Definition magnitude (n d : Z) : Z :=
  let k := Z.log2 n - Z.log2 d in
  if shift d k <=? shift n (- k) then k else k - 1.

(** The double nearest to [n / d] (to [- n / d] when [negative]), for
    positive [n] and [d]; [g] is the exponent of its last place. *)
Definition nearestDouble (negative : bool) (n d : Z) : number :=
  let g := Z.max (magnitude n d - 52) (-1074) in
  let m := nearest (shift n (- g)) (shift d g) in
  if 2 ^ 1024 <=? shift m g then (if negative then NegInf else PosInf)
  else Fin (Qred ((if negative then - shift m g else shift m g)
                  # Z.to_pos (shift 1 (- g)))).

(** The double nearest to [q]. *)
Definition round (q : Q) : number :=
  match Qnum q with
  | 0 => Fin 0
  | Zpos n => nearestDouble false (Zpos n) (Zpos (Qden q))
  | Zneg n => nearestDouble true (Zpos n) (Zpos (Qden q))
  end.

(** [a + b] *)
Definition add (a b : number) : number :=
  match a, b with
  | NaN, _ | _, NaN => NaN
  | PosInf, NegInf | NegInf, PosInf => NaN
  | PosInf, _ | _, PosInf => PosInf
  | NegInf, _ | _, NegInf => NegInf
  | Fin p, Fin q => round (p + q)
  end.

(** [- a] *)
Definition neg (a : number) : number :=
  match a with
  | NaN => NaN
  | NegInf => PosInf
  | PosInf => NegInf
  | Fin q => Fin (- q)
  end.

(** [a - b] *)
Definition sub (a b : number) : number := add a (neg b).

(** [o || d] for a number [o] that may be [undefined]. *)
Definition orUndefined (o : option number) (d : number) : number :=
  match o with
  | Some a => or a d
  | None => d
  end.

(** Truthiness of a counter that may be [undefined]. *)
Definition truthyZ (o : option Z) : bool :=
  match o with
  | Some z => negb (z =? 0)
  | None => false
  end.

(** [o || d] for a counter [o] and a default [d]. *)
Definition orZ (o : option Z) (d : Z) : Z :=
  match o with
  | Some z => if z =? 0 then d else z
  | None => d
  end.

End JS.

(* ===================================================================== *)
(** ** Errors and the state monad of the methods *)
(* ===================================================================== *)

Inductive Error : Type :=
| AlreadyHasTarget        (* Error('Cannot add effect, already has a target.') *)
| NeverAdded              (* ReferenceError in EffectList.remove *)
| NoSuchAttribute (attr : string)   (* RangeError in getMaxAttribute / getAttribute *)
| InvalidAttribute (attr : string)  (* Error(`Invalid attribute ...`) *)
| InvalidBaseValue                  (* Error('Invalid base value given ...') *)
| InOperatorOnNull                  (* TypeError of ['base' in null] *)
| UnhandledError                    (* EventEmitter: 'error' emitted, no listener *)
| NoEffectDefinition (id : string)
| TooDeep.                (* the recursion bound of the model was reached *)

Inductive Result (A : Type) : Type :=
| Ok (a : A)
| Throw (e : Error).
Arguments Ok {A} a.
Arguments Throw {A} e.

Definition M (S A : Type) : Type := S -> Result (A * S).

Definition ret {S A} (a : A) : M S A := fun s => Ok (a, s).
Definition throw {S A} (e : Error) : M S A := fun _ => Throw e.
Definition bind {S A B} (m : M S A) (k : A -> M S B) : M S B :=
  fun s => match m s with
           | Ok (a, s') => k a s'
           | Throw e => Throw e
           end.
Definition get {S} : M S S := fun s => Ok (s, s).
Definition put {S} (s : S) : M S unit := fun _ => Ok (tt, s).
Definition modify {S} (f : S -> S) : M S unit := fun s => Ok (tt, f s).

#[global] Instance M_ret {S} : MRet (M S) := fun A a => ret a.
#[global] Instance M_bind {S} : MBind (M S) := fun A B k m => bind m k.

(** [for (const x of xs) body(x)] *)
Fixpoint forEach {S A} (xs : list A) (body : A -> M S unit) : M S unit :=
  match xs with
  | [] => ret tt
  | x :: rest => body x;; forEach rest body
  end.

(** [xs.map(f)] for an [f] that runs in the monad, left to right. *)
Fixpoint mapM {S A B} (f : A -> M S B) (xs : list A) : M S (list B) :=
  match xs with
  | [] => ret []
  | x :: rest => y ← f x; ys ← mapM f rest; ret (y :: ys)
  end.

(** What a call returned, when it returned. *)
Definition valueOf {S A} (r : Result (A * S)) : option A :=
  match r with Ok (a, _) => Some a | Throw _ => None end.

(* ===================================================================== *)
(** ** Effect: the data the list reads and writes *)
(* ===================================================================== *)

Module Effect.

(** [config.tickInterval : number | boolean] *)
Inductive TickInterval : Type :=
| TickBool (b : bool)
| TickSeconds (n : Z).

Record Config : Type := mkConfig {
  type : string;
  maxStacks : Z;
  refreshes : bool;
  unique : bool;
  persists : bool;
  tickInterval : TickInterval
}.

Record State : Type := mkState {
  stacks : option Z;
  lastTick : option Z;
  ticks : option Z
}.

Record t : Type := mk {
  id : string;            (* the definition it was created from *)
  ref : nat;              (* object identity *)
  config : Config;
  state : State;
  paused : bool;
  target : option nat     (* the owning entity, once attached *)
}.

Definition withState (e : t) (s : State) : t :=
  mk (id e) (ref e) (config e) s (paused e) (target e).

Definition withTarget (e : t) (owner : nat) : t :=
  mk (id e) (ref e) (config e) (state e) (paused e) (Some owner).

Definition withStacks (s : State) (n : Z) : State :=
  mkState (Some n) (lastTick s) (ticks s).

(** [JSON.parse(JSON.stringify(state))]: the fields of the model are
    integers or absent, which the round trip through JSON keeps. *)
Definition clone (s : State) : State :=
  mkState (stacks s) (lastTick s) (ticks s).

(** Modelled from the spec: the persisted shape of an effect is
    [{id, state}], and the state of an effect is its stack count, its
    tick times and its pause flag (which the list reads as
    [effect.paused]); [Effect.serialize] is not among the sources. *)
Record Persisted : Type := mkPersisted {
  pid : string;
  pstate : State;
  ppaused : bool
}.

Definition serialize (e : t) : Persisted := mkPersisted (id e) (state e) (paused e).

(** Modelled from the spec: [effect.hydrate(state, data)] puts the
    persisted state, pause flag included, onto the live effect;
    [Effect.hydrate] is not among the sources. *)
Definition hydrate (e : t) (data : Persisted) : t :=
  mk (id e) (ref e) (config e) (pstate data) (ppaused data) (target e).

(** What the effect-definition registry keeps per id. *)
Record Definition_ : Type := mkDefinition {
  defConfig : Config;
  defState : State
}.

(** Modelled from the spec: [EffectFactory.create(id)] gives a fresh,
    detached instance of the definition, not paused; the factory is not
    among the sources.  [fresh] is the identity of the new object. *)
Definition create (registry : gmap string Definition_) (id : string) (fresh : nat)
  : option t :=
  match registry !! id with
  | Some d => Some (mk id fresh (defConfig d) (defState d) false None)
  | None => None
  end.

(** Same definition, same configuration, same state, same pause flag;
    identity and owner put aside. *)
Definition equivalent (a b : t) : Prop :=
  id a = id b /\ config a = config b /\ state a = state b /\ paused a = paused b.

End Effect.

(** The methods of [Effect] that the list calls.  The class is not among
    the sources, so they are an interface: [isCurrent] may read the clock
    and the effect, the four [modify*] hooks may read the effect.  The type
    of damage objects is left open as well. *)
Class EffectMethods (Damage : Type) : Type := {
  isCurrent : Z -> Effect.t -> bool;
  modifyAttribute : Effect.t -> string -> JS.number -> JS.number;
  modifyProperty : Effect.t -> string -> JS.number -> JS.number;
  modifyIncomingDamage : Effect.t -> Damage -> JS.number -> JS.number;
  modifyOutgoingDamage : Effect.t -> Damage -> JS.number -> JS.number
}.

(* ===================================================================== *)
(** ** Attribute and the attribute table *)
(* ===================================================================== *)

Module Attribute.

Record Values : Type := mkValues {
  name : string;
  base : JS.number;
  delta : JS.number
}.

(** [formula.evaluate(attribute, entity, currentVal, ...requiredValues)]:
    the function sees the attribute, the entity (here: the values of its
    attributes) the value after the effects, and the required values. *)
Record Formula : Type := mkFormula {
  requires : list string;
  evaluate : Values -> gmap string Values -> JS.number -> list JS.number -> JS.number
}.

Record t : Type := mk {
  values : Values;
  formula : option Formula
}.

(** Modelled from the spec: the methods of [Attribute] are not among the
    sources; raise adds the amount to [delta] and lower subtracts it,
    setBase replaces [base], setDelta replaces [delta], and none touches
    the other field. *)
Definition raise (a : t) (amount : JS.number) : t :=
  mk (mkValues (name (values a)) (base (values a)) (JS.add (delta (values a)) amount))
     (formula a).
Definition lower (a : t) (amount : JS.number) : t :=
  mk (mkValues (name (values a)) (base (values a)) (JS.sub (delta (values a)) amount))
     (formula a).
Definition setBase (a : t) (newBase : JS.number) : t :=
  mk (mkValues (name (values a)) newBase (delta (values a))) (formula a).
Definition setDelta (a : t) (amount : JS.number) : t :=
  mk (mkValues (name (values a)) (base (values a)) amount) (formula a).

(** Modelled from the spec: [AttributeFactory.create(name, base, delta)]
    makes the attribute of that name with the given base and delta and
    the formula of the definition; the factory is not among the sources. *)
Definition create (registry : gmap string (option Formula))
           (attr : string) (b d : JS.number) : option t :=
  match registry !! attr with
  | Some f => Some (mk (mkValues attr b d) f)
  | None => None
  end.

End Attribute.

(** [state.EffectFactory], [state.AttributeFactory] *)
Record GameState : Type := mkGameState {
  EffectFactory : gmap string Effect.Definition_;
  AttributeFactory : gmap string (option Attribute.Formula)
}.

(** What leaves the list. *)
Inductive Signal : Type :=
| ToEffect (ref : nat) (event : string)    (* effect.emit(event, ...) *)
| ToTarget (event : string) (about : option nat)  (* listeners of the owning entity *)
| Deactivated (ref : nat).                 (* effect.deactivate() *)

(* ===================================================================== *)
(** ** EffectList *)
(* ===================================================================== *)

Module EffectList.

Record t : Type := mk {
  effects : list Effect.t;     (* Set<Effect>, insertion order *)
  target : nat;
  signals : list Signal;       (* history of what was emitted, oldest first *)
  pending : list Effect.Persisted
    (* the serialized entries the constructor was given, which
       [hydrate] turns into effects *)
}.

(** [new EffectList(target, entries)].  The constructor puts the entries
    into the Set, where they stay until [hydrate] replaces the Set; the
    model keeps them apart in [pending], [effects] being the members that
    are [Effect] objects.  A serialized entry has none of the methods of
    [Effect], so of a list with pending entries only [hydrate] and
    [clear] are modelled. *)
Definition new (owner : nat) (entries : list Effect.Persisted) : t :=
  mk [] owner [] entries.

Definition empty (owner : nat) : t := new owner [].

Definition withEffects (l : list Effect.t) (s : t) : t :=
  mk l (target s) (signals s) (pending s).

Definition signal (x : Signal) : M t unit :=
  modify (fun s => mk (effects s) (target s) (signals s ++ [x])%list (pending s)).

(** *** The Set, by object identity *)

Definition sameRef (a b : Effect.t) : bool := Nat.eqb (Effect.ref a) (Effect.ref b).

(** [set.has(e)] *)
Definition has (e : Effect.t) (l : list Effect.t) : bool := existsb (sameRef e) l.

(** The member that is the object [e], in its present state. *)
Definition member (e : Effect.t) (l : list Effect.t) : option Effect.t :=
  List.find (sameRef e) l.

(** [set.add(e)]: a member keeps its place; the object carries its
    fields with it. *)
Definition setAdd (e : Effect.t) (l : list Effect.t) : list Effect.t :=
  if has e l then List.map (fun x => if sameRef e x then e else x) l
  else (l ++ [e])%list.

(** [set.delete(e)] *)
Definition setDelete (e : Effect.t) (l : list Effect.t) : list Effect.t :=
  List.filter (fun x => negb (sameRef e x)) l.

Section Methods.
Context {Damage : Type} `{EffectMethods Damage}.

(** *** remove, validateEffects

    [remove] ends in [this.target.emit('effectRemoved', effect)];
    [EffectableEntity.emit] calls the entity's listeners and then
    [this.effects.emit], which runs [validateEffects] and returns at
    once for this event.  [relay] is that nested sweep. *)
Definition removeWith (relay : M t unit) (effect : Effect.t) : M t unit :=
  s ← get;
  if negb (has effect (effects s)) then throw NeverAdded
  else
    signal (Deactivated (Effect.ref effect));;
    modify (fun s => withEffects (setDelete effect (effects s)) s);;
    signal (ToTarget "effectRemoved" (Some (Effect.ref effect)));;
    relay.

(** [for (const effect of this.effects) if (!effect.isCurrent())
    this.remove(effect)].  Iterating a Set skips what was deleted
    meanwhile.  A nested sweep has one member less to look at, which
    bounds the depth. *)
Fixpoint sweep (depth : nat) (now : Z) : M t unit :=
  match depth with
  | O => throw TooDeep
  | S d =>
      s ← get;
      forEach (effects s) (fun effect =>
        s' ← get;
        match member effect (effects s') with
        | None => ret tt
        | Some live =>
            if isCurrent now live then ret tt
            else removeWith (sweep d now) live
        end)
  end.

Definition validateEffects (now : Z) : M t unit :=
  s ← get; sweep (S (length (effects s))) now.

Definition remove (now : Z) (effect : Effect.t) : M t unit :=
  removeWith (validateEffects now) effect.

(** [clear] *)
Definition clear : M t unit := modify (withEffects []).

(** *** size, entries, getByType, hasEffectType *)

Definition size (now : Z) : M t nat :=
  validateEffects now;; s ← get; ret (length (effects s)).

Definition entries (now : Z) : M t (list Effect.t) :=
  validateEffects now;; s ← get; ret (effects s).

Definition getByType (type : string) : M t (option Effect.t) :=
  s ← get;
  ret (List.find (fun effect => String.eqb (Effect.type (Effect.config effect)) type)
                 (effects s)).

Definition hasEffectType (type : string) : M t bool :=
  found ← getByType type; ret (bool_decide (is_Some found)).

(** *** emit *)

(** One turn of the loop of [emit]: the effect afterwards and what was
    delivered to it. *)
Definition deliver (now : Z) (event : string) (effect : Effect.t)
  : Effect.t * list Signal :=
  if Effect.paused effect then (effect, [])
  else
    match String.eqb event "updateTick", Effect.tickInterval (Effect.config effect) with
    | true, Effect.TickSeconds tickInterval =>
        let st := Effect.state effect in
        let sinceLastTick := now - JS.orZ (Effect.ticks st) 0 in
        if sinceLastTick <? tickInterval * 1000 then (effect, [])
        else
          let ticks' :=
            if JS.truthyZ (Effect.ticks st)
            then option_map Z.succ (Effect.ticks st)
            else Effect.ticks st in
          (Effect.withState effect (Effect.mkState (Effect.stacks st) (Some now) ticks'),
           [ToEffect (Effect.ref effect) event])
    | _, _ => (effect, [ToEffect (Effect.ref effect) event])
    end.

Fixpoint deliverAll (now : Z) (event : string) (l : list Effect.t)
  : list Effect.t * list Signal :=
  match l with
  | [] => ([], [])
  | effect :: rest =>
      let (effect', out) := deliver now event effect in
      let (rest', outs) := deliverAll now event rest in
      (effect' :: rest', (out ++ outs)%list)
  end.

Definition emit (now : Z) (event : string) : M t unit :=
  validateEffects now;;
  if String.eqb event "effectAdded" || String.eqb event "effectRemoved" then ret tt
  else
    modify (fun s =>
      let (l, out) := deliverAll now event (effects s) in
      mk l (target s) (signals s ++ out)%list (pending s)).

(** [this.target.emit(event, effect)], see [EffectableEntity.emit]. *)
Definition targetEmit (now : Z) (event : string) (effect : Effect.t) : M t unit :=
  signal (ToTarget event (Some (Effect.ref effect)));;
  emit now event.

(** *** add *)

(** [(activeEffect.config.maxStacks && activeEffect.state.stacks) ||
     0 < activeEffect.config.maxStacks] *)
Definition stacksUp (activeEffect : Effect.t) : bool :=
  let maxStacks := Effect.maxStacks (Effect.config activeEffect) in
  let stacks := Effect.stacks (Effect.state activeEffect) in
  (negb (maxStacks =? 0) && JS.truthyZ stacks) || (0 <? maxStacks).

(** [activeEffect.state.stacks = Math.min(activeEffect.config.maxStacks,
     activeEffect.state.stacks || 0 + 1)] *)
Definition stackAdded (activeEffect : Effect.t) : Effect.t :=
  let maxStacks := Effect.maxStacks (Effect.config activeEffect) in
  let stacks := Effect.stacks (Effect.state activeEffect) in
  Effect.withState activeEffect
    (Effect.withStacks (Effect.state activeEffect)
       (Z.min maxStacks (JS.orZ stacks (0 + 1)))).

(** The loop over the active effects: [Some (result, members, emitted)]
    when a rule returned, [None] when the loop ran to its end. *)
Fixpoint resolve (effect : Effect.t) (l : list Effect.t)
  : option (bool * list Effect.t * list Signal) :=
  match l with
  | [] => None
  | activeEffect :: rest =>
      let continue :=
        match resolve effect rest with
        | Some (result, rest', out) => Some (result, activeEffect :: rest', out)
        | None => None
        end in
      if String.eqb (Effect.type (Effect.config effect))
                    (Effect.type (Effect.config activeEffect))
      then
        if stacksUp activeEffect then
          Some (true, stackAdded activeEffect :: rest,
                [ToEffect (Effect.ref activeEffect) "effectStackAdded"])
        else if Effect.refreshes (Effect.config activeEffect) then
          Some (true, l, [ToEffect (Effect.ref activeEffect) "effectRefreshed"])
        else if Effect.unique (Effect.config activeEffect) then
          Some (false, l, [])
        else continue
      else continue
  end.

Definition add (now : Z) (effect : Effect.t) : M t bool :=
  if bool_decide (is_Some (Effect.target effect)) then throw AlreadyHasTarget
  else
    let effect := Effect.withState effect (Effect.clone (Effect.state effect)) in
    s ← get;
    match resolve effect (effects s) with
    | Some (result, l, out) =>
        put (mk l (target s) (signals s ++ out)%list (pending s));;
        ret result
    | None =>
        let effect := Effect.withTarget effect (target s) in
        modify (fun s => withEffects (setAdd effect (effects s)) s);;
        signal (ToEffect (Effect.ref effect) "effectAdded");;
        targetEmit now "effectAdded" effect;;
        (* effect.on('remove', () => this.remove(effect)) *)
        ret true
    end.

(** *** The folds *)

Definition unpaused (l : list Effect.t) : list Effect.t :=
  List.filter (fun effect => negb (Effect.paused effect)) l.

Definition evaluateAttribute (now : Z) (attr : Attribute.t) : M t JS.number :=
  validateEffects now;;
  s ← get;
  let attrName := Attribute.name (Attribute.values attr) in
  let attrValue := JS.or (Attribute.base (Attribute.values attr)) JS.zero in
  ret (fold_left (fun attrValue effect => modifyAttribute effect attrName attrValue)
                 (unpaused (effects s)) attrValue).

Definition evaluateProperty (now : Z) (propertyName : string)
           (propertyValue : JS.number) : M t JS.number :=
  validateEffects now;;
  s ← get;
  ret (fold_left (fun propertyValue effect =>
                    modifyProperty effect propertyName propertyValue)
                 (unpaused (effects s)) propertyValue).

Definition evaluateIncomingDamage (now : Z) (damage : Damage)
           (currentAmount : JS.number) : M t JS.number :=
  validateEffects now;;
  s ← get;
  let currentAmount :=
    fold_left (fun currentAmount effect =>
                 modifyIncomingDamage effect damage currentAmount)
              (effects s) currentAmount in
  ret (JS.or (JS.Math_max currentAmount JS.zero) JS.zero).

Definition evaluateOutgoingDamage (now : Z) (damage : Damage)
           (currentAmount : JS.number) : M t JS.number :=
  validateEffects now;;
  s ← get;
  let currentAmount :=
    fold_left (fun currentAmount effect =>
                 modifyOutgoingDamage effect damage currentAmount)
              (effects s) currentAmount in
  ret (JS.or (JS.Math_max currentAmount JS.zero) JS.zero).

(** *** serialize, hydrate *)

Definition serialize (now : Z) : M t (list Effect.Persisted) :=
  validateEffects now;;
  s ← get;
  ret (List.map Effect.serialize
         (List.filter (fun effect => Effect.persists (Effect.config effect))
                      (effects s))).

(** The loop of [hydrate]; the [k]-th object made has identity
    [fresh + k]. *)
Fixpoint restore (gs : GameState) (now : Z) (fresh : nat)
         (entries : list Effect.Persisted) : M t unit :=
  match entries with
  | [] => ret tt
  | newEffect :: rest =>
      match Effect.create (EffectFactory gs) (Effect.pid newEffect) fresh with
      | None => throw (NoEffectDefinition (Effect.pid newEffect))
      | Some effect =>
          add now (Effect.hydrate effect newEffect);;
          restore gs now (S fresh) rest
      end
  end.

Definition hydrate (gs : GameState) (now : Z) : M t unit :=
  s ← get;
  put (mk [] (target s) (signals s) []);;
  restore gs now 0%nat (pending s).

End Methods.

End EffectList.

(* ===================================================================== *)
(** ** EffectableEntity *)
(* ===================================================================== *)

Module EffectableEntity.

(** One value of [data.attributes]: a bare number, an object with a
    numeric [base] (and maybe a [delta]), [null], or another value that
    data read from a file can hold (a string, a boolean, an array, an
    object without [base]). *)
Inductive AttrConfig : Type :=
| Bare (n : JS.number)
| Spec (base : JS.number) (delta : option JS.number)
| Null
| Malformed.

(** The data handed to the constructor, which is also what [serialize]
    returns. *)
Record Data : Type := mkData {
  dataAttributes : list (string * AttrConfig);
  dataEffects : list Effect.Persisted
}.

(** [attributes] is an [Attributes], a class that is not among the
    sources.  It is taken as the Map by name that its users show: they
    test [get(name)] for a missing value, ask [has(name)], and iterate
    over its [name, attribute] pairs. *)
Record t : Type := mk {
  attributes : gmap string Attribute.t;
  __attributes : list (string * AttrConfig);
  effects : EffectList.t;
  __hydrated : bool;
  listened : list string
    (* the events that have a listener on the entity (the table of
       the EventEmitter it extends) *)
}.

(** [new EffectableEntity(data)]; [self] is the identity of the entity. *)
Definition new (self : nat) (data : Data) : t :=
  mk ∅ (dataAttributes data) (EffectList.new self (dataEffects data)) false [].

Definition withEffects (l : EffectList.t) (ent : t) : t :=
  mk (attributes ent) (__attributes ent) l (__hydrated ent) (listened ent).

Definition withAttributes (m : gmap string Attribute.t) (ent : t) : t :=
  mk m (__attributes ent) (effects ent) (__hydrated ent) (listened ent).

(** A method of [this.effects] run on the entity. *)
Definition onEffects {A} (m : M EffectList.t A) : M t A :=
  fun ent =>
    match m (effects ent) with
    | Ok (a, l) => Ok (a, withEffects l ent)
    | Throw e => Throw e
    end.

(** What a formula sees of the entity. *)
Definition view (ent : t) : gmap string Attribute.Values :=
  Attribute.values <$> attributes ent.

(** Modelled from the spec: [Attributes.serialize()] gives
    [{name: {base, delta}}]; the class is not among the sources. *)
Definition serializeAttributes (m : gmap string Attribute.t)
  : list (string * AttrConfig) :=
  map_to_list ((fun a => Spec (Attribute.base (Attribute.values a))
                              (Some (Attribute.delta (Attribute.values a)))) <$> m).

Section Methods.
Context {Damage : Type} `{EffectMethods Damage}.

(** [super.emit(event, ...args)]: the [emit] of EventEmitter, which
    throws when the event is ['error'] and nobody listens to it, and
    calls the listeners otherwise. *)
Definition superEmit (event : string) : M t unit :=
  ent ← get;
  if String.eqb event "error" && negb (bool_decide ("error" ∈ listened ent))
  then throw UnhandledError
  else onEffects (EffectList.signal (ToTarget event None)).

Definition emit (now : Z) (event : string) : M t bool :=
  superEmit event;;
  onEffects (EffectList.emit now event);;
  ret true.

Definition hasAttribute (ent : t) (attr : string) : bool :=
  bool_decide (is_Some (attributes ent !! attr)).

Fixpoint getMaxAttributeAt (depth : nat) (now : Z) (attrString : string)
  : M t JS.number :=
  match depth with
  | O => throw TooDeep
  | S d =>
      ent ← get;
      if negb (hasAttribute ent attrString) then throw (NoSuchAttribute attrString)
      else
        match attributes ent !! attrString with
        | None => throw (NoSuchAttribute attrString)
        | Some attribute =>
            currentVal ← onEffects (EffectList.evaluateAttribute now attribute);
            match Attribute.formula attribute with
            | None => ret currentVal
            | Some formula =>
                requiredValues ←
                  mapM (getMaxAttributeAt d now) (Attribute.requires formula);
                ent' ← get;
                ret (Attribute.evaluate formula (Attribute.values attribute)
                       (view ent') currentVal requiredValues)
            end
        end
  end.

(** A chain of requirements without a cycle is no longer than the
    table; a cycle recurses without bound in the source. *)
Definition getMaxAttribute (now : Z) (attrString : string) : M t JS.number :=
  ent ← get;
  getMaxAttributeAt (S (base.size (attributes ent))) now attrString.

Definition addAttribute (attr : Attribute.t) : M t unit :=
  modify (fun ent =>
    withAttributes (<[Attribute.name (Attribute.values attr) := attr]> (attributes ent)) ent).

Definition getAttribute (now : Z) (attrName : string) : M t JS.number :=
  ent ← get;
  match attributes ent !! attrName with
  | None => throw (NoSuchAttribute attrName)
  | Some attr =>
      if negb (hasAttribute ent attrName) then throw (NoSuchAttribute attrName)
      else
        max ← getMaxAttribute now attrName;
        ret (JS.add max (Attribute.delta (Attribute.values attr)))
  end.

Definition getBaseAttribute (attrName : string) : M t (option JS.number) :=
  ent ← get;
  ret (match attributes ent !! attrName with
       | None => None                                        (* undefined *)
       | Some attr => Some (Attribute.base (Attribute.values attr))
       end).

(** The four setters: find the attribute, change it in place, emit
    [attributeUpdate] with the new current value. *)
Definition update (now : Z) (attrString : string)
           (change : Attribute.t -> Attribute.t) : M t unit :=
  ent ← get;
  match attributes ent !! attrString with
  | None => throw (InvalidAttribute attrString)
  | Some attr =>
      if negb (hasAttribute ent attrString) then throw (InvalidAttribute attrString)
      else
        modify (fun ent =>
          withAttributes (<[attrString := change attr]> (attributes ent)) ent);;
        getAttribute now attrString;;
        emit now "attributeUpdate";;
        ret tt
  end.

Definition setAttributeToMax (now : Z) (attrString : string) : M t unit :=
  update now attrString (fun attr => Attribute.setDelta attr JS.zero).

Definition raiseAttribute (now : Z) (attrString : string) (amount : JS.number)
  : M t unit :=
  update now attrString (fun attr => Attribute.raise attr amount).

Definition lowerAttribute (now : Z) (attrString : string) (amount : JS.number)
  : M t unit :=
  update now attrString (fun attr => Attribute.lower attr amount).

Definition setAttributeBase (now : Z) (attrString : string) (newBase : JS.number)
  : M t unit :=
  update now attrString (fun attr => Attribute.setBase attr newBase).

Definition hasEffectType (type : string) : M t bool :=
  onEffects (EffectList.hasEffectType type).

Definition addEffect (now : Z) (effect : Effect.t) : M t bool :=
  onEffects (EffectList.add now effect).

Definition removeEffect (now : Z) (effect : Effect.t) : M t unit :=
  onEffects (EffectList.remove now effect).

Definition evaluateIncomingDamage (now : Z) (damage : Damage)
           (currentAmount : JS.number) : M t JS.number :=
  amount ← onEffects (EffectList.evaluateIncomingDamage now damage currentAmount);
  ret (JS.Math_floor amount).

Definition evaluateOutgoingDamage (now : Z) (damage : Damage)
           (currentAmount : JS.number) : M t JS.number :=
  onEffects (EffectList.evaluateOutgoingDamage now damage currentAmount).

(** The loop of [hydrate] over [this.__attributes].  [typeof null] is
    ['object'], so a [null] entry passes the first test and
    ['base' in null] throws. *)
Fixpoint createAttributes (gs : GameState) (attributes : list (string * AttrConfig))
  : M t unit :=
  match attributes with
  | [] => ret tt
  | (attr, attrConfig) :: rest =>
      let attrConfig :=
        match attrConfig with
        | Bare n => Spec n (Some JS.zero)
        | other => other
        end in
      match attrConfig with
      | Spec b d =>
          match Attribute.create (AttributeFactory gs) attr b
                                 (JS.orUndefined d JS.zero) with
          | None => throw (InvalidAttribute attr)
          | Some a => addAttribute a;; createAttributes gs rest
          end
      | Null => throw InOperatorOnNull
      | _ => throw InvalidBaseValue
      end
  end.

Definition hydrate (gs : GameState) (now : Z) : M t unit :=
  ent ← get;
  if __hydrated ent then ret tt      (* Logger.warn(...) *)
  else
    createAttributes gs (__attributes ent);;
    onEffects (EffectList.hydrate gs now);;
    modify (fun ent =>
      mk (attributes ent) (__attributes ent) (effects ent) true (listened ent)).

Definition serialize (now : Z) : M t Data :=
  ent ← get;
  let attrs := serializeAttributes (attributes ent) in
  effs ← onEffects (EffectList.serialize now);
  ret (mkData attrs effs).

End Methods.

End EffectableEntity.

(* ===================================================================== *)
(** ** Predicates used in the statements *)
(* ===================================================================== *)

(** No object is a member twice. *)
Definition distinct (l : list Effect.t) : Prop := List.NoDup (List.map Effect.ref l).

(** Signals of the sweep: deactivations and notices to the owner, nothing
    for an effect's own handlers. *)
Definition housekeeping (out : list Signal) : Prop :=
  List.Forall (fun x => match x with ToEffect _ _ => False | _ => True end) out.

(** What a sweep leaves alone, and what it may only shrink or extend. *)
Record swept (s s' : EffectList.t) : Prop := {
  swept_target : EffectList.target s' = EffectList.target s;
  swept_pending : EffectList.pending s' = EffectList.pending s;
  swept_length : (length (EffectList.effects s') <= length (EffectList.effects s))%nat;
  swept_signals : exists out, EffectList.signals s' = (EffectList.signals s ++ out)%list
                              /\ housekeeping out
}.

(** The state in which the sweep nested in [remove] starts. *)
Definition removed (live : Effect.t) (s : EffectList.t) : EffectList.t :=
  EffectList.mk (EffectList.setDelete live (EffectList.effects s)) (EffectList.target s)
     ((EffectList.signals s ++ [Deactivated (Effect.ref live)])
        ++ [ToTarget "effectRemoved" (Some (Effect.ref live))])%list
     (EffectList.pending s).

Section SweepDefinitions.
Context {Damage : Type} `{EffectMethods Damage}.

(** Every expired member is still ahead in the iteration. *)
Definition ahead (now : Z) (xs : list Effect.t) (s : EffectList.t) : Prop :=
  forall e, List.In e (EffectList.effects s) -> isCurrent now e = false ->
            exists x, List.In x xs /\ Effect.ref x = Effect.ref e.

(** The body of the loop of [sweep]. *)
Definition sweepBody (d : nat) (now : Z) (effect : Effect.t) : M EffectList.t unit :=
  s' ← get;
  match EffectList.member effect (EffectList.effects s') with
  | None => ret tt
  | Some live =>
      if isCurrent now live then ret tt
      else EffectList.removeWith (EffectList.sweep d now) live
  end.

Definition sweepOk (d : nat) (now : Z) : Prop :=
  forall s, (length (EffectList.effects s) < d)%nat ->
    exists s', EffectList.sweep d now s = Ok (tt, s') /\ swept s s' /\
               (distinct (EffectList.effects s) ->
                EffectList.effects s' = List.filter (isCurrent now) (EffectList.effects s)).

End SweepDefinitions.

(** What was emitted between two states of a list. *)
Definition emitted (before after : EffectList.t) : list Signal :=
  drop (length (EffectList.signals before)) (EffectList.signals after).

(** [event] reached the handlers of the effect [ref] between two states. *)
Definition delivered (ref : nat) (event : string) (before after : EffectList.t) : Prop :=
  List.In (ToEffect ref event) (emitted before after).

(** How many times [event] reached the effect [ref]. *)
Fixpoint deliveries (ref : nat) (event : string) (out : list Signal) : nat :=
  match out with
  | [] => 0%nat
  | ToEffect r ev :: rest =>
      if Nat.eqb r ref && String.eqb ev event
      then S (deliveries ref event rest)
      else deliveries ref event rest
  | _ :: rest => deliveries ref event rest
  end.

(* ===================================================================== *)
(** ** Concrete effects and entities *)
(* ===================================================================== *)

Module Example.

(** Effects that never expire and change nothing. *)
Definition lasting : EffectMethods unit := {|
  isCurrent := fun _ _ => true;
  modifyAttribute := fun _ _ v => v;
  modifyProperty := fun _ _ v => v;
  modifyIncomingDamage := fun _ _ v => v;
  modifyOutgoingDamage := fun _ _ v => v
|}.

(** Effects that last until the clock reads ten seconds. *)
Definition brief : EffectMethods unit := {|
  isCurrent := fun now _ => now <? 10000;
  modifyAttribute := fun _ _ v => v;
  modifyProperty := fun _ _ v => v;
  modifyIncomingDamage := fun _ _ v => v;
  modifyOutgoingDamage := fun _ _ v => v
|}.

(** [poison]: [maxStacks = 3], [tickInterval = 5] *)
Definition poisonConfig : Effect.Config :=
  Effect.mkConfig "poison" 3 false true true (Effect.TickSeconds 5).

Definition poison (ref : nat) (stacks : option Z) : Effect.t :=
  Effect.mk "poison" ref poisonConfig (Effect.mkState stacks None (Some 0)) false None.

(** Four applications at t = 0 to an empty list. *)
Definition fourPoisons (stacks : option Z) : M EffectList.t bool :=
  EffectList.add (H := lasting) 0 (poison 0 stacks);;
  EffectList.add (H := lasting) 0 (poison 1 stacks);;
  EffectList.add (H := lasting) 0 (poison 2 stacks);;
  EffectList.add (H := lasting) 0 (poison 3 stacks).

(** [aura]: [tickInterval = false] *)
Definition aura (ref : nat) : Effect.t :=
  Effect.mk "aura" ref
    (Effect.mkConfig "aura" 0 false false false (Effect.TickBool false))
    (Effect.mkState None None None) false (Some 7%nat).

Definition auraList : EffectList.t := EffectList.mk [aura 0] 7 [] [].

(** [shield]: [unique = true] and [refreshes = true] *)
Definition shield (ref : nat) (owner : option nat) : Effect.t :=
  Effect.mk "shield" ref
    (Effect.mkConfig "shield" 0 true true true (Effect.TickBool false))
    (Effect.mkState None None None) false owner.

Definition shieldList : EffectList.t := EffectList.mk [shield 0 (Some 7%nat)] 7 [] [].

(** [ward]: [unique = true], no stacking, no refreshing *)
Definition ward (ref : nat) (owner : option nat) : Effect.t :=
  Effect.mk "ward" ref
    (Effect.mkConfig "ward" 0 false true true (Effect.TickBool false))
    (Effect.mkState None None None) false owner.

Definition wardList : EffectList.t := EffectList.mk [ward 0 (Some 7%nat)] 7 [] [].

(** A list holding one poison, attached. *)
Definition poisoned : EffectList.t :=
  EffectList.mk [Effect.withTarget (poison 0 (Some 1)) 7] 7 [] [].

(** A list holding a poison and an aura, which does not persist. *)
Definition afflicted : EffectList.t :=
  EffectList.mk [Effect.withTarget (poison 0 (Some 1)) 7; aura 1] 7 [] [].

(** An entity with no attributes and no effects. *)
Definition nobody : EffectableEntity.t :=
  EffectableEntity.new 7 (EffectableEntity.mkData [] []).

End Example.

(* ===================================================================== *)
(** ** Attributes: operations and formulas that do not read delta *)
(* ===================================================================== *)

Inductive AttributeOp : Type :=
| Raise (name : string) (amount : JS.number)
| Lower (name : string) (amount : JS.number)
| SetBase (name : string) (newBase : JS.number).

(** Same attribute but for its delta. *)
Definition sameButDelta (v w : Attribute.Values) : Prop :=
  Attribute.name v = Attribute.name w /\ Attribute.base v = Attribute.base w.

(** The formula gives the same value whatever the deltas it is shown. *)
Definition ignoresDelta (f : Attribute.Formula) : Prop :=
  forall v v' (w w' : gmap string Attribute.Values) cur reqs,
    sameButDelta v v' ->
    (forall k, option_Forall2 sameButDelta (w !! k) (w' !! k)) ->
    Attribute.evaluate f v w cur reqs = Attribute.evaluate f v' w' cur reqs.

(** No formula of the entity reads a delta. *)
Definition deltaBlind (ent : EffectableEntity.t) : Prop :=
  forall k a f, EffectableEntity.attributes ent !! k = Some a ->
                Attribute.formula a = Some f -> ignoresDelta f.

Definition related (a a' : Attribute.t) : Prop :=
  Attribute.formula a = Attribute.formula a' /\
  sameButDelta (Attribute.values a) (Attribute.values a').

Section AttributeDefinitions.
Context {Damage : Type} `{EffectMethods Damage}.

Definition runOp (now : Z) (op : AttributeOp) : M EffectableEntity.t unit :=
  match op with
  | Raise name amount => EffectableEntity.raiseAttribute now name amount
  | Lower name amount => EffectableEntity.lowerAttribute now name amount
  | SetBase name newBase => EffectableEntity.setAttributeBase now name newBase
  end.

Definition runOps (now : Z) (ops : list AttributeOp) : M EffectableEntity.t unit :=
  forEach ops (runOp now).

(** The members of the entity's list that are current. *)
Definition current (now : Z) (ent : EffectableEntity.t) : list Effect.t :=
  List.filter (isCurrent now) (EffectList.effects (EffectableEntity.effects ent)).

(** Two entities with the same current effects and the same attributes
    but for the deltas. *)
Definition alike (now : Z) (e1 e2 : EffectableEntity.t) : Prop :=
  distinct (EffectList.effects (EffectableEntity.effects e1)) /\
  distinct (EffectList.effects (EffectableEntity.effects e2)) /\
  current now e1 = current now e2 /\
  forall k, option_Forall2 related (EffectableEntity.attributes e1 !! k)
                                   (EffectableEntity.attributes e2 !! k).

End AttributeDefinitions.

Module ExampleEntity.

(** [health]: base 100, 20 points of damage taken, no formula. *)
Definition health : Attribute.t :=
  Attribute.mk (Attribute.mkValues "health" (JS.ofZ 100) (JS.ofZ (-20))) None.

(** A hydrated entity with [health], a poison and an aura. *)
Definition hero : EffectableEntity.t :=
  EffectableEntity.mk {[ "health" := health ]} [] Example.afflicted true [].

(** Raise, lower, and a new base. *)
Definition training : list AttributeOp :=
  [Raise "health" (JS.ofZ 5); Lower "health" (JS.ofZ 3); SetBase "health" (JS.ofZ 120)].

(** [hp]: base 10, delta -5, and a formula that gives the value after
    the effects minus the attribute's own delta. *)
Definition hp : Attribute.t :=
  Attribute.mk (Attribute.mkValues "hp" (JS.ofZ 10) (JS.ofZ (-5)))
    (Some (Attribute.mkFormula []
             (fun attribute _ currentVal _ =>
                JS.sub currentVal (Attribute.delta attribute)))).

Definition golem : EffectableEntity.t :=
  EffectableEntity.mk {[ "hp" := hp ]} [] (EffectList.empty 7) true [].

(** [mass]: base [2^53], the last integer before the doubles thin out to
    the even ones. *)
Definition mass : Attribute.t :=
  Attribute.mk (Attribute.mkValues "mass" (JS.ofZ (2 ^ 53)) JS.zero) None.

Definition giant : EffectableEntity.t :=
  EffectableEntity.mk {[ "mass" := mass ]} [] (EffectList.empty 7) true [].

(** The doubles that [0.1], [0.2], [0.3], [0.6] and
    [0.30000000000000004] denote. *)
Definition oneTenth : JS.number := JS.Fin (3602879701896397 # 36028797018963968).
Definition twoTenths : JS.number := JS.Fin (3602879701896397 # 18014398509481984).
Definition threeTenths : JS.number := JS.Fin (5404319552844595 # 18014398509481984).
Definition sixTenths : JS.number := JS.Fin (5404319552844595 # 9007199254740992).
Definition threeTenthsAndABit : JS.number :=
  JS.Fin (1351079888211149 # 4503599627370496).

(** [odds]: base 0.1, delta 0.2. *)
Definition odds : Attribute.t :=
  Attribute.mk (Attribute.mkValues "odds" oneTenth twoTenths) None.

Definition gambler : EffectableEntity.t :=
  EffectableEntity.mk {[ "odds" := odds ]} [] (EffectList.empty 7) true [].

End ExampleEntity.

(* ===================================================================== *)
(** ** Saving and restoring *)
(* ===================================================================== *)

(** One of the three rules of [add] applies to the active effect. *)
Definition ruleApplies (a : Effect.t) : bool :=
  EffectList.stacksUp a
  || Effect.refreshes (Effect.config a)
  || Effect.unique (Effect.config a).

(** The members can stand side by side: none has a later member of its
    own type while a rule applies to it.  [add] keeps lists that way. *)
Fixpoint coexist (l : list Effect.t) : Prop :=
  match l with
  | [] => True
  | a :: rest =>
      List.Forall (fun b => Effect.type (Effect.config b) = Effect.type (Effect.config a) ->
                            ruleApplies a = false) rest
      /\ coexist rest
  end.

(** The effect is an instance of the definition registered under its id. *)
Definition fromFactory (gs : GameState) (e : Effect.t) : Prop :=
  exists d, EffectFactory gs !! Effect.id e = Some d /\
            Effect.defConfig d = Effect.config e.

(** Every attribute sits under its own name, and the name is registered. *)
Definition registered (gs : GameState) (ent : EffectableEntity.t) : Prop :=
  forall k a, EffectableEntity.attributes ent !! k = Some a ->
              Attribute.name (Attribute.values a) = k /\
              is_Some (AttributeFactory gs !! k).

(** The delta is one that [delta || 0] keeps: any number but [NaN] (zero
    being written [0 # 1]). *)
Definition plainDelta (a : Attribute.t) : Prop :=
  JS.or (Attribute.delta (Attribute.values a)) JS.zero = Attribute.delta (Attribute.values a).

(** The attribute one entry of [__attributes] turns into. *)
Definition created (gs : GameState) (attr : string)
           (attrConfig : EffectableEntity.AttrConfig) : option Attribute.t :=
  match attrConfig with
  | EffectableEntity.Bare n => Attribute.create (AttributeFactory gs) attr n JS.zero
  | EffectableEntity.Spec b d =>
      Attribute.create (AttributeFactory gs) attr b (JS.orUndefined d JS.zero)
  | EffectableEntity.Null | EffectableEntity.Malformed => None
  end.

(** Same object, same configuration, same stack count. *)
Definition sameRules (a b : Effect.t) : Prop :=
  Effect.ref a = Effect.ref b /\ Effect.config a = Effect.config b /\
  Effect.stacks (Effect.state a) = Effect.stacks (Effect.state b).

Section RestoreDefinitions.
Context {Damage : Type} `{EffectMethods Damage}.

(** The lists that the methods build from the empty list, [add] being
    given objects that are not members yet. *)
Inductive built : EffectList.t -> Prop :=
| built_empty owner : built (EffectList.empty owner)
| built_add now effect s result s' :
    built s ->
    (forall a, List.In a (EffectList.effects s) -> Effect.ref a <> Effect.ref effect) ->
    EffectList.add now effect s = Ok (result, s') ->
    built s'
| built_remove now effect s s' :
    built s -> EffectList.remove now effect s = Ok (tt, s') -> built s'
| built_validateEffects now s s' :
    built s -> EffectList.validateEffects now s = Ok (tt, s') -> built s'
| built_emit now event s s' :
    built s -> EffectList.emit now event s = Ok (tt, s') -> built s'
| built_clear s s' :
    built s -> EffectList.clear s = Ok (tt, s') -> built s'.

(** Whether an effect is current is decided by its definition, its
    configuration and its state. *)
Definition currentByState (now : Z) : Prop :=
  forall a b, Effect.equivalent a b -> isCurrent now a = isCurrent now b.

(** The effects a save keeps: current and persistent. *)
Definition kept (now : Z) (l : list Effect.t) : list Effect.t :=
  List.filter (fun e => Effect.persists (Effect.config e))
              (List.filter (isCurrent now) l).

End RestoreDefinitions.

Module ExampleWorld.

(** A registry that knows [poison] and [health]. *)
Definition world : GameState :=
  mkGameState
    {[ "poison" := Effect.mkDefinition Example.poisonConfig
                     (Effect.mkState (Some 1) None None) ]}
    {[ "health" := None ]}.

End ExampleWorld.

Module ExamplePaused.

(** A paused poison, attached. *)
Definition sleeping : Effect.t :=
  Effect.mk "poison" 0 Example.poisonConfig
    (Effect.mkState (Some 1) None (Some 0)) true (Some 7%nat).

Definition drowsy : EffectList.t := EffectList.mk [sleeping] 7 [] [].

End ExamplePaused.

Module ExampleRoundTrip.

(** A hydrated entity with no attributes and one poison. *)
Definition victim : EffectableEntity.t :=
  EffectableEntity.mk ∅ [] Example.poisoned true [].

(** A registry that knows nothing. *)
Definition bare : GameState := mkGameState ∅ ∅.

(** [health] with a delta that is [NaN]. *)
Definition dazed : EffectableEntity.t :=
  EffectableEntity.mk
    {[ "health" := Attribute.mk (Attribute.mkValues "health" (JS.ofZ 100) JS.NaN) None ]}
    [] (EffectList.empty 7) true [].

(** A hydrated entity with [health], a paused poison and an aura, which
    does not persist. *)
Definition resting : EffectList.t :=
  EffectList.mk [ExamplePaused.sleeping; Example.aura 1] 7 [] [].

Definition sleeper : EffectableEntity.t :=
  EffectableEntity.mk {[ "health" := ExampleEntity.health ]} [] resting true [].

End ExampleRoundTrip.

(* ===================================================================== *)
(** ** The value of an attribute after the effects *)
(* ===================================================================== *)

Section AdjustedDefinitions.
Context {Damage : Type} `{EffectMethods Damage}.

(** The base of the attribute ([0] for a base that is [NaN]) passed
    through [modifyAttribute] of the current, unpaused effects of the
    entity. *)
Definition adjusted (now : Z) (ent : EffectableEntity.t) (a : Attribute.t) : JS.number :=
  fold_left (fun v e => modifyAttribute e (Attribute.name (Attribute.values a)) v)
            (EffectList.unpaused (current now ent))
            (JS.or (Attribute.base (Attribute.values a)) JS.zero).

(** Every effect of the entity is current. *)
Definition settled (now : Z) (ent : EffectableEntity.t) : Prop :=
  forall e, List.In e (EffectList.effects (EffectableEntity.effects ent)) ->
            isCurrent now e = true.

End AdjustedDefinitions.

Module ExampleFormula.

(** Effects that add 5 to [strength] and never expire. *)
Definition blessing : EffectMethods unit := {|
  isCurrent := fun _ _ => true;
  modifyAttribute := fun _ name v =>
    if String.eqb name "strength" then JS.add v (JS.ofZ 5) else v;
  modifyProperty := fun _ _ v => v;
  modifyIncomingDamage := fun _ _ v => v;
  modifyOutgoingDamage := fun _ _ v => v
|}.

Definition strength : Attribute.t :=
  Attribute.mk (Attribute.mkValues "strength" (JS.ofZ 10) JS.zero) None.

(** [power] is its own value plus the strength, twice. *)
Definition powerFormula : Attribute.Formula :=
  Attribute.mkFormula ["strength"]
    (fun _ _ currentVal requiredValues =>
       List.fold_left (fun v r => JS.add (JS.add v r) r) requiredValues currentVal).

Definition power : Attribute.t :=
  Attribute.mk (Attribute.mkValues "power" (JS.ofZ 1) JS.zero) (Some powerFormula).

(** [reach] requires an attribute the entity does not have. *)
Definition reach : Attribute.t :=
  Attribute.mk (Attribute.mkValues "reach" (JS.ofZ 1) JS.zero)
    (Some (Attribute.mkFormula ["strength"; "agility"]
             (fun _ _ currentVal _ => currentVal))).

Definition champion : EffectableEntity.t :=
  EffectableEntity.mk
    (<["strength" := strength]> (<["power" := power]> {[ "reach" := reach ]}))
    [] Example.auraList true [].

End ExampleFormula.

Module ExampleHydrate.

(** Data whose second attribute is not an object with a base. *)
Definition broken : EffectableEntity.t :=
  EffectableEntity.new 7
    (EffectableEntity.mkData
       [("health", EffectableEntity.Bare (JS.ofZ 100));
        ("mana", EffectableEntity.Malformed)] []).

(** Data whose second attribute is [null]. *)
Definition nulled : EffectableEntity.t :=
  EffectableEntity.new 7
    (EffectableEntity.mkData
       [("health", EffectableEntity.Bare (JS.ofZ 100));
        ("mana", EffectableEntity.Null)] []).

(** Data with a bare number and an object. *)
Definition sound : EffectableEntity.t :=
  EffectableEntity.new 7
    (EffectableEntity.mkData
       [("health", EffectableEntity.Spec (JS.ofZ 100) (Some (JS.ofZ (-20))))] []).

End ExampleHydrate.

(* ===================================================================== *)
(** * Properties *)
(* ===================================================================== *)

Ltac unfoldM :=
  unfold mbind, M_bind, bind, mret, M_ret, ret, get, put, modify, throw in *.

(** ** The Set *)

Section SetFacts.
Import EffectList.

Lemma sameRef_true a b : sameRef a b = true <-> Effect.ref a = Effect.ref b.
Proof. unfold sameRef. apply Nat.eqb_eq. Qed.

Lemma sameRef_refl a : sameRef a a = true.
Proof. apply sameRef_true. reflexivity. Qed.

Lemma member_Some e l live :
  member e l = Some live -> List.In live l /\ Effect.ref e = Effect.ref live.
Proof.
  unfold member. intros Hf. apply List.find_some in Hf as [Hin Hs].
  split; [assumption | now apply sameRef_true].
Qed.

Lemma member_None e l x :
  member e l = None -> List.In x l -> Effect.ref e <> Effect.ref x.
Proof.
  unfold member. intros Hf Hin Heq.
  pose proof (List.find_none _ _ Hf x Hin) as Hx.
  apply sameRef_true in Heq. congruence.
Qed.

Lemma has_In e l : List.In e l -> has e l = true.
Proof.
  intros Hin. unfold has. apply List.existsb_exists.
  exists e. split; [assumption | apply sameRef_refl].
Qed.

Lemma distinct_same_ref l x y :
  distinct l -> List.In x l -> List.In y l -> Effect.ref x = Effect.ref y -> x = y.
Proof.
  unfold distinct. induction l as [|a l IH]; simpl; [tauto|].
  intros Hnd Hx Hy Heq. inversion Hnd as [|? ? Hnot Hnd']; subst.
  destruct Hx as [->|Hx], Hy as [->|Hy]; try reflexivity.
  - exfalso. apply Hnot. rewrite Heq. now apply List.in_map.
  - exfalso. apply Hnot. rewrite <- Heq. now apply List.in_map.
  - now apply IH.
Qed.

Lemma distinct_filter f l : distinct l -> distinct (List.filter f l).
Proof.
  unfold distinct. induction l as [|a l IH]; simpl; [tauto|].
  intros Hnd. inversion Hnd as [|? ? Hnot Hnd']; subst.
  destruct (f a); simpl; [constructor|]; auto.
  intros Hin. apply Hnot. apply List.in_map_iff in Hin as (x & Hx & Hin).
  apply List.filter_In in Hin as [Hin _]. rewrite <- Hx. now apply List.in_map.
Qed.

Lemma setDelete_length e l :
  List.In e l -> (length (setDelete e l) < length l)%nat.
Proof.
  unfold setDelete. induction l as [|a l IH]; simpl; [tauto|].
  intros [->|Hin].
  - rewrite sameRef_refl. simpl.
    pose proof (List.filter_length_le (fun x => negb (sameRef e x)) l). lia.
  - specialize (IH Hin). destruct (negb (sameRef e a)); simpl; lia.
Qed.

Lemma filter_absorb (f g : Effect.t -> bool) l :
  (forall x, List.In x l -> g x = false -> f x = false) ->
  List.filter f (List.filter g l) = List.filter f l.
Proof.
  induction l as [|a l IH]; simpl; [reflexivity|]. intros Hfg.
  destruct (g a) eqn:Hg; simpl.
  - destruct (f a); [f_equal|]; apply IH; auto.
  - rewrite (Hfg a (or_introl eq_refl) Hg). apply IH; auto.
Qed.

(** Deleting an expired member does not change who is current. *)
Lemma filter_setDelete (f : Effect.t -> bool) e l :
  distinct l -> List.In e l -> f e = false ->
  List.filter f (setDelete e l) = List.filter f l.
Proof.
  intros Hd Hin Hf. unfold setDelete. apply filter_absorb.
  intros x Hx Hs. apply negb_false_iff, sameRef_true in Hs.
  now rewrite <- (distinct_same_ref l e x Hd Hin Hx Hs).
Qed.

Lemma filter_clean (f : Effect.t -> bool) l :
  (forall x, List.In x l -> f x = true) -> List.filter f l = l.
Proof.
  induction l as [|a l IH]; simpl; [reflexivity|]. intros Hall.
  rewrite (Hall a (or_introl eq_refl)). f_equal. apply IH. auto.
Qed.

End SetFacts.

(** ** validateEffects *)

Lemma housekeeping_app a b : housekeeping a -> housekeeping b -> housekeeping (a ++ b).
Proof. unfold housekeeping. intros. apply List.Forall_app. auto. Qed.

Lemma swept_refl s : swept s s.
Proof.
  split; auto. exists []. split; [now rewrite List.app_nil_r | constructor].
Qed.

Lemma swept_trans a b c : swept a b -> swept b c -> swept a c.
Proof.
  intros [t1 p1 l1 (o1 & s1 & h1)] [t2 p2 l2 (o2 & s2 & h2)].
  split; try congruence; try lia.
  exists (o1 ++ o2)%list. split; [|now apply housekeeping_app].
  rewrite s2, s1. now rewrite List.app_assoc.
Qed.

Section Sweep.
Context {Damage : Type} `{EffectMethods Damage}.
Import EffectList.

Lemma sweep_S d now s :
  sweep (S d) now s = forEach (effects s) (sweepBody d now) s.
Proof. reflexivity. Qed.

Lemma forEach_cons {S A} (x : A) xs (body : A -> M S unit) s :
  forEach (x :: xs) body s =
  match body x s with
  | Ok (_, s') => forEach xs body s'
  | Throw e => Throw e
  end.
Proof. reflexivity. Qed.

Lemma sweepBody_absent d now x s :
  member x (effects s) = None -> sweepBody d now x s = Ok (tt, s).
Proof. intros Hm. unfold sweepBody. unfoldM. now rewrite Hm. Qed.

Lemma sweepBody_current d now x s live :
  member x (effects s) = Some live -> isCurrent now live = true ->
  sweepBody d now x s = Ok (tt, s).
Proof. intros Hm Hc. unfold sweepBody. unfoldM. now rewrite Hm, Hc. Qed.

Lemma removeWith_member relay live s :
  List.In live (effects s) -> removeWith relay live s = relay (removed live s).
Proof.
  intros Hin. unfold removeWith, signal. unfoldM.
  now rewrite (has_In live _ Hin).
Qed.

Lemma sweepBody_expired d now x s live :
  member x (effects s) = Some live -> isCurrent now live = false ->
  sweepBody d now x s = sweep d now (removed live s).
Proof.
  intros Hm Hc. unfold sweepBody. unfoldM. rewrite Hm, Hc.
  apply removeWith_member. now apply member_Some in Hm.
Qed.

Lemma swept_removed live s :
  List.In live (effects s) -> swept s (removed live s).
Proof.
  intros Hin. split; simpl; auto.
  - pose proof (setDelete_length live _ Hin). lia.
  - exists [Deactivated (Effect.ref live);
            ToTarget "effectRemoved" (Some (Effect.ref live))].
    split; [now rewrite <- List.app_assoc | repeat constructor].
Qed.

Lemma sweep_loop d now (IH : sweepOk d now) :
  forall xs s, (length (effects s) <= d)%nat ->
    exists s', forEach xs (sweepBody d now) s = Ok (tt, s') /\ swept s s' /\
               (distinct (effects s) -> ahead now xs s ->
                effects s' = List.filter (isCurrent now) (effects s)).
Proof.
  induction xs as [|x xs IHxs]; intros s Hlen.
  - exists s. split; [reflexivity|]. split; [apply swept_refl|].
    intros _ Hah. symmetry. apply filter_clean. intros e He.
    destruct (isCurrent now e) eqn:Hc; [reflexivity|].
    destruct (Hah e He Hc) as (? & [] & _).
  - rewrite forEach_cons.
    destruct (member x (effects s)) as [live|] eqn:Hm.
    + apply member_Some in Hm as Hlive. destruct Hlive as [Hin Href].
      destruct (isCurrent now live) eqn:Hc.
      * rewrite (sweepBody_current _ _ _ _ _ Hm Hc).
        destruct (IHxs s Hlen) as (s' & Hrun & Hsw & Hfil).
        exists s'. split; [exact Hrun|]. split; [exact Hsw|].
        intros Hd Hah. apply Hfil; [exact Hd|].
        intros e He Hce. destruct (Hah e He Hce) as (y & [<-|Hy] & Hr).
        -- assert (live = e) as <-
             by (apply (distinct_same_ref (effects s)); auto; congruence).
           congruence.
        -- eauto.
      * rewrite (sweepBody_expired _ _ _ _ _ Hm Hc).
        pose proof (swept_removed live s Hin) as Hsw1.
        assert (length (effects (removed live s)) < d)%nat as Hlen1.
        { simpl. pose proof (setDelete_length live _ Hin). lia. }
        destruct (IH _ Hlen1) as (s2 & Hrun2 & Hsw2 & Hfil2).
        rewrite Hrun2.
        assert (length (effects s2) <= d)%nat as Hlen2.
        { destruct Hsw2. lia. }
        destruct (IHxs s2 Hlen2) as (s3 & Hrun3 & Hsw3 & Hfil3).
        exists s3. split; [exact Hrun3|]. split.
        -- eauto using swept_trans.
        -- intros Hd _.
           assert (distinct (effects (removed live s))) as Hd1
             by (simpl; now apply distinct_filter).
           specialize (Hfil2 Hd1). simpl in Hfil2.
           rewrite (filter_setDelete _ live _ Hd Hin Hc) in Hfil2.
           rewrite <- Hfil2. rewrite Hfil3.
           ++ rewrite Hfil2. apply filter_clean. intros e He.
              now apply List.filter_In in He.
           ++ rewrite Hfil2. now apply distinct_filter.
           ++ intros e He Hce. rewrite Hfil2 in He.
              apply List.filter_In in He. destruct He. congruence.
    + rewrite (sweepBody_absent _ _ _ _ Hm).
      destruct (IHxs s Hlen) as (s' & Hrun & Hsw & Hfil).
      exists s'. split; [exact Hrun|]. split; [exact Hsw|].
      intros Hd Hah. apply Hfil; [exact Hd|].
      intros e He Hce. destruct (Hah e He Hce) as (y & [<-|Hy] & Hr).
      * exfalso. now apply (member_None _ _ e Hm He).
      * eauto.
Qed.

Lemma sweep_ok now : forall d, sweepOk d now.
Proof.
  induction d as [|d IH]; intros s Hlen; [lia|].
  rewrite sweep_S.
  destruct (sweep_loop d now IH (effects s) s) as (s' & Hrun & Hsw & Hfil); [lia|].
  exists s'. split; [exact Hrun|]. split; [exact Hsw|].
  intros Hd. apply Hfil; [exact Hd|]. intros e He _. eauto.
Qed.

(** [validateEffects] always returns; on a Set it leaves exactly the
    members that are current. *)
Lemma validateEffects_ok now s :
  exists s', validateEffects now s = Ok (tt, s') /\ swept s s' /\
             (distinct (effects s) ->
              effects s' = List.filter (isCurrent now) (effects s)).
Proof.
  unfold validateEffects. unfoldM. apply sweep_ok. lia.
Qed.

End Sweep.

(* ===================================================================== *)
(** ** Damage is never negative (C5) *)
(* ===================================================================== *)

Lemma clamp_nonneg (x : JS.number) :
  JS.nonneg (JS.or (JS.Math_max x JS.zero) JS.zero) = true.
Proof.
  destruct x as [| | |q]; try reflexivity.
  unfold JS.Math_max, JS.zero.
  destruct (Qle_bool q 0) eqn:Hle; [reflexivity|].
  unfold JS.or, JS.truthy.
  destruct (Qeq_bool q 0) eqn:Heq; simpl; [reflexivity|].
  apply Qle_bool_iff. apply Qlt_le_weak. apply Qnot_le_lt.
  intros Hq. apply Qle_bool_iff in Hq. congruence.
Qed.

Section Damage.
Context {Damage : Type} `{EffectMethods Damage}.

(** C5.  [EffectList.evaluateIncomingDamage] and
    [EffectList.evaluateOutgoingDamage] return, and what they return is a
    number greater than or equal to zero, whatever the list holds,
    whatever the hooks of its effects compute, for every damage object
    and every amount, [NaN] and the infinities included. *)
Theorem evaluateDamage_nonneg (s : EffectList.t) (now : Z) (damage : Damage)
        (currentAmount : JS.number) :
  (exists v s', EffectList.evaluateIncomingDamage now damage currentAmount s = Ok (v, s')
                /\ JS.nonneg v = true) /\
  (exists v s', EffectList.evaluateOutgoingDamage now damage currentAmount s = Ok (v, s')
                /\ JS.nonneg v = true).
Proof.
  destruct (validateEffects_ok now s) as (s' & Hv & _).
  split; eexists; exists s';
    unfold EffectList.evaluateIncomingDamage, EffectList.evaluateOutgoingDamage;
    unfoldM; rewrite Hv; (split; [reflexivity | apply clamp_nonneg]).
Qed.

End Damage.

(* ===================================================================== *)
(** ** Stacking (C1) *)
(* ===================================================================== *)

Section Stacking.
Context {Damage : Type} `{EffectMethods Damage}.

(** With a positive cap the stacking rule always applies. *)
Lemma stacksUp_positive a :
  0 < Effect.maxStacks (Effect.config a) -> EffectList.stacksUp a = true.
Proof.
  intros Hpos. unfold EffectList.stacksUp.
  apply orb_true_iff. right. now apply Z.ltb_lt.
Qed.

(** What the rule writes: the cap or the count that was there, one when
    there was none.  Nothing is added to a count. *)
Lemma stackAdded_stacks a :
  Effect.stacks (Effect.state (EffectList.stackAdded a)) =
  Some (Z.min (Effect.maxStacks (Effect.config a))
              (JS.orZ (Effect.stacks (Effect.state a)) 1)).
Proof. reflexivity. Qed.

(** A second application of the rule changes nothing. *)
Lemma stackAdded_idempotent a :
  0 < Effect.maxStacks (Effect.config a) ->
  EffectList.stackAdded (EffectList.stackAdded a) = EffectList.stackAdded a.
Proof.
  intros Hpos. destruct a as [i r c [st lt tk] p tg].
  unfold EffectList.stackAdded, Effect.withState, Effect.withStacks. simpl in *.
  do 3 f_equal.
  assert (Z.min (Effect.maxStacks c) (JS.orZ st 1) <> 0) as Hm.
  { unfold JS.orZ. destruct st as [z|]; [destruct (Z.eqb_spec z 0)|]; lia. }
  change (0 + 1) with 1. apply Z.eqb_neq in Hm. rewrite Hm. lia.
Qed.

End Stacking.

(** C1.  [poison] has [maxStacks = 3]; four detached poisons are added to
    an empty list.  The list ends with one member, and its stack count is
    the count the first instance came with (1), or 1 when it came with
    none: the cap of 3 is never reached. *)
Theorem fourPoisons_stacks_stay :
  (exists s, Example.fourPoisons (Some 1) (EffectList.empty 7) = Ok (true, s) /\
             List.map (fun e => Effect.stacks (Effect.state e)) (EffectList.effects s)
             = [Some 1]) /\
  (exists s, Example.fourPoisons None (EffectList.empty 7) = Ok (true, s) /\
             List.map (fun e => Effect.stacks (Effect.state e)) (EffectList.effects s)
             = [Some 1]).
Proof. split; eexists; split; vm_compute; reflexivity. Qed.

(* ===================================================================== *)
(** ** updateTick (C2) *)
(* ===================================================================== *)

Section Ticks.
Context {Damage : Type} `{EffectMethods Damage}.

(** The throttle of [emit] reads [state.ticks], never [state.lastTick]. *)
Lemma deliver_ignores_lastTick now event e t :
  let e' := Effect.withState e
              (Effect.mkState (Effect.stacks (Effect.state e)) t
                              (Effect.ticks (Effect.state e))) in
  snd (EffectList.deliver now event e') = snd (EffectList.deliver now event e).
Proof.
  destruct e as [i r c [st lt tk] p tg]. simpl. unfold EffectList.deliver. simpl.
  destruct p; [reflexivity|].
  destruct (String.eqb event "updateTick"); [|reflexivity].
  destruct (Effect.tickInterval c); [reflexivity|].
  destruct (now - JS.orZ tk 0 <? n * 1000); reflexivity.
Qed.

(** A tick counter at zero, or absent, stays as it is. *)
Lemma deliver_ticks_stuck now event e :
  JS.truthyZ (Effect.ticks (Effect.state e)) = false ->
  Effect.ticks (Effect.state (fst (EffectList.deliver now event e)))
  = Effect.ticks (Effect.state e).
Proof.
  intros Ht. unfold EffectList.deliver.
  destruct (Effect.paused e); [reflexivity|].
  destruct (String.eqb event "updateTick"); [|reflexivity].
  destruct (Effect.tickInterval (Effect.config e)); [reflexivity|].
  destruct (_ <? _); [reflexivity|]. simpl. now rewrite Ht.
Qed.

End Ticks.

(** C2.  A poison ([tickInterval = 5], [ticks = 0]) is a member.
    [updateTick] is emitted at t = 5000 ms and again one millisecond later.
    Both calls reach the effect, though only 1 ms passed since the tick
    just delivered, and the tick counter is 0 after the first delivery and
    after the second. *)
Theorem updateTick_gate_and_counter :
  (exists s, EffectList.emit (H := Example.lasting) 5000 "updateTick" Example.poisoned
             = Ok (tt, s) /\
             deliveries 0 "updateTick" (emitted Example.poisoned s) = 1%nat /\
             List.map (fun e => Effect.ticks (Effect.state e)) (EffectList.effects s)
             = [Some 0] /\
             List.map (fun e => Effect.lastTick (Effect.state e)) (EffectList.effects s)
             = [Some 5000]) /\
  (exists s, (EffectList.emit (H := Example.lasting) 5000 "updateTick";;
              EffectList.emit (H := Example.lasting) 5001 "updateTick") Example.poisoned
             = Ok (tt, s) /\
             deliveries 0 "updateTick" (emitted Example.poisoned s) = 2%nat /\
             List.map (fun e => Effect.ticks (Effect.state e)) (EffectList.effects s)
             = [Some 0]).
Proof. split; eexists; repeat split; vm_compute; reflexivity. Qed.

(* ===================================================================== *)
(** ** Damage on the entity (C8) *)
(* ===================================================================== *)

Section EntityDamage.
Context {Damage : Type} `{EffectMethods Damage}.

(** [evaluateIncomingDamage] is the fold of the list, floored. *)
Lemma evaluateIncomingDamage_floors now (damage : Damage) amount ent v l :
  EffectList.evaluateIncomingDamage now damage amount (EffectableEntity.effects ent)
  = Ok (v, l) ->
  EffectableEntity.evaluateIncomingDamage now damage amount ent
  = Ok (JS.Math_floor v, EffectableEntity.withEffects l ent).
Proof.
  intros Hl. unfold EffectableEntity.evaluateIncomingDamage, EffectableEntity.onEffects.
  unfoldM. now rewrite Hl.
Qed.

(** [evaluateOutgoingDamage] is the fold of the list as it is. *)
Lemma evaluateOutgoingDamage_delegates now (damage : Damage) amount ent v l :
  EffectList.evaluateOutgoingDamage now damage amount (EffectableEntity.effects ent)
  = Ok (v, l) ->
  EffectableEntity.evaluateOutgoingDamage now damage amount ent
  = Ok (v, EffectableEntity.withEffects l ent).
Proof.
  intros Hl. unfold EffectableEntity.evaluateOutgoingDamage, EffectableEntity.onEffects.
  now rewrite Hl.
Qed.

End EntityDamage.

(** C8.  On an entity without effects an amount of 5/2 comes back as 2
    from [evaluateIncomingDamage] and as 5/2, which is no integer, from
    [evaluateOutgoingDamage]. *)
Theorem outgoing_damage_not_floored :
  (exists ent, EffectableEntity.evaluateIncomingDamage (H := Example.lasting) 0 tt
                 (JS.Fin (5 # 2)) Example.nobody = Ok (JS.Fin (2 # 1), ent)) /\
  (exists ent, EffectableEntity.evaluateOutgoingDamage (H := Example.lasting) 0 tt
                 (JS.Fin (5 # 2)) Example.nobody = Ok (JS.Fin (5 # 2), ent)) /\
  JS.isInteger (JS.Fin (5 # 2)) = false.
Proof. repeat split; try eexists; vm_compute; reflexivity. Qed.

(* ===================================================================== *)
(** ** Reads and expired members (C9) *)
(* ===================================================================== *)

Section Reads.
Context {Damage : Type} `{EffectMethods Damage}.
Import EffectList.

(** [size] counts the members that are current. *)
Lemma size_current now s :
  distinct (effects s) ->
  exists s', size now s = Ok (length (List.filter (isCurrent now) (effects s)), s') /\
             effects s' = List.filter (isCurrent now) (effects s).
Proof.
  intros Hd. destruct (validateEffects_ok now s) as (s' & Hv & _ & Hf).
  exists s'. unfold size. unfoldM. rewrite Hv, (Hf Hd). auto.
Qed.

(** [entries] lists the members that are current. *)
Lemma entries_current now s :
  distinct (effects s) ->
  exists s', entries now s = Ok (List.filter (isCurrent now) (effects s), s').
Proof.
  intros Hd. destruct (validateEffects_ok now s) as (s' & Hv & _ & Hf).
  exists s'. unfold entries. unfoldM. rewrite Hv, (Hf Hd). auto.
Qed.

(** [getByType] and [hasEffectType] read the Set as it is. *)
Lemma getByType_unvalidated type s :
  getByType type s
  = Ok (List.find (fun e => String.eqb (Effect.type (Effect.config e)) type) (effects s), s).
Proof. reflexivity. Qed.

End Reads.

(** C9.  The poison of the list expired at t = 10000.  At t = 20000 [size]
    answers 0, but [hasEffectType "poison"] answers true and [getByType]
    hands out the expired effect, which stays a member. *)
Theorem getByType_sees_expired :
  isCurrent (EffectMethods := Example.brief) 20000
            (Effect.withTarget (Example.poison 0 (Some 1)) 7) = false /\
  valueOf (EffectList.size (H := Example.brief) 20000 Example.poisoned) = Some 0%nat /\
  EffectList.hasEffectType "poison" Example.poisoned = Ok (true, Example.poisoned) /\
  EffectList.getByType "poison" Example.poisoned
  = Ok (Some (Effect.withTarget (Example.poison 0 (Some 1)) 7), Example.poisoned).
Proof. repeat split; vm_compute; reflexivity. Qed.

(* ===================================================================== *)
(** ** Unknown attribute names (C10) *)
(* ===================================================================== *)

Section UnknownAttribute.
Context {Damage : Type} `{EffectMethods Damage}.
Import EffectableEntity.

Lemma hasAttribute_None ent name :
  attributes ent !! name = None -> hasAttribute ent name = false.
Proof.
  intros Hn. unfold hasAttribute. rewrite Hn.
  apply bool_decide_eq_false. intros [x Hx]. discriminate.
Qed.

Lemma hasAttribute_Some ent name a :
  attributes ent !! name = Some a -> hasAttribute ent name = true.
Proof.
  intros Hn. unfold hasAttribute. rewrite Hn.
  apply bool_decide_eq_true. eauto.
Qed.

Lemma update_unknown now name change ent :
  attributes ent !! name = None ->
  update now name change ent = Throw (InvalidAttribute name).
Proof. intros Hn. unfold update. unfoldM. now rewrite Hn. Qed.

(** C10.  For a name the entity has no attribute of,
    [getBaseAttribute] returns [undefined] and leaves the entity as it
    was, while [getMaxAttribute], [getAttribute], [raiseAttribute],
    [lowerAttribute] and [setAttributeBase] throw. *)
Theorem getBaseAttribute_unknown (ent : EffectableEntity.t) (now : Z)
        (name : string) (amount : JS.number) :
  attributes ent !! name = None ->
  getBaseAttribute name ent = Ok (None, ent) /\
  getMaxAttribute now name ent = Throw (NoSuchAttribute name) /\
  getAttribute now name ent = Throw (NoSuchAttribute name) /\
  raiseAttribute now name amount ent = Throw (InvalidAttribute name) /\
  lowerAttribute now name amount ent = Throw (InvalidAttribute name) /\
  setAttributeBase now name amount ent = Throw (InvalidAttribute name).
Proof.
  intros Hn. repeat split.
  - unfold getBaseAttribute. unfoldM. now rewrite Hn.
  - unfold getMaxAttribute. unfoldM. simpl. unfoldM.
    now rewrite (hasAttribute_None _ _ Hn).
  - unfold getAttribute. unfoldM. now rewrite Hn.
  - now apply update_unknown.
  - now apply update_unknown.
  - now apply update_unknown.
Qed.

End UnknownAttribute.

Lemma getBaseAttribute_unknown_witness :
  EffectableEntity.attributes Example.nobody !! "mana" = None /\
  EffectableEntity.getBaseAttribute "mana" Example.nobody = Ok (None, Example.nobody) /\
  EffectableEntity.getAttribute (H := Example.lasting) 0 "mana" Example.nobody
  = Throw (NoSuchAttribute "mana").
Proof.
  split; [reflexivity|].
  destruct (getBaseAttribute_unknown (H := Example.lasting) Example.nobody 0 "mana"
              (JS.ofZ 1)
              eq_refl) as (Hb & _ & Hg & _).
  split; [exact Hb | exact Hg].
Defined.

(* ===================================================================== *)
(** ** updateTick without an interval (C6) *)
(* ===================================================================== *)

Section Untimed.
Context {Damage : Type} `{EffectMethods Damage}.
Import EffectList.

Lemma emitted_app s s' out :
  signals s' = (signals s ++ out)%list -> emitted s s' = out.
Proof. intros Hs. unfold emitted. rewrite Hs. apply drop_app_length. Qed.

Lemma deliver_untimed now event e b :
  Effect.paused e = false ->
  Effect.tickInterval (Effect.config e) = Effect.TickBool b ->
  deliver now event e = (e, [ToEffect (Effect.ref e) event]).
Proof.
  intros Hp Ht. unfold deliver. rewrite Hp, Ht.
  now destruct (String.eqb event "updateTick").
Qed.

Lemma deliverAll_untimed now event e b l :
  List.In e l -> Effect.paused e = false ->
  Effect.tickInterval (Effect.config e) = Effect.TickBool b ->
  List.In e (fst (deliverAll now event l)) /\
  List.In (ToEffect (Effect.ref e) event) (snd (deliverAll now event l)).
Proof.
  intros Hin Hp Ht. induction l as [|a l IH]; [destruct Hin|].
  simpl. destruct (deliver now event a) as [a' out] eqn:Ha.
  destruct (deliverAll now event l) as [l' outs]. simpl in *.
  destruct Hin as [->|Hin].
  - rewrite (deliver_untimed _ _ _ _ Hp Ht) in Ha. inversion Ha; subst.
    split; [now left | now left].
  - destruct (IH Hin) as [H1 H2]. split; [now right|].
    apply List.in_or_app. now right.
Qed.

Lemma emit_run now event s s1 :
  validateEffects now s = Ok (tt, s1) ->
  emit now event s =
  if String.eqb event "effectAdded" || String.eqb event "effectRemoved"
  then Ok (tt, s1)
  else Ok (tt, let (l, out) := deliverAll now event (effects s1) in
               mk l (target s1) (signals s1 ++ out)%list (pending s1)).
Proof.
  intros Hv. unfold emit. unfoldM. rewrite Hv.
  now destruct (String.eqb event "effectAdded" || String.eqb event "effectRemoved").
Qed.

(** C6, as the code has it.  An effect whose [tickInterval] is a boolean
    ([false] in particular) is not throttled: when it is a current,
    unpaused member, every [emit('updateTick')] delivers the event to it
    and leaves the effect as it was. *)
Theorem updateTick_untimed (s : EffectList.t) (now : Z) (e : Effect.t) (b : bool) :
  distinct (effects s) ->
  List.In e (effects s) ->
  Effect.tickInterval (Effect.config e) = Effect.TickBool b ->
  Effect.paused e = false ->
  isCurrent now e = true ->
  exists s', emit now "updateTick" s = Ok (tt, s') /\
             delivered (Effect.ref e) "updateTick" s s' /\
             List.In e (effects s').
Proof.
  intros Hd Hin Ht Hp Hc.
  destruct (validateEffects_ok now s) as (s1 & Hv & Hsw & Hf).
  rewrite (emit_run _ _ _ _ Hv). simpl.
  assert (List.In e (effects s1)) as Hin1.
  { rewrite (Hf Hd). apply List.filter_In. auto. }
  destruct (deliverAll_untimed now "updateTick" e b _ Hin1 Hp Ht) as [H1 H2].
  destruct (deliverAll now "updateTick" (effects s1)) as [l out]. simpl in *.
  eexists. split; [reflexivity|]. split; [|exact H1].
  destruct Hsw as [_ _ _ (o & Hs & _)]. unfold delivered.
  rewrite (emitted_app s _ (o ++ out)).
  - apply List.in_or_app. now right.
  - simpl. rewrite Hs. now rewrite List.app_assoc.
Qed.

End Untimed.

Lemma updateTick_untimed_witness :
  exists s', EffectList.emit (H := Example.lasting) 1000 "updateTick" Example.auraList
             = Ok (tt, s') /\
             delivered 0 "updateTick" Example.auraList s' /\
             List.In (Example.aura 0) (EffectList.effects s').
Proof.
  apply (updateTick_untimed (H := Example.lasting) Example.auraList 1000
           (Example.aura 0) false).
  - repeat constructor. simpl. tauto.
  - now left.
  - reflexivity.
  - reflexivity.
  - reflexivity.
Defined.

(** C6 as stated fails: the aura has [tickInterval = false], and the
    [updateTick] emitted at t = 1000 is delivered to it. *)
Lemma updateTick_reaches_untimed_effect :
  Effect.tickInterval (Effect.config (Example.aura 0)) = Effect.TickBool false /\
  exists s', EffectList.emit (H := Example.lasting) 1000 "updateTick" Example.auraList
             = Ok (tt, s') /\
             deliveries 0 "updateTick" (emitted Example.auraList s') = 1%nat.
Proof. split; [reflexivity|]. eexists. split; vm_compute; reflexivity. Qed.

(* ===================================================================== *)
(** ** Uniqueness (C7) *)
(* ===================================================================== *)

Section Unique.
Context {Damage : Type} `{EffectMethods Damage}.
Import EffectList.

Lemma stacksUp_zero a :
  Effect.maxStacks (Effect.config a) = 0 -> stacksUp a = false.
Proof. intros Hz. unfold stacksUp. now rewrite Hz. Qed.

Lemma resolve_unique effect l :
  (exists a, List.In a l /\
             Effect.type (Effect.config a) = Effect.type (Effect.config effect) /\
             Effect.unique (Effect.config a) = true) ->
  (forall a, List.In a l ->
             Effect.type (Effect.config a) = Effect.type (Effect.config effect) ->
             Effect.maxStacks (Effect.config a) = 0 /\
             Effect.refreshes (Effect.config a) = false) ->
  resolve effect l = Some (false, l, []).
Proof.
  induction l as [|a l IH]; intros (u & Hu & Htu & Huu) Hall; [destruct Hu|].
  simpl.
  destruct (String.eqb_spec (Effect.type (Effect.config effect))
                            (Effect.type (Effect.config a))) as [Heq|Hne].
  - destruct (Hall a (or_introl eq_refl) (eq_sym Heq)) as [Hm Hr].
    rewrite (stacksUp_zero _ Hm), Hr.
    destruct (Effect.unique (Effect.config a)) eqn:Hua; [reflexivity|].
    rewrite IH; [reflexivity| |].
    + destruct Hu as [->|Hu]; [congruence|]. eauto.
    + intros x Hx. apply Hall. now right.
  - rewrite IH; [reflexivity| |].
    + destruct Hu as [->|Hu]; [congruence|]. eauto.
    + intros x Hx. apply Hall. now right.
Qed.

(** C7, as the code has it.  While a member of the new effect's type
    with [unique = true] is active, and the members of that type neither
    stack ([maxStacks = 0]) nor refresh, [add] of a detached instance
    returns [false] and the list is what it was: same members in the
    same state, nothing emitted. *)
Theorem add_unique_rejected (s : EffectList.t) (now : Z) (effect : Effect.t) :
  Effect.target effect = None ->
  (exists a, List.In a (effects s) /\
             Effect.type (Effect.config a) = Effect.type (Effect.config effect) /\
             Effect.unique (Effect.config a) = true) ->
  (forall a, List.In a (effects s) ->
             Effect.type (Effect.config a) = Effect.type (Effect.config effect) ->
             Effect.maxStacks (Effect.config a) = 0 /\
             Effect.refreshes (Effect.config a) = false) ->
  add now effect s = Ok (false, s).
Proof.
  intros Ht Hu Hall. unfold add. rewrite Ht.
  rewrite bool_decide_eq_false_2 by (intros [x Hx]; discriminate).
  unfoldM. rewrite resolve_unique; [| exact Hu | exact Hall].
  rewrite List.app_nil_r. now destruct s.
Qed.

End Unique.

Lemma add_unique_rejected_witness :
  EffectList.add (H := Example.lasting) 0 (Example.ward 1 None) Example.wardList
  = Ok (false, Example.wardList).
Proof.
  apply (add_unique_rejected (H := Example.lasting) Example.wardList 0
           (Example.ward 1 None)).
  - reflexivity.
  - exists (Example.ward 0 (Some 7%nat)). repeat split. now left.
  - intros a [<-|[]] _. split; reflexivity.
Defined.

(** C7 as stated fails: [shield] is unique and refreshes; a second shield
    added while one is active is answered with [true]. *)
Lemma add_unique_refreshing_accepted :
  Effect.unique (Effect.config (Example.shield 1 None)) = true /\
  valueOf (EffectList.add (H := Example.lasting) 0 (Example.shield 1 None)
             Example.shieldList) = Some true.
Proof. split; vm_compute; reflexivity. Qed.

(* ===================================================================== *)
(** ** getAttribute, getMaxAttribute and the setters (C4) *)
(* ===================================================================== *)

(** *** Sums that are rounded

    [0.1 + 0.2] is [0.30000000000000004]; [2^53 + 1] is [2^53] and
    [2^53 + 3] is [2^53 + 4]; the largest double added to itself is
    [Infinity]; [Infinity - Infinity] is [NaN]. *)
Lemma add_rounds :
  JS.add ExampleEntity.oneTenth ExampleEntity.twoTenths = ExampleEntity.threeTenthsAndABit /\
  JS.add (JS.ofZ (2 ^ 53)) (JS.ofZ 1) = JS.ofZ (2 ^ 53) /\
  JS.add (JS.ofZ (2 ^ 53)) (JS.ofZ 3) = JS.ofZ (2 ^ 53 + 4) /\
  JS.add (JS.ofZ ((2 ^ 53 - 1) * 2 ^ 971)) (JS.ofZ ((2 ^ 53 - 1) * 2 ^ 971)) = JS.PosInf /\
  JS.sub JS.PosInf JS.PosInf = JS.NaN.
Proof. repeat split; vm_compute; reflexivity. Qed.

(** *** Sums of integers that a double holds exactly *)

Lemma shift_nonpos z k : k <= 0 -> JS.shift z k = z.
Proof. intros Hk. unfold JS.shift. rewrite Z.max_l by lia. simpl. lia. Qed.

Lemma shift_nonneg z k : 0 <= k -> JS.shift z k = z * 2 ^ k.
Proof. intros Hk. unfold JS.shift. now rewrite Z.max_r by lia. Qed.

Lemma nearest_whole n : JS.nearest n 1 = n.
Proof. unfold JS.nearest. rewrite Z.mod_1_r, Z.div_1_r. reflexivity. Qed.

Lemma magnitude_whole n : 0 < n -> JS.magnitude n 1 = Z.log2 n.
Proof.
  intros Hn. unfold JS.magnitude. change (Z.log2 1) with 0. rewrite Z.sub_0_r.
  pose proof (Z.log2_nonneg n) as Hk.
  rewrite shift_nonneg, shift_nonpos by lia.
  destruct (Z.log2_spec n Hn) as [Hlo _]. rewrite Z.mul_1_l.
  destruct (Z.leb_spec (2 ^ Z.log2 n) n); [reflexivity | lia].
Qed.

Lemma Qred_integer (z : Z) : Qred (z # 1) = (z # 1).
Proof.
  unfold Qred.
  pose proof (Z.ggcd_gcd z 1) as Hg. pose proof (Z.ggcd_correct_divisors z 1) as Hd.
  destruct (Z.ggcd z 1) as [g [aa bb]]. simpl in *.
  rewrite Z.gcd_1_r in Hg. subst g. destruct Hd as [Ha Hb].
  replace aa with z by lia. replace bb with 1 by lia. reflexivity.
Qed.

Lemma Qred_whole (z k : Z) :
  0 <= k -> Qred ((z * 2 ^ k) # Z.to_pos (2 ^ k)) = (z # 1).
Proof.
  intros Hk.
  assert (0 < 2 ^ k) as Hp by (apply Z.pow_pos_nonneg; lia).
  rewrite <- (Qred_integer z).
  apply Qred_complete. unfold Qeq. simpl. rewrite Z2Pos.id by exact Hp. lia.
Qed.

Lemma nearestDouble_whole (negative : bool) (n : Z) :
  0 < n <= 2 ^ 53 ->
  JS.nearestDouble negative n 1 = JS.Fin ((if negative then - n else n) # 1).
Proof.
  intros [Hpos Hle].
  destruct (Z.eq_dec n (2 ^ 53)) as [->|Hne].
  { destruct negative; vm_compute; reflexivity. }
  assert (Z.log2 n < 53) as Hk by (apply Z.log2_lt_pow2; lia).
  pose proof (Z.log2_nonneg n) as Hk0.
  unfold JS.nearestDouble. rewrite (magnitude_whole n Hpos).
  rewrite Z.max_l by lia.
  set (g := Z.log2 n - 52).
  rewrite (shift_nonneg n (- g)) by (subst g; lia).
  rewrite (shift_nonpos 1 g) by (subst g; lia).
  rewrite nearest_whole.
  rewrite (shift_nonpos _ g) by (subst g; lia).
  rewrite (shift_nonneg 1 (- g)) by (subst g; lia).
  rewrite Z.mul_1_l.
  assert (n * 2 ^ (- g) < 2 ^ 1024) as Hsmall.
  { destruct (Z.log2_spec n Hpos) as [_ Hhi].
    assert (n * 2 ^ (- g) < 2 ^ Z.succ (Z.log2 n) * 2 ^ (- g)) as Hm.
    { apply Z.mul_lt_mono_pos_r; [apply Z.pow_pos_nonneg; subst g; lia | exact Hhi]. }
    rewrite <- Z.pow_add_r in Hm by (subst g; lia).
    replace (Z.succ (Z.log2 n) + - g) with 53 in Hm by (subst g; lia).
    assert (2 ^ 53 < 2 ^ 1024) by (apply Z.pow_lt_mono_r; lia). lia. }
  destruct (Z.leb_spec (2 ^ 1024) (n * 2 ^ (- g))) as [Hbig|_]; [lia|].
  f_equal. destruct negative.
  - rewrite <- Z.mul_opp_l. apply Qred_whole. subst g; lia.
  - apply Qred_whole. subst g; lia.
Qed.

(** An integer of magnitude up to [2^53] is a double. *)
Lemma round_ofZ (z : Z) : Z.abs z <= 2 ^ 53 -> JS.round (inject_Z z) = JS.ofZ z.
Proof.
  intros Hz. unfold JS.round, JS.ofZ, inject_Z. simpl Qnum. simpl Qden.
  destruct z as [|p|p].
  - reflexivity.
  - apply (nearestDouble_whole false). lia.
  - apply (nearestDouble_whole true (Zpos p)). lia.
Qed.

(** The sum of two integers is exact when it is of magnitude up to [2^53]. *)
Lemma add_ofZ (x y : Z) :
  Z.abs (x + y) <= 2 ^ 53 -> JS.add (JS.ofZ x) (JS.ofZ y) = JS.ofZ (x + y).
Proof.
  intros Hz. rewrite <- (round_ofZ (x + y) Hz).
  unfold JS.add, JS.ofZ, JS.round, inject_Z, Qplus. simpl Qnum. simpl Qden.
  now rewrite !Z.mul_1_r.
Qed.

Lemma filter_idem {A} (f : A -> bool) (l : list A) :
  List.filter f (List.filter f l) = List.filter f l.
Proof.
  induction l as [|a l IH]; simpl; [reflexivity|].
  destruct (f a) eqn:Hf; simpl; [rewrite Hf|]; congruence.
Qed.

Section Attributes.
Context {Damage : Type} `{EffectMethods Damage}.
Import EffectableEntity.

(** *** The list side *)

Lemma evaluateAttribute_run now attr (l : EffectList.t) :
  distinct (EffectList.effects l) ->
  exists l',
    EffectList.evaluateAttribute now attr l
    = Ok (fold_left (fun v e => modifyAttribute e (Attribute.name (Attribute.values attr)) v)
                    (EffectList.unpaused
                       (List.filter (isCurrent now) (EffectList.effects l)))
                    (JS.or (Attribute.base (Attribute.values attr)) JS.zero), l') /\
    EffectList.effects l' = List.filter (isCurrent now) (EffectList.effects l).
Proof.
  intros Hd. destruct (validateEffects_ok now l) as (l' & Hv & _ & Hf).
  exists l'. unfold EffectList.evaluateAttribute. unfoldM.
  rewrite Hv, (Hf Hd). auto.
Qed.

Lemma deliverAll_other now event l :
  String.eqb event "updateTick" = false ->
  fst (EffectList.deliverAll now event l) = l.
Proof.
  intros He. induction l as [|a l IH]; [reflexivity|]. simpl.
  assert (fst (EffectList.deliver now event a) = a) as Ha.
  { unfold EffectList.deliver. rewrite He. now destruct (Effect.paused a). }
  destruct (EffectList.deliver now event a) as [a' out].
  destruct (EffectList.deliverAll now event l) as [l' outs].
  simpl in *. congruence.
Qed.

(** [super.emit] for an event that is not an unheard ['error']. *)
Lemma superEmit_run event ent :
  String.eqb event "error" && negb (bool_decide ("error" ∈ listened ent)) = false ->
  superEmit event ent
  = Ok (tt, withEffects
              (EffectList.mk (EffectList.effects (effects ent))
                 (EffectList.target (effects ent))
                 (EffectList.signals (effects ent) ++ [ToTarget event None])%list
                 (EffectList.pending (effects ent))) ent).
Proof.
  intros He. unfold superEmit, onEffects, EffectList.signal. unfoldM.
  rewrite He. reflexivity.
Qed.

(** The relay of [attributeUpdate] leaves the current members. *)
Lemma emit_attributeUpdate now ent :
  distinct (EffectList.effects (effects ent)) ->
  exists l', emit now "attributeUpdate" ent = Ok (true, withEffects l' ent) /\
             EffectList.effects l'
             = List.filter (isCurrent now) (EffectList.effects (effects ent)).
Proof.
  intros Hd. unfold emit. unfoldM. rewrite superEmit_run by reflexivity.
  unfold onEffects. simpl.
  set (l0 := EffectList.mk _ _ _ _).
  destruct (validateEffects_ok now l0) as (l1 & Hv & _ & Hf).
  rewrite (emit_run _ _ _ _ Hv). simpl.
  pose proof (deliverAll_other now "attributeUpdate" (EffectList.effects l1) eq_refl) as Hfst.
  destruct (EffectList.deliverAll now "attributeUpdate" (EffectList.effects l1))
    as [l out]. simpl in Hfst. subst l.
  eexists. split; [reflexivity|]. simpl. now rewrite (Hf Hd).
Qed.

(** *** Unfolding the getters *)

Lemma getMaxAttributeAt_S d now name ent :
  getMaxAttributeAt (S d) now name ent =
  match attributes ent !! name with
  | None => Throw (NoSuchAttribute name)
  | Some attribute =>
      match onEffects (EffectList.evaluateAttribute now attribute) ent with
      | Throw e => Throw e
      | Ok (currentVal, ent1) =>
          match Attribute.formula attribute with
          | None => Ok (currentVal, ent1)
          | Some f =>
              match mapM (getMaxAttributeAt d now) (Attribute.requires f) ent1 with
              | Throw e => Throw e
              | Ok (reqs, ent2) =>
                  Ok (Attribute.evaluate f (Attribute.values attribute) (view ent2)
                        currentVal reqs, ent2)
              end
          end
      end
  end.
Proof.
  simpl. unfoldM.
  destruct (attributes ent !! name) as [a|] eqn:Ha.
  - rewrite (hasAttribute_Some _ _ _ Ha). simpl.
    destruct (onEffects _ ent) as [[v e1]|]; [|reflexivity].
    destruct (Attribute.formula a); [|reflexivity].
    destruct (mapM _ _ e1) as [[reqs e2]|]; reflexivity.
  - now rewrite (hasAttribute_None _ _ Ha).
Qed.

Lemma mapM_cons {S A B} (f : A -> M S B) x xs s :
  mapM f (x :: xs) s =
  match f x s with
  | Throw e => Throw e
  | Ok (y, s1) =>
      match mapM f xs s1 with
      | Throw e => Throw e
      | Ok (ys, s2) => Ok (y :: ys, s2)
      end
  end.
Proof.
  simpl. unfoldM. destruct (f x s) as [[y s1]|]; [|reflexivity].
  destruct (mapM f xs s1) as [[ys s2]|]; reflexivity.
Qed.

Lemma getAttribute_run now name ent attr :
  attributes ent !! name = Some attr ->
  getAttribute now name ent =
  match getMaxAttribute now name ent with
  | Ok (max, ent') => Ok (JS.add max (Attribute.delta (Attribute.values attr)), ent')
  | Throw e => Throw e
  end.
Proof.
  intros Ha. unfold getAttribute. unfoldM. rewrite Ha.
  rewrite (hasAttribute_Some _ _ _ Ha). simpl.
  destruct (getMaxAttribute now name ent) as [[m e]|]; reflexivity.
Qed.

Lemma update_run now name change ent attr :
  attributes ent !! name = Some attr ->
  update now name change ent =
  match getAttribute now name
          (withAttributes (<[name := change attr]> (attributes ent)) ent) with
  | Throw e => Throw e
  | Ok (_, ent1) =>
      match emit now "attributeUpdate" ent1 with
      | Throw e => Throw e
      | Ok (_, ent2) => Ok (tt, ent2)
      end
  end.
Proof.
  intros Ha. unfold update. unfoldM. rewrite Ha.
  rewrite (hasAttribute_Some _ _ _ Ha). simpl.
  destruct (getAttribute now name _) as [[v e1]|]; [|reflexivity].
  destruct (emit now "attributeUpdate" e1) as [[b e2]|]; reflexivity.
Qed.

(** Without a formula the maximum is the fold of the current, unpaused
    effects over the base, and the call returns. *)
Lemma getMaxAttribute_plain now name ent attr :
  distinct (EffectList.effects (effects ent)) ->
  attributes ent !! name = Some attr ->
  Attribute.formula attr = None ->
  exists ent',
    getMaxAttribute now name ent
    = Ok (fold_left (fun v e => modifyAttribute e (Attribute.name (Attribute.values attr)) v)
                    (EffectList.unpaused (current now ent))
                    (JS.or (Attribute.base (Attribute.values attr)) JS.zero), ent').
Proof.
  intros Hd Ha Hf. unfold getMaxAttribute. unfoldM.
  rewrite getMaxAttributeAt_S, Ha. unfold onEffects.
  destruct (evaluateAttribute_run now attr _ Hd) as (l' & Hr & _).
  rewrite Hr, Hf. eauto.
Qed.

(** *** Entities that differ in deltas only *)

Lemma related_refl a : related a a.
Proof. repeat split. Qed.

Lemma alike_size now e1 e2 :
  alike now e1 e2 -> base.size (attributes e1) = base.size (attributes e2).
Proof.
  intros (_ & _ & _ & Hk).
  rewrite <- !(size_dom (D := gset string)). f_equal.
  apply set_eq. intros k. rewrite !elem_of_dom.
  specialize (Hk k). inversion Hk; split; intros [u Hu]; eauto; congruence.
Qed.

Lemma evaluateAttribute_alike now a1 a2 e1 e2 :
  alike now e1 e2 ->
  sameButDelta (Attribute.values a1) (Attribute.values a2) ->
  exists v e1' e2',
    onEffects (EffectList.evaluateAttribute now a1) e1 = Ok (v, e1') /\
    onEffects (EffectList.evaluateAttribute now a2) e2 = Ok (v, e2') /\
    alike now e1' e2' /\
    attributes e1' = attributes e1 /\ attributes e2' = attributes e2 /\
    current now e1' = current now e1.
Proof.
  intros (Hd1 & Hd2 & Hf & Hk) [Hn Hb].
  destruct (evaluateAttribute_run now a1 _ Hd1) as (l1 & Hr1 & Hl1).
  destruct (evaluateAttribute_run now a2 _ Hd2) as (l2 & Hr2 & Hl2).
  unfold onEffects. rewrite Hr1, Hr2.
  do 3 eexists. split; [reflexivity|]. split.
  - unfold current in Hf. rewrite <- Hf, <- Hn, <- Hb. reflexivity.
  - split; [|split; [reflexivity | split; [reflexivity|]]].
    + split; [|split; [|split]]; simpl.
      * rewrite Hl1. now apply distinct_filter.
      * rewrite Hl2. now apply distinct_filter.
      * unfold current in *. simpl. rewrite Hl1, Hl2, !filter_idem. exact Hf.
      * exact Hk.
    + unfold current. simpl. rewrite Hl1. apply filter_idem.
Qed.

Lemma deltaBlind_same ent ent' :
  attributes ent' = attributes ent -> deltaBlind ent -> deltaBlind ent'.
Proof. unfold deltaBlind. intros -> Hb. exact Hb. Qed.

Lemma view_alike now e1 e2 :
  alike now e1 e2 -> forall k, option_Forall2 sameButDelta (view e1 !! k) (view e2 !! k).
Proof.
  intros (_ & _ & _ & Hk) k. unfold view. rewrite !lookup_fmap.
  destruct (Hk k) as [a a' [_ Hs]|]; constructor. exact Hs.
Qed.

(** The maximum of an attribute is the same in two such entities, when
    no formula reads a delta. *)
Lemma getMaxAttributeAt_alike now :
  forall depth name e1 e2 v e1',
    deltaBlind e1 -> alike now e1 e2 ->
    getMaxAttributeAt depth now name e1 = Ok (v, e1') ->
    exists e2', getMaxAttributeAt depth now name e2 = Ok (v, e2') /\
                alike now e1' e2' /\
                attributes e1' = attributes e1 /\ attributes e2' = attributes e2 /\
                current now e1' = current now e1.
Proof.
  induction depth as [|d IH]; intros name e1 e2 v e1' Hblind Hal Hrun;
    [discriminate|].
  rewrite getMaxAttributeAt_S in Hrun. rewrite getMaxAttributeAt_S.
  pose proof Hal as (_ & _ & _ & Hk). specialize (Hk name).
  destruct (attributes e1 !! name) as [a1|] eqn:Ha1; [|discriminate].
  destruct (attributes e2 !! name) as [a2|] eqn:Ha2; [|inversion Hk].
  assert (related a1 a2) as [Hform Hsame] by (now inversion Hk). clear Hk.
  destruct (evaluateAttribute_alike now a1 a2 e1 e2 Hal Hsame)
    as (cur & m1 & m2 & Hr1 & Hr2 & Halm & Hat1 & Hat2 & Hc1).
  rewrite Hr1 in Hrun. rewrite Hr2. rewrite <- Hform.
  destruct (Attribute.formula a1) as [f|] eqn:Hf.
  - (* the required values, one after the other *)
    assert (forall names n1 n2 vs n1',
               deltaBlind n1 -> alike now n1 n2 ->
               mapM (getMaxAttributeAt d now) names n1 = Ok (vs, n1') ->
               exists n2', mapM (getMaxAttributeAt d now) names n2 = Ok (vs, n2') /\
                           alike now n1' n2' /\
                           attributes n1' = attributes n1 /\
                           attributes n2' = attributes n2 /\
                           current now n1' = current now n1) as Hmap.
    { induction names as [|x xs IHxs]; intros n1 n2 vs n1' Hb Hn Hm.
      - inversion Hm; subst. exists n2. split; [reflexivity|]. split; [exact Hn|]. auto.
      - rewrite mapM_cons in Hm. rewrite mapM_cons.
        destruct (getMaxAttributeAt d now x n1) as [[y k1]|] eqn:Hx; [|discriminate].
        destruct (IH x n1 n2 y k1 Hb Hn Hx) as (k2 & Hx2 & Hk12 & Hka1 & Hka2 & Hkc).
        rewrite Hx2.
        destruct (mapM (getMaxAttributeAt d now) xs k1) as [[ys j1]|] eqn:Hxs;
          [|discriminate].
        inversion Hm; subst.
        destruct (IHxs k1 k2 ys n1' (deltaBlind_same _ _ Hka1 Hb) Hk12 Hxs)
          as (j2 & Hxs2 & Hj & Hja1 & Hja2 & Hjc).
        rewrite Hxs2. exists j2. split; [reflexivity|]. split; [exact Hj|].
        repeat split; congruence. }
    destruct (mapM (getMaxAttributeAt d now) (Attribute.requires f) m1)
      as [[reqs r1]|] eqn:Hreq; [|discriminate].
    inversion Hrun; subst.
    destruct (Hmap _ m1 m2 reqs e1' (deltaBlind_same _ _ Hat1 Hblind) Halm Hreq)
      as (r2 & Hreq2 & Hr12 & Hra1 & Hra2 & Hrc).
    rewrite Hreq2. exists r2.
    split; [|split; [exact Hr12 | repeat split; congruence]].
    f_equal. f_equal. symmetry.
    apply (Hblind name a1 f Ha1 Hf); [exact Hsame | now apply (view_alike now)].
  - inversion Hrun; subst. exists m2. auto.
Qed.

Lemma getMaxAttribute_alike now name e1 e2 v e1' :
  deltaBlind e1 -> alike now e1 e2 ->
  getMaxAttribute now name e1 = Ok (v, e1') ->
  exists e2', getMaxAttribute now name e2 = Ok (v, e2') /\
              alike now e1' e2' /\
              attributes e1' = attributes e1 /\ attributes e2' = attributes e2 /\
              current now e1' = current now e1.
Proof.
  intros Hb Hal Hrun. unfold getMaxAttribute in *. unfoldM.
  rewrite <- (alike_size now e1 e2 Hal).
  exact (getMaxAttributeAt_alike now _ name e1 e2 v e1' Hb Hal Hrun).
Qed.

(** Replacing one attribute by another of the same name, base and
    formula gives an entity alike the first. *)
Lemma alike_changed now ent ent' name attr attr' :
  distinct (EffectList.effects (effects ent)) ->
  distinct (EffectList.effects (effects ent')) ->
  current now ent' = current now ent ->
  attributes ent !! name = Some attr ->
  attributes ent' = <[name := attr']> (attributes ent) ->
  related attr attr' ->
  alike now ent ent'.
Proof.
  intros Hd Hd' Hc Ha Ha' Hr. split; [exact Hd|]. split; [exact Hd'|].
  split; [now rewrite Hc|].
  intros k. rewrite Ha'. destruct (decide (name = k)) as [<-|Hne].
  - rewrite lookup_insert_eq, Ha. now constructor.
  - rewrite lookup_insert_ne by exact Hne.
    destruct (attributes ent !! k); constructor. apply related_refl.
Qed.

Lemma raise_related attr amount : related attr (Attribute.raise attr amount).
Proof. repeat split. Qed.

(** C4, as the code has it.  In every state, and so after any sequence
    of raiseAttribute, lowerAttribute and setAttributeBase calls,
    [getAttribute(name)] is [getMaxAttribute(name)] plus the delta of the
    attribute, the sum of two doubles (and throws when that throws).
    When no formula of the entity reads a delta, and the maximum [m], the
    delta [d] and the amount [a] are integers with [m + d], [d + a] and
    [m + d + a] of magnitude up to [2^53], [getAttribute(name)] returns
    [m + d], [raiseAttribute(name, a)] returns, and [getAttribute(name)]
    returns [m + d + a] afterwards, the clock standing still. *)
Theorem getAttribute_identity_and_raise (ent : EffectableEntity.t) (now : Z)
        (name : string) :
  (forall ops ent' attr',
      runOps now ops ent = Ok (tt, ent') ->
      attributes ent' !! name = Some attr' ->
      getAttribute now name ent'
      = (max ← getMaxAttribute now name;
         ret (JS.add max (Attribute.delta (Attribute.values attr')))) ent') /\
  (forall attr (m d a : Z) ent1,
      distinct (EffectList.effects (effects ent)) ->
      deltaBlind ent ->
      attributes ent !! name = Some attr ->
      Attribute.delta (Attribute.values attr) = JS.ofZ d ->
      getMaxAttribute now name ent = Ok (JS.ofZ m, ent1) ->
      Z.abs (m + d) <= 2 ^ 53 ->
      Z.abs (d + a) <= 2 ^ 53 ->
      Z.abs (m + d + a) <= 2 ^ 53 ->
      exists ent2 ent3,
        getAttribute now name ent = Ok (JS.ofZ (m + d), ent1) /\
        raiseAttribute now name (JS.ofZ a) ent = Ok (tt, ent2) /\
        getAttribute now name ent2 = Ok (JS.ofZ (m + d + a), ent3)).
Proof.
  split.
  - intros ops ent' attr' _ Ha. rewrite (getAttribute_run _ _ _ _ Ha). unfoldM.
    destruct (getMaxAttribute now name ent') as [[m e]|]; reflexivity.
  - intros attr m d a ent1 Hd Hb Ha Hdelta Hmax Hr1 Hr2 Hr3.
    set (amount := JS.ofZ a).
    (* the entity once the delta is raised *)
    set (entA := withAttributes (<[name := Attribute.raise attr amount]> (attributes ent)) ent).
    assert (alike now ent entA) as HalA.
    { apply (alike_changed now ent entA name attr (Attribute.raise attr amount));
        [exact Hd | exact Hd | reflexivity | exact Ha | reflexivity | apply raise_related]. }
    assert (attributes entA !! name = Some (Attribute.raise attr amount)) as HaA
      by (simpl; apply lookup_insert_eq).
    destruct (getMaxAttribute_alike now name ent entA (JS.ofZ m) ent1 Hb HalA Hmax)
      as (entA1 & HmaxA & Hal1 & Hat1 & HatA1 & Hc1).
    (* the relay of attributeUpdate *)
    destruct Hal1 as (Hd1 & HdA1 & Hcur1 & _).
    destruct (emit_attributeUpdate now entA1 HdA1) as (l' & Hemit & Hl').
    exists (withEffects l' entA1).
    assert (raiseAttribute now name amount ent = Ok (tt, withEffects l' entA1)) as Hraise.
    { unfold raiseAttribute. rewrite (update_run _ _ _ _ _ Ha). fold entA.
      rewrite (getAttribute_run _ _ _ _ HaA), HmaxA, Hemit. reflexivity. }
    (* the entity after the call is alike the one before *)
    assert (alike now ent (withEffects l' entA1)) as Hal2.
    { apply (alike_changed now ent _ name attr (Attribute.raise attr amount));
        [exact Hd | | | exact Ha | | apply raise_related].
      - simpl. rewrite Hl'. now apply distinct_filter.
      - unfold current at 1. simpl. rewrite Hl', filter_idem.
        fold (current now entA1). congruence.
      - simpl. now rewrite HatA1. }
    destruct (getMaxAttribute_alike now name ent _ (JS.ofZ m) ent1 Hb Hal2 Hmax)
      as (ent3 & Hmax3 & _).
    exists ent3. split; [|split; [exact Hraise|]].
    + rewrite (getAttribute_run _ _ _ _ Ha), Hmax, Hdelta. now rewrite add_ofZ.
    + assert (attributes (withEffects l' entA1) !! name
              = Some (Attribute.raise attr amount)) as Ha2.
      { simpl. rewrite HatA1. exact HaA. }
      rewrite (getAttribute_run _ _ _ _ Ha2), Hmax3.
      cbn [Attribute.raise Attribute.values Attribute.delta]. rewrite Hdelta.
      subst amount. rewrite (add_ofZ d a Hr2), add_ofZ by (now rewrite Z.add_assoc).
      now rewrite Z.add_assoc.
Qed.

End Attributes.

Lemma hero_deltaBlind : deltaBlind ExampleEntity.hero.
Proof.
  intros k a f Ha Hf. simpl in Ha.
  apply lookup_singleton_Some in Ha as [_ <-]. discriminate.
Qed.

Lemma getAttribute_identity_and_raise_witness :
  (exists ent' attr',
      runOps (H := Example.lasting) 0 ExampleEntity.training ExampleEntity.hero
      = Ok (tt, ent') /\
      EffectableEntity.attributes ent' !! "health" = Some attr' /\
      EffectableEntity.getAttribute (H := Example.lasting) 0 "health" ent'
      = (max ← EffectableEntity.getMaxAttribute (H := Example.lasting) 0 "health";
         ret (JS.add max (Attribute.delta (Attribute.values attr')))) ent') /\
  (exists ent1 ent2 ent3,
      EffectableEntity.getAttribute (H := Example.lasting) 0 "health" ExampleEntity.hero
      = Ok (JS.ofZ (100 + -20), ent1) /\
      EffectableEntity.raiseAttribute (H := Example.lasting) 0 "health" (JS.ofZ 5)
        ExampleEntity.hero
      = Ok (tt, ent2) /\
      EffectableEntity.getAttribute (H := Example.lasting) 0 "health" ent2
      = Ok (JS.ofZ (100 + -20 + 5), ent3)).
Proof.
  destruct (getAttribute_identity_and_raise (H := Example.lasting)
              ExampleEntity.hero 0 "health") as [Hid Hraise].
  split.
  - do 2 eexists. split; [vm_compute; reflexivity|]. split; [vm_compute; reflexivity|].
    apply (Hid ExampleEntity.training); vm_compute; reflexivity.
  - eexists.
    eapply (Hraise ExampleEntity.health 100 (-20) 5).
    + repeat constructor; simpl; intuition discriminate.
    + exact hero_deltaBlind.
    + reflexivity.
    + reflexivity.
    + vm_compute. reflexivity.
    + vm_compute. discriminate.
    + vm_compute. discriminate.
    + vm_compute. discriminate.
Defined.

(** C4 as stated fails, in three ways.  The formula of [hp] subtracts the
    attribute's own delta, so [getAttribute] answers 10 before and after
    [raiseAttribute("hp", 3)].  [mass] is [2^53], and [2^53 + 1] is not a
    double, so [getAttribute] answers [2^53] before and after
    [raiseAttribute("mass", 1)].  [odds] has base 0.1 and delta 0.2:
    [getAttribute] answers 0.30000000000000004 before and 0.6 after
    [raiseAttribute("odds", 0.3)], and 0.30000000000000004 + 0.3 is
    0.6000000000000001. *)
Lemma raise_not_by_the_amount :
  (valueOf (EffectableEntity.getAttribute (H := Example.lasting) 0 "hp" ExampleEntity.golem)
   = Some (JS.ofZ 10) /\
   valueOf ((EffectableEntity.raiseAttribute (H := Example.lasting) 0 "hp" (JS.ofZ 3);;
             EffectableEntity.getAttribute (H := Example.lasting) 0 "hp")
              ExampleEntity.golem)
   = Some (JS.ofZ 10)) /\
  (valueOf (EffectableEntity.getAttribute (H := Example.lasting) 0 "mass"
              ExampleEntity.giant)
   = Some (JS.ofZ (2 ^ 53)) /\
   valueOf ((EffectableEntity.raiseAttribute (H := Example.lasting) 0 "mass" (JS.ofZ 1);;
             EffectableEntity.getAttribute (H := Example.lasting) 0 "mass")
              ExampleEntity.giant)
   = Some (JS.ofZ (2 ^ 53))) /\
  (valueOf (EffectableEntity.getAttribute (H := Example.lasting) 0 "odds"
              ExampleEntity.gambler)
   = Some ExampleEntity.threeTenthsAndABit /\
   valueOf ((EffectableEntity.raiseAttribute (H := Example.lasting) 0 "odds"
               ExampleEntity.threeTenths;;
             EffectableEntity.getAttribute (H := Example.lasting) 0 "odds")
              ExampleEntity.gambler)
   = Some ExampleEntity.sixTenths /\
   JS.add ExampleEntity.threeTenthsAndABit ExampleEntity.threeTenths
   <> ExampleEntity.sixTenths).
Proof.
  split; [split; vm_compute; reflexivity|].
  split; [split; vm_compute; reflexivity|].
  split; [vm_compute; reflexivity|]. split; [vm_compute; reflexivity|].
  vm_compute. discriminate.
Qed.

(* ===================================================================== *)
(** ** add on a list where no rule applies *)
(* ===================================================================== *)

Lemma clone_same (s : Effect.State) : Effect.clone s = s.
Proof. now destruct s. Qed.

Lemma withState_clone (e : Effect.t) :
  Effect.withState e (Effect.clone (Effect.state e)) = e.
Proof. rewrite clone_same. now destruct e. Qed.

Lemma ruleApplies_equivalent a b :
  Effect.equivalent a b -> ruleApplies a = ruleApplies b.
Proof.
  intros (_ & Hc & Hs & _). unfold ruleApplies, EffectList.stacksUp. now rewrite Hc, Hs.
Qed.

Lemma equivalent_trans a b c :
  Effect.equivalent a b -> Effect.equivalent b c -> Effect.equivalent a c.
Proof. intros (? & ? & ? & ?) (? & ? & ? & ?). repeat split; congruence. Qed.

Lemma equivalent_withTarget e owner : Effect.equivalent (Effect.withTarget e owner) e.
Proof. repeat split. Qed.

Section Free.
Context {Damage : Type} `{EffectMethods Damage}.
Import EffectList.

Lemma has_fresh e l :
  (forall a, List.In a l -> Effect.ref a <> Effect.ref e) -> has e l = false.
Proof.
  intros Hall. unfold has. apply not_true_is_false. intros Ht.
  apply List.existsb_exists in Ht as (a & Ha & Hs).
  apply sameRef_true in Hs. apply (Hall a Ha). congruence.
Qed.

(** The loop of [add] runs to its end when no rule applies to a member
    of the type. *)
Lemma resolve_free effect l :
  (forall a, List.In a l ->
             Effect.type (Effect.config a) = Effect.type (Effect.config effect) ->
             ruleApplies a = false) ->
  resolve effect l = None.
Proof.
  induction l as [|a l IH]; intros Hall; [reflexivity|]. simpl.
  rewrite IH by (intros x Hx; apply Hall; now right).
  destruct (String.eqb_spec (Effect.type (Effect.config effect))
                            (Effect.type (Effect.config a))) as [Heq|Hne];
    [|reflexivity].
  pose proof (Hall a (or_introl eq_refl) (eq_sym Heq)) as Hr.
  unfold ruleApplies in Hr.
  apply orb_false_iff in Hr as [Hr Hu]. apply orb_false_iff in Hr as [Hs Hr].
  now rewrite Hs, Hr, Hu.
Qed.

Lemma resolve_None effect l :
  resolve effect l = None ->
  forall a, List.In a l ->
            Effect.type (Effect.config a) = Effect.type (Effect.config effect) ->
            ruleApplies a = false.
Proof.
  induction l as [|a l IH]; intros Hr x Hx Ht; [destruct Hx|].
  simpl in Hr.
  destruct (resolve effect l) as [[[b l'] out]|] eqn:Hrest.
  - destruct (String.eqb _ _); [|discriminate].
    destruct (stacksUp a); [discriminate|].
    destruct (Effect.refreshes _); [discriminate|].
    destruct (Effect.unique _); discriminate.
  - destruct Hx as [<-|Hx]; [|now apply IH].
    rewrite <- Ht in Hr. rewrite String.eqb_refl in Hr.
    unfold ruleApplies.
    destruct (stacksUp a); [discriminate|].
    destruct (Effect.refreshes _); [discriminate|].
    destruct (Effect.unique _); [discriminate|reflexivity].
Qed.

Lemma distinct_app_fresh l e :
  distinct l -> (forall a, List.In a l -> Effect.ref a <> Effect.ref e) ->
  distinct (l ++ [e]).
Proof.
  unfold distinct. intros Hd Hf. rewrite List.map_app. simpl.
  apply List.NoDup_app; [exact Hd | repeat constructor; simpl; tauto |].
  intros r Hr [<-|[]]. apply List.in_map_iff in Hr as (a & Ha & Hin).
  now apply (Hf a Hin).
Qed.

(** [add] of a fresh, detached effect that meets no rule appends it,
    attached, when all are current. *)
Lemma add_inserts now e s :
  Effect.target e = None ->
  resolve e (effects s) = None ->
  (forall a, List.In a (effects s) -> Effect.ref a <> Effect.ref e) ->
  distinct (effects s) ->
  (forall a, List.In a (effects s) -> isCurrent now a = true) ->
  isCurrent now (Effect.withTarget e (target s)) = true ->
  exists s', add now e s = Ok (true, s') /\
             effects s' = (effects s ++ [Effect.withTarget e (target s)])%list /\
             target s' = target s /\ pending s' = pending s.
Proof.
  intros Ht Hres Hfresh Hd Hcur Hce. unfold add. rewrite Ht.
  rewrite bool_decide_eq_false_2 by (intros [x Hx]; discriminate).
  rewrite withState_clone. unfoldM. rewrite Hres.
  unfold signal, targetEmit, signal. unfoldM. simpl.
  unfold setAdd.
  rewrite (has_fresh (Effect.withTarget e (target s)) (effects s) Hfresh).
  set (s1 := mk _ _ _ _).
  destruct (validateEffects_ok now s1) as (s2 & Hv & Hsw & Hf).
  rewrite (emit_run _ _ _ _ Hv). simpl.
  exists s2. split; [reflexivity|].
  destruct Hsw as [Htg Hpd _ _]. subst s1. simpl in *.
  split; [|split; assumption].
  rewrite Hf by (now apply distinct_app_fresh).
  apply filter_clean. intros x Hx.
  apply List.in_app_or in Hx as [Hx|[<-|[]]]; auto.
Qed.

End Free.

(* ===================================================================== *)
(** ** Lists whose members coexist *)
(* ===================================================================== *)

Lemma coexist_before done p rest :
  coexist (done ++ p :: rest) ->
  forall a, List.In a done ->
            Effect.type (Effect.config p) = Effect.type (Effect.config a) ->
            ruleApplies a = false.
Proof.
  induction done as [|x done IH]; intros Hco a Ha Ht; [destruct Ha|].
  simpl in Hco. destruct Hco as [Hx Hco]. destruct Ha as [<-|Ha].
  - rewrite List.Forall_forall in Hx. apply (Hx p); [|exact Ht].
    apply List.in_or_app. right. now left.
  - now apply IH.
Qed.

Lemma coexist_filter f l : coexist l -> coexist (List.filter f l).
Proof.
  induction l as [|a l IH]; simpl; [tauto|]. intros [Ha Hco].
  destruct (f a); simpl; [split|]; auto.
  rewrite List.Forall_forall in *. intros b Hb.
  apply List.filter_In in Hb as [Hb _]. now apply Ha.
Qed.

Lemma coexist_snoc l e :
  coexist l ->
  (forall a, List.In a l ->
             Effect.type (Effect.config a) = Effect.type (Effect.config e) ->
             ruleApplies a = false) ->
  coexist (l ++ [e]).
Proof.
  induction l as [|a l IH]; simpl; intros Hco Hall; [split; [constructor|exact I]|].
  destruct Hco as [Ha Hco]. split.
  - apply List.Forall_app. split; [exact Ha|].
    constructor; [|constructor]. intros Ht. apply Hall; [now left | congruence].
  - apply IH; [exact Hco|]. intros x Hx. apply Hall. now right.
Qed.

Section Coexist.
Context {Damage : Type} `{EffectMethods Damage}.
Import EffectList.

(** A rule that returns leaves the types where they are, and changes at
    most the one member to which the stacking rule applied. *)
Lemma resolve_coexist effect l result l' out :
  coexist l -> resolve effect l = Some (result, l', out) -> coexist l'.
Proof.
  revert result l' out.
  induction l as [|a l IH]; intros result l' out Hco Hr; [discriminate|].
  simpl in Hr. destruct Hco as [Ha Hco].
  assert (forall r m o, resolve effect l = Some (r, m, o) ->
                        List.map (fun x => Effect.type (Effect.config x)) m
                        = List.map (fun x => Effect.type (Effect.config x)) l) as Htypes.
  { clear. induction l as [|b l IHl]; intros r m o Hm; [discriminate|].
    simpl in Hm.
    destruct (resolve effect l) as [[[r0 m0] o0]|] eqn:Hrest.
    - specialize (IHl _ _ _ eq_refl).
      destruct (String.eqb _ _);
        [destruct (stacksUp b);
         [|destruct (Effect.refreshes _); [|destruct (Effect.unique _)]]|];
        inversion Hm; subst; simpl; congruence.
    - destruct (String.eqb _ _); [|discriminate].
      destruct (stacksUp b);
        [|destruct (Effect.refreshes _); [|destruct (Effect.unique _)]];
        inversion Hm; subst; reflexivity. }
  assert (forall m, List.map (fun x => Effect.type (Effect.config x)) m
                    = List.map (fun x => Effect.type (Effect.config x)) l ->
                    coexist m ->
                    coexist (a :: m)) as Hkeep.
  { intros m Hm Hcm. split; [|exact Hcm].
    rewrite List.Forall_forall in *. intros b Hb Ht.
    assert (List.In (Effect.type (Effect.config b))
                    (List.map (fun x => Effect.type (Effect.config x)) l)) as Hin
      by (rewrite <- Hm;
          now apply (List.in_map (fun x => Effect.type (Effect.config x)))).
    apply List.in_map_iff in Hin as (b0 & Hb0 & Hin0).
    apply (Ha b0 Hin0). congruence. }
  destruct (String.eqb _ _) eqn:Heq.
  - destruct (stacksUp a) eqn:Hs.
    + inversion Hr; subst. split; [|exact Hco].
      rewrite List.Forall_forall in *. intros b Hb Ht.
      specialize (Ha b Hb Ht). unfold ruleApplies in Ha. rewrite Hs in Ha. discriminate.
    + destruct (Effect.refreshes _); [inversion Hr; subst; now split|].
      destruct (Effect.unique _); [inversion Hr; subst; now split|].
      destruct (resolve effect l) as [[[r0 m0] o0]|] eqn:Hrest; [|discriminate].
      inversion Hr; subst. apply Hkeep; eauto.
  - destruct (resolve effect l) as [[[r0 m0] o0]|] eqn:Hrest; [|discriminate].
    inversion Hr; subst. apply Hkeep; eauto.
Qed.

Lemma resolve_refs effect l result l' out :
  resolve effect l = Some (result, l', out) ->
  List.map Effect.ref l' = List.map Effect.ref l.
Proof.
  revert result l' out. induction l as [|a l IH]; intros r m o Hr; [discriminate|].
  simpl in Hr.
  destruct (resolve effect l) as [[[r0 m0] o0]|] eqn:Hrest.
  - specialize (IH _ _ _ eq_refl).
    destruct (String.eqb _ _);
      [destruct (stacksUp a);
       [|destruct (Effect.refreshes _); [|destruct (Effect.unique _)]]|];
      inversion Hr; subst; simpl; congruence.
  - destruct (String.eqb _ _); [|discriminate].
    destruct (stacksUp a);
      [|destruct (Effect.refreshes _); [|destruct (Effect.unique _)]];
      inversion Hr; subst; reflexivity.
Qed.

(** The empty list is such a list, and [add] of a new object keeps a Set
    a Set and its members coexisting. *)
Lemma add_keeps now e s result s' :
  distinct (effects s) -> coexist (effects s) ->
  (forall a, List.In a (effects s) -> Effect.ref a <> Effect.ref e) ->
  add now e s = Ok (result, s') ->
  distinct (effects s') /\ coexist (effects s').
Proof.
  intros Hd Hco Hfresh Hadd. unfold add in Hadd.
  destruct (bool_decide _); [discriminate|].
  rewrite withState_clone in Hadd. unfoldM.
  destruct (resolve e (effects s)) as [[[r l] out]|] eqn:Hres.
  - inversion Hadd; subst. simpl. split.
    + unfold distinct. rewrite (resolve_refs _ _ _ _ _ Hres). exact Hd.
    + eapply resolve_coexist; eauto.
  - unfold signal, targetEmit, signal in Hadd. unfoldM. simpl in Hadd.
    unfold setAdd in Hadd.
    rewrite (has_fresh (Effect.withTarget e (target s)) (effects s) Hfresh) in Hadd.
    set (s1 := mk _ _ _ _) in Hadd.
    destruct (validateEffects_ok now s1) as (s2 & Hv & _ & Hf).
    rewrite (emit_run _ _ _ _ Hv) in Hadd. simpl in Hadd.
    inversion Hadd; subst s'. subst s1. simpl in Hf.
    assert (distinct (effects s ++ [Effect.withTarget e (target s)])) as Hd1
      by (now apply distinct_app_fresh).
    rewrite (Hf Hd1). split; [now apply distinct_filter|].
    apply coexist_filter, coexist_snoc; [exact Hco|].
    apply (resolve_None e); exact Hres.
Qed.

End Coexist.

Lemma Forall2_partner {A B} (R : A -> B -> Prop) l k a :
  List.Forall2 R l k -> List.In a l -> exists b, List.In b k /\ R a b.
Proof.
  induction 1 as [|x y l k Hxy _ IH]; intros Ha; [destruct Ha|].
  destruct Ha as [<-|Ha].
  - exists y. split; [now left | exact Hxy].
  - destruct (IH Ha) as (b & Hb & Hab). exists b. split; [now right | exact Hab].
Qed.

Lemma distinct_sameRules l' l :
  List.Forall2 sameRules l' l -> distinct l -> distinct l'.
Proof.
  intros Hs. unfold distinct.
  assert (List.map Effect.ref l' = List.map Effect.ref l) as ->; [|auto].
  induction Hs as [|a b l' l (Hr & _) _ IH]; simpl; congruence.
Qed.

Lemma ruleApplies_sameRules a b : sameRules a b -> ruleApplies a = ruleApplies b.
Proof.
  intros (_ & Hc & Hs). unfold ruleApplies, EffectList.stacksUp. now rewrite Hc, Hs.
Qed.

Lemma coexist_sameRules l' l :
  List.Forall2 sameRules l' l -> coexist l -> coexist l'.
Proof.
  induction 1 as [|a b l' l Hab Hs IH]; simpl; [auto|]. intros [Hb Hco].
  split; [|auto]. rewrite List.Forall_forall in *. intros x Hx Ht.
  destruct (Forall2_partner _ _ _ x Hs Hx) as (y & Hy & Hxy).
  rewrite (ruleApplies_sameRules a b Hab). apply (Hb y Hy).
  destruct Hab as (_ & Hca & _), Hxy as (_ & Hcx & _). congruence.
Qed.

Section Built.
Context {Damage : Type} `{EffectMethods Damage}.
Import EffectList.

Lemma deliverAll_sameRules now event l :
  List.Forall2 sameRules (fst (deliverAll now event l)) l.
Proof.
  induction l as [|a l IH]; simpl; [constructor|].
  assert (sameRules (fst (deliver now event a)) a) as Ha.
  { unfold deliver. destruct (Effect.paused a); [repeat split|].
    destruct (String.eqb event "updateTick"); [|repeat split].
    destruct (Effect.tickInterval (Effect.config a)); [repeat split|].
    destruct (_ <? _); repeat split. }
  destruct (deliver now event a) as [a' out].
  destruct (deliverAll now event l) as [l' outs]. simpl in *.
  now constructor.
Qed.

Lemma validateEffects_keeps now s s' :
  distinct (effects s) -> coexist (effects s) ->
  validateEffects now s = Ok (tt, s') ->
  distinct (effects s') /\ coexist (effects s').
Proof.
  intros Hd Hco Hv. destruct (validateEffects_ok now s) as (s1 & Hv1 & _ & Hf).
  rewrite Hv in Hv1. inversion Hv1; subst s1. rewrite (Hf Hd).
  split; [now apply distinct_filter | now apply coexist_filter].
Qed.

Lemma emit_keeps now event s s' :
  distinct (effects s) -> coexist (effects s) ->
  emit now event s = Ok (tt, s') ->
  distinct (effects s') /\ coexist (effects s').
Proof.
  intros Hd Hco He. destruct (validateEffects_ok now s) as (s1 & Hv & _ & Hf).
  destruct (validateEffects_keeps now s s1 Hd Hco Hv) as [Hd1 Hco1].
  rewrite (emit_run _ _ _ _ Hv) in He.
  destruct (String.eqb event "effectAdded" || String.eqb event "effectRemoved").
  - inversion He; subst. auto.
  - pose proof (deliverAll_sameRules now event (effects s1)) as Hs.
    destruct (deliverAll now event (effects s1)) as [l out].
    inversion He; subst. simpl in *.
    split; [eapply distinct_sameRules | eapply coexist_sameRules]; eauto.
Qed.

Lemma remove_keeps now e s s' :
  distinct (effects s) -> coexist (effects s) ->
  remove now e s = Ok (tt, s') ->
  distinct (effects s') /\ coexist (effects s').
Proof.
  intros Hd Hco Hr. unfold remove, removeWith, signal in Hr. unfoldM.
  destruct (has e (effects s)); [|discriminate]. simpl in Hr.
  eapply validateEffects_keeps; [| |exact Hr]; simpl; unfold setDelete.
  - now apply distinct_filter.
  - now apply coexist_filter.
Qed.

(** Every list built by the methods is a Set whose members coexist. *)
Lemma built_wellformed s :
  built s -> distinct (effects s) /\ coexist (effects s).
Proof.
  induction 1 as [owner | now e s r s' _ [Hd Hco] Hfresh Hadd
                  | now e s s' _ [Hd Hco] Hr | now s s' _ [Hd Hco] Hv
                  | now ev s s' _ [Hd Hco] He | s s' _ [Hd Hco] Hc].
  - split; [constructor | exact I].
  - eapply add_keeps; eauto.
  - eapply remove_keeps; eauto.
  - eapply validateEffects_keeps; eauto.
  - eapply emit_keeps; eauto.
  - inversion Hc; subst. split; [constructor | exact I].
Qed.

End Built.

(* ===================================================================== *)
(** ** Restoring the effects *)
(* ===================================================================== *)

Section Restore.
Context {Damage : Type} `{EffectMethods Damage}.
Import EffectList.

Lemma create_hydrate gs p fresh :
  fromFactory gs p ->
  exists e, Effect.create (EffectFactory gs) (Effect.pid (Effect.serialize p)) fresh
            = Some e /\
            Effect.hydrate e (Effect.serialize p)
            = Effect.mk (Effect.id p) fresh (Effect.config p) (Effect.state p)
                        (Effect.paused p) None.
Proof.
  intros (d & Hd & Hc). unfold Effect.create. simpl. rewrite Hd.
  eexists. split; [reflexivity|]. unfold Effect.hydrate. simpl.
  now rewrite Hc.
Qed.

(** The loop of [hydrate]: the effects that were saved come back one
    after the other, each appended as a new, attached object. *)
Lemma restore_run gs now (Hstate : currentByState now) :
  forall todo done s fresh,
    List.Forall2 Effect.equivalent (effects s) done ->
    (forall a, List.In a (effects s) -> (Effect.ref a < fresh)%nat) ->
    distinct (effects s) ->
    (forall a, List.In a (effects s) -> isCurrent now a = true) ->
    (forall a, List.In a (effects s) -> Effect.target a = Some (target s)) ->
    coexist (done ++ todo) ->
    List.Forall (fromFactory gs) todo ->
    List.Forall (fun p => isCurrent now p = true) todo ->
    exists s', restore gs now fresh (List.map Effect.serialize todo) s = Ok (tt, s') /\
               List.Forall2 Effect.equivalent (effects s') (done ++ todo) /\
               distinct (effects s') /\
               (forall a, List.In a (effects s') -> Effect.target a = Some (target s)) /\
               target s' = target s /\ pending s' = pending s.
Proof.
  induction todo as [|p todo IH];
    intros done s fresh Heq Hrefs Hd Hcur Htg Hco Hfac Hpc.
  - exists s. rewrite List.app_nil_r. simpl. repeat split; auto.
  - inversion Hfac as [|? ? Hp Hfac']; subst.
    inversion Hpc as [|? ? Hpcur Hpc']; subst.
    destruct (create_hydrate gs p fresh Hp) as (e0 & Hcreate & Hhyd).
    simpl. simpl in Hcreate. rewrite Hcreate, Hhyd.
    set (e := Effect.mk (Effect.id p) fresh (Effect.config p) (Effect.state p)
                        (Effect.paused p) None).
    assert (Effect.equivalent e p) as Hep by (repeat split).
    assert (forall a, List.In a (effects s) -> Effect.ref a <> Effect.ref e) as Hfresh.
    { intros a Ha. specialize (Hrefs a Ha). simpl. lia. }
    destruct (add_inserts now e s) as (s1 & Hadd & Heff & Htg1 & Hpd1); auto.
    + apply resolve_free. intros a Ha Ht.
      destruct (Forall2_partner _ _ _ a Heq Ha) as (b & Hb & Hab).
      rewrite (ruleApplies_equivalent a b Hab).
      apply (coexist_before done p todo Hco b Hb).
      destruct Hab as (_ & Hc & _ & _). simpl in Ht. congruence.
    + rewrite (Hstate _ p); [exact Hpcur|].
      eapply equivalent_trans; [apply equivalent_withTarget | exact Hep].
    + unfoldM. rewrite Hadd.
      destruct (IH (done ++ [p])%list s1 (S fresh)) as (s' & Hrun & Heq' & Hd' & Htg' & Ht' & Hp');
        auto.
      * rewrite Heff. apply List.Forall2_app; [exact Heq|].
        constructor; [|constructor].
        eapply equivalent_trans; [apply equivalent_withTarget | exact Hep].
      * rewrite Heff. intros a Ha.
        apply List.in_app_or in Ha as [Ha|[<-|[]]]; [|simpl; lia].
        specialize (Hrefs a Ha). lia.
      * rewrite Heff. apply distinct_app_fresh; auto.
      * rewrite Heff. intros a Ha.
        apply List.in_app_or in Ha as [Ha|[<-|[]]]; [now apply Hcur|].
        rewrite (Hstate _ p); [exact Hpcur|].
        eapply equivalent_trans; [apply equivalent_withTarget | exact Hep].
      * rewrite Heff, Htg1. intros a Ha.
        apply List.in_app_or in Ha as [Ha|[<-|[]]]; [now apply Htg | reflexivity].
      * now rewrite <- List.app_assoc.
      * exists s'. rewrite <- List.app_assoc in Heq'. simpl in Heq'.
        split; [exact Hrun|]. split; [exact Heq'|]. split; [exact Hd'|].
        split; [|split; congruence].
        intros a Ha. rewrite (Htg' a Ha). now rewrite Htg1.
Qed.

End Restore.

(* ===================================================================== *)
(** ** Restoring the attributes *)
(* ===================================================================== *)

Lemma create_Some registry attr b d a :
  Attribute.create registry attr b d = Some a ->
  Attribute.values a = Attribute.mkValues attr b d.
Proof.
  unfold Attribute.create. destruct (registry !! attr); [|discriminate].
  intros Ha. now inversion Ha.
Qed.

Section RestoreAttributes.
Context {Damage : Type} `{EffectMethods Damage}.
Import EffectableEntity.

Lemma created_name gs k c a :
  created gs k c = Some a -> Attribute.name (Attribute.values a) = k.
Proof.
  destruct c; simpl; try discriminate; intros Ha;
    apply create_Some in Ha; now rewrite Ha.
Qed.

Lemma createAttributes_cons gs k c rest ent a :
  created gs k c = Some a ->
  createAttributes gs ((k, c) :: rest) ent
  = createAttributes gs rest (withAttributes (<[k := a]> (attributes ent)) ent).
Proof.
  intros Ha. pose proof (created_name _ _ _ _ Ha) as Hn.
  destruct c; simpl in *; try discriminate;
    try change (JS.or JS.zero JS.zero) with JS.zero; rewrite Ha;
    unfold addAttribute; unfoldM; now rewrite Hn.
Qed.

(** The loop over [__attributes], when every entry can be created. *)
Lemma createAttributes_run gs :
  forall (l : list (string * AttrConfig)) ent,
    NoDup (l.*1) ->
    (forall k c, (k, c) ∈ l -> is_Some (created gs k c)) ->
    exists m, createAttributes gs l ent = Ok (tt, withAttributes m ent) /\
              (forall k c, (k, c) ∈ l -> m !! k = created gs k c) /\
              (forall k, k ∉ l.*1 -> m !! k = attributes ent !! k).
Proof.
  induction l as [|[k0 c0] l IH]; intros ent Hnd Hall.
  - exists (attributes ent). split; [now destruct ent|]. split; [|auto].
    intros k c Hin. inversion Hin.
  - simpl in Hnd. apply NoDup_cons in Hnd as [Hk0 Hnd].
    destruct (Hall k0 c0) as [a0 Ha0]; [left|].
    rewrite (createAttributes_cons _ _ _ _ _ _ Ha0).
    destruct (IH (withAttributes (<[k0 := a0]> (attributes ent)) ent) Hnd)
      as (m & Hrun & Hin & Hout).
    { intros k c Hkc. apply Hall. now right. }
    exists m. split; [exact Hrun|]. split.
    + intros k c Hkc. apply elem_of_cons in Hkc as [Heq|Hkc]; [|now apply Hin].
      inversion Heq; subst. rewrite (Hout k0 Hk0). simpl.
      now rewrite lookup_insert_eq.
    + intros k Hk. simpl in Hk. apply not_elem_of_cons in Hk as [Hne Hk].
      rewrite (Hout k Hk). simpl. now rewrite lookup_insert_ne.
Qed.

(** Hydration puts every attribute under its own, registered name. *)
Lemma createAttributes_registered gs :
  forall (l : list (string * AttrConfig)) ent ent',
    registered gs ent ->
    createAttributes gs l ent = Ok (tt, ent') ->
    registered gs ent'.
Proof.
  induction l as [|[k0 c0] l IH]; intros ent ent' Hreg Hrun.
  - inversion Hrun; now subst.
  - destruct (created gs k0 c0) as [a0|] eqn:Ha0.
    + rewrite (createAttributes_cons _ _ _ _ _ _ Ha0) in Hrun.
      refine (IH _ _ _ Hrun). clear Hrun IH.
      intros k a Hk. simpl in Hk. destruct (decide (k0 = k)) as [<-|Hne].
      * rewrite lookup_insert_eq in Hk. inversion Hk; subst a.
        split; [now apply (created_name gs k0 c0)|].
        destruct c0; simpl in Ha0; try discriminate;
          unfold Attribute.create in Ha0;
          destruct (AttributeFactory gs !! k0); eauto; discriminate.
      * rewrite lookup_insert_ne in Hk by exact Hne. now apply Hreg.
    + exfalso. destruct c0; simpl in *; try discriminate;
        try change (JS.or JS.zero JS.zero) with JS.zero in Hrun;
        rewrite Ha0 in Hrun; discriminate.
Qed.

(** What [serialize] wrote about the attributes creates attributes with
    the same name, base and delta. *)
Lemma createAttributes_serialized gs (m : gmap string Attribute.t) ent :
  attributes ent = ∅ ->
  (forall k a, m !! k = Some a ->
               Attribute.name (Attribute.values a) = k /\
               is_Some (AttributeFactory gs !! k)) ->
  (forall k a, m !! k = Some a -> plainDelta a) ->
  exists m', createAttributes gs (serializeAttributes m) ent
             = Ok (tt, withAttributes m' ent) /\
             forall k, Attribute.values <$> (m' !! k) = Attribute.values <$> (m !! k).
Proof.
  intros Hempty Hreg Hplain. unfold serializeAttributes.
  set (f := fun a => Spec (Attribute.base (Attribute.values a))
                          (Some (Attribute.delta (Attribute.values a)))).
  assert (forall k a, m !! k = Some a ->
            exists fk, created gs k (f a)
                       = Some (Attribute.mk (Attribute.values a) fk)) as Hcreated.
  { intros k a Ha. destruct (Hreg k a Ha) as [Hn [fk Hfk]].
    exists fk. unfold created, f, Attribute.create. rewrite Hfk.
    cbn [JS.orUndefined]. rewrite (Hplain k a Ha).
    do 2 f_equal. destruct a as [[n b d] fo]. simpl in *. now subst. }
  destruct (createAttributes_run gs (map_to_list (f <$> m)) ent)
    as (m' & Hrun & Hin & Hout).
  - apply NoDup_fst_map_to_list.
  - intros k c Hkc. apply elem_of_map_to_list in Hkc.
    apply lookup_fmap_Some in Hkc as (a & <- & Ha).
    destruct (Hcreated k a Ha) as [fk ->]. eauto.
  - exists m'. split; [exact Hrun|]. intros k.
    destruct (m !! k) as [a|] eqn:Ha.
    + assert ((k, f a) ∈ map_to_list (f <$> m)) as Hkc.
      { apply elem_of_map_to_list. rewrite lookup_fmap, Ha. reflexivity. }
      rewrite (Hin _ _ Hkc). destruct (Hcreated k a Ha) as [fk ->]. reflexivity.
    + rewrite Hout, Hempty; [reflexivity|].
      intros Hk. apply list_elem_of_fmap in Hk as ([k' c] & -> & Hkc).
      apply elem_of_map_to_list in Hkc. simpl in *.
      rewrite lookup_fmap, Ha in Hkc. discriminate.
Qed.

End RestoreAttributes.

(* ===================================================================== *)
(** ** Serialize, then hydrate (C3) *)
(* ===================================================================== *)

Section RoundTrip.
Context {Damage : Type} `{EffectMethods Damage}.
Import EffectableEntity.

Lemma serialize_run now ent :
  distinct (EffectList.effects (effects ent)) ->
  exists l1,
    serialize now ent
    = Ok (mkData (serializeAttributes (attributes ent))
                 (List.map Effect.serialize (kept now (EffectList.effects (effects ent)))),
          withEffects l1 ent).
Proof.
  intros Hd. destruct (validateEffects_ok now (effects ent)) as (l1 & Hv & _ & Hf).
  exists l1. unfold serialize, onEffects, EffectList.serialize. unfoldM.
  rewrite Hv, (Hf Hd). reflexivity.
Qed.

Lemma list_hydrate_run gs now self entries :
  EffectList.hydrate gs now (EffectList.new self entries)
  = EffectList.restore gs now 0%nat entries (EffectList.mk [] self [] []).
Proof. reflexivity. Qed.

Lemma kept_persists now l e :
  List.In e (kept now l) ->
  Effect.persists (Effect.config e) = true /\ isCurrent now e = true /\ List.In e l.
Proof.
  unfold kept. intros He. apply List.filter_In in He as [He Hp].
  apply List.filter_In in He as [He Hc]. auto.
Qed.

(** C3, as the code has it.  An entity is serialized at one moment, and
    a fresh entity made of what was written is hydrated at a moment when
    the effects that were written are still current.  The hydration
    returns; the new entity has, name by name, the attributes of the old
    one with the same base and delta; its effects are, one for one and in
    order, equivalent to the current effects of the old entity that
    persist (same definition, configuration, state and pause flag); what
    was written about effects is the serialization of exactly those; and
    no effect of the new entity lacks [persists].

    The old entity is one whose list is a Set of coexisting members (as
    [add] leaves it), whose persistent effects are instances of their
    registered definitions, whose attributes are registered under their
    names, and whose deltas are not [NaN]; whether an effect is current
    does not depend on which object it is or on its owner. *)
Theorem serialize_hydrate_roundtrip (gs : GameState) (ent : EffectableEntity.t)
        (now now' : Z) (self : nat) (data : Data) (ent1 : EffectableEntity.t) :
  distinct (EffectList.effects (effects ent)) ->
  coexist (EffectList.effects (effects ent)) ->
  (forall e, List.In e (EffectList.effects (effects ent)) ->
             Effect.persists (Effect.config e) = true -> fromFactory gs e) ->
  registered gs ent ->
  (forall k a, attributes ent !! k = Some a -> plainDelta a) ->
  currentByState now' ->
  (forall e, List.In e (kept now (EffectList.effects (effects ent))) ->
             isCurrent now' e = true) ->
  serialize now ent = Ok (data, ent1) ->
  exists ent',
    hydrate gs now' (new self data) = Ok (tt, ent') /\
    __hydrated ent' = true /\
    (forall k, Attribute.values <$> (attributes ent' !! k)
               = Attribute.values <$> (attributes ent !! k)) /\
    dataEffects data
    = List.map Effect.serialize (kept now (EffectList.effects (effects ent))) /\
    List.Forall2 Effect.equivalent
                 (EffectList.effects (effects ent'))
                 (kept now (EffectList.effects (effects ent))) /\
    (forall e, List.In e (EffectList.effects (effects ent')) ->
               Effect.persists (Effect.config e) = true /\
               Effect.target e = Some self).
Proof.
  intros Hd Hco Hfac Hreg Hplain Hstate Hstill Hser.
  destruct (serialize_run now ent Hd) as (l1 & Hser').
  rewrite Hser' in Hser. inversion Hser; subst data ent1. clear Hser Hser'.
  set (ps := kept now (EffectList.effects (effects ent))).
  set (fresh := new self (mkData (serializeAttributes (attributes ent))
                                 (List.map Effect.serialize ps))).
  destruct (createAttributes_serialized gs (attributes ent) fresh eq_refl Hreg Hplain)
    as (m' & Hattrs & Hvals).
  destruct (restore_run gs now' Hstate ps [] (EffectList.mk [] self [] []) 0%nat)
    as (s' & Hrun & Heq & Hd' & Htg & _ & _).
  { constructor. }
  { intros a []. }
  { constructor. }
  { intros a []. }
  { intros a []. }
  { simpl. subst ps. unfold kept. now do 2 apply coexist_filter. }
  { apply List.Forall_forall. intros e He.
    apply kept_persists in He as (Hp & _ & Hin). now apply Hfac. }
  { apply List.Forall_forall. intros e He. now apply Hstill. }
  exists (mk m' (__attributes fresh) s' true []).
  split; [|split; [reflexivity|split; [exact Hvals|split; [reflexivity|split]]]].
  - unfold hydrate. unfoldM. simpl.
    change (createAttributes gs (serializeAttributes (attributes ent)) fresh)
      with (createAttributes gs (serializeAttributes (attributes ent)) fresh).
    rewrite Hattrs. unfold onEffects. simpl.
    rewrite list_hydrate_run, Hrun. reflexivity.
  - exact Heq.
  - intros e He. simpl in *. split; [|now apply Htg].
    destruct (Forall2_partner _ _ _ e Heq He) as (p & Hp & (_ & Hc & _)).
    rewrite Hc. now apply kept_persists in Hp.
Qed.

End RoundTrip.

Lemma sleeper_registered : registered ExampleWorld.world ExampleRoundTrip.sleeper.
Proof.
  intros k a Ha. simpl in Ha. apply lookup_singleton_Some in Ha as [<- <-].
  split; [reflexivity|]. simpl. rewrite lookup_singleton_eq. eauto.
Qed.

Lemma serialize_hydrate_roundtrip_witness :
  exists data ent1 ent',
    EffectableEntity.serialize (H := Example.lasting) 0 ExampleRoundTrip.sleeper
    = Ok (data, ent1) /\
    EffectableEntity.hydrate (H := Example.lasting) ExampleWorld.world 60000
      (EffectableEntity.new 9 data) = Ok (tt, ent') /\
    Attribute.values <$> (EffectableEntity.attributes ent' !! "health")
    = Some (Attribute.mkValues "health" (JS.ofZ 100) (JS.ofZ (-20))) /\
    List.Forall2 Effect.equivalent
      (EffectList.effects (EffectableEntity.effects ent'))
      [ExamplePaused.sleeping].
Proof.
  assert (distinct (EffectList.effects (EffectableEntity.effects ExampleRoundTrip.sleeper)))
    as Hd by (repeat constructor; simpl; intuition discriminate).
  assert (coexist (EffectList.effects (EffectableEntity.effects ExampleRoundTrip.sleeper)))
    as Hco by (simpl; repeat split; repeat constructor; discriminate).
  assert (forall e,
             List.In e (EffectList.effects
                          (EffectableEntity.effects ExampleRoundTrip.sleeper)) ->
             Effect.persists (Effect.config e) = true ->
             fromFactory ExampleWorld.world e) as Hfac.
  { intros e [<-|[<-|[]]] Hp; [|discriminate].
    eexists. split; [apply lookup_singleton_eq | reflexivity]. }
  assert (forall k a, EffectableEntity.attributes ExampleRoundTrip.sleeper !! k = Some a ->
                      plainDelta a) as Hplain.
  { intros k a Ha. simpl in Ha. apply lookup_singleton_Some in Ha as [_ <-].
    reflexivity. }
  assert (currentByState (H := Example.lasting) 60000) as Hst
    by (intros a b _; reflexivity).
  assert (forall e,
             List.In e (kept (H := Example.lasting) 0
                          (EffectList.effects
                             (EffectableEntity.effects ExampleRoundTrip.sleeper))) ->
             isCurrent (EffectMethods := Example.lasting) 60000 e = true) as Hstill
    by (intros e _; reflexivity).
  destruct (serialize_run (H := Example.lasting) 0 ExampleRoundTrip.sleeper Hd)
    as (l1 & Hser).
  destruct (serialize_hydrate_roundtrip (H := Example.lasting) ExampleWorld.world
              ExampleRoundTrip.sleeper 0 60000 9 _ _ Hd Hco Hfac sleeper_registered Hplain
              Hst Hstill Hser)
    as (ent' & Hhyd & _ & Hvals & _ & Heq & _).
  do 3 eexists. split; [exact Hser|]. split; [exact Hhyd|].
  split; [rewrite Hvals; reflexivity | exact Heq].
Defined.

(** C3 as stated fails where one of these conditions does.  A poison that
    lasts until the clock reads ten seconds is written at t = 0 and is
    gone from an entity hydrated at t = 20 s.  An effect whose definition
    the registry does not have makes the hydration throw, and so does an
    attribute whose name the registry does not have.  A delta that is
    [NaN] comes back as 0. *)
Lemma roundtrip_loses :
  (exists data ent1 ent',
      EffectableEntity.serialize (H := Example.brief) 0 ExampleRoundTrip.victim
      = Ok (data, ent1) /\
      EffectableEntity.dataEffects data
      = [Effect.serialize (Effect.withTarget (Example.poison 0 (Some 1)) 7)] /\
      EffectableEntity.hydrate (H := Example.brief) ExampleWorld.world 20000
        (EffectableEntity.new 9 data) = Ok (tt, ent') /\
      EffectList.effects (EffectableEntity.effects ent') = []) /\
  (exists data ent1,
      EffectableEntity.serialize (H := Example.lasting) 0 ExampleRoundTrip.victim
      = Ok (data, ent1) /\
      EffectableEntity.hydrate (H := Example.lasting) ExampleRoundTrip.bare 0
        (EffectableEntity.new 9 data) = Throw (NoEffectDefinition "poison")) /\
  (exists data ent1,
      EffectableEntity.serialize (H := Example.lasting) 0 ExampleEntity.hero
      = Ok (data, ent1) /\
      EffectableEntity.hydrate (H := Example.lasting) ExampleRoundTrip.bare 0
        (EffectableEntity.new 9 data) = Throw (InvalidAttribute "health")) /\
  (exists data ent1 ent',
      EffectableEntity.serialize (H := Example.lasting) 0 ExampleRoundTrip.dazed
      = Ok (data, ent1) /\
      EffectableEntity.hydrate (H := Example.lasting) ExampleWorld.world 0
        (EffectableEntity.new 9 data) = Ok (tt, ent') /\
      Attribute.values <$> (EffectableEntity.attributes ExampleRoundTrip.dazed !! "health")
      = Some (Attribute.mkValues "health" (JS.ofZ 100) JS.NaN) /\
      Attribute.values <$> (EffectableEntity.attributes ent' !! "health")
      = Some (Attribute.mkValues "health" (JS.ofZ 100) JS.zero)).
Proof.
  split; [|split; [|split]].
  - do 3 eexists. split; [vm_compute; reflexivity|]. split; [reflexivity|].
    split; [vm_compute; reflexivity | reflexivity].
  - do 2 eexists. split; [vm_compute; reflexivity | vm_compute; reflexivity].
  - do 2 eexists. split; [vm_compute; reflexivity | vm_compute; reflexivity].
  - do 3 eexists. split; [vm_compute; reflexivity|].
    split; [vm_compute; reflexivity|]. split; vm_compute; reflexivity.
Qed.

(* ===================================================================== *)
(** * Further properties of EffectList *)
(* ===================================================================== *)

Section SweepMore.
Context {Damage : Type} `{EffectMethods Damage}.
Import EffectList.

Lemma sweep_loop_clean d now s :
  (forall e, List.In e (effects s) -> isCurrent now e = true) ->
  forall xs, forEach xs (sweepBody d now) s = Ok (tt, s).
Proof.
  intros Hclean. induction xs as [|x xs IH]; [reflexivity|].
  rewrite forEach_cons.
  destruct (member x (effects s)) as [live|] eqn:Hm.
  - rewrite (sweepBody_current _ _ _ _ _ Hm); [exact IH|].
    apply Hclean. now apply member_Some in Hm.
  - now rewrite (sweepBody_absent _ _ _ _ Hm).
Qed.

Lemma validateEffects_clean now s :
  (forall e, List.In e (effects s) -> isCurrent now e = true) ->
  validateEffects now s = Ok (tt, s).
Proof.
  intros Hclean. unfold validateEffects. unfoldM. rewrite sweep_S.
  now apply sweep_loop_clean.
Qed.

Lemma has_setDelete e f l : has e (List.filter f (setDelete e l)) = false.
Proof.
  apply has_fresh. intros a Ha Hr.
  apply List.filter_In in Ha as [Ha _]. unfold setDelete in Ha.
  apply List.filter_In in Ha as [_ Hs].
  apply negb_true_iff in Hs. symmetry in Hr. apply sameRef_true in Hr. congruence.
Qed.

Lemma remove_run now e s :
  List.In e (effects s) ->
  remove now e s = validateEffects now (removed e s).
Proof. intros Hin. unfold remove. now apply removeWith_member. Qed.

(** X1.  On a Set, [validateEffects] returns; the members afterwards are
    the members that were current, in their order; owner and pending
    entries are untouched; and what the sweep emits is deactivation and
    removal notices only, nothing for the handlers of an effect. *)
Theorem validateEffects_purges (s : EffectList.t) (now : Z) :
  distinct (effects s) ->
  exists s',
    validateEffects now s = Ok (tt, s') /\
    effects s' = List.filter (isCurrent now) (effects s) /\
    (forall e, List.In e (effects s') -> isCurrent now e = true) /\
    target s' = target s /\ pending s' = pending s /\
    (exists out, signals s' = (signals s ++ out)%list /\ housekeeping out).
Proof.
  intros Hd. destruct (validateEffects_ok now s) as (s' & Hv & Hsw & Hf).
  exists s'. destruct Hsw as [Ht Hp _ Hs]. rewrite (Hf Hd).
  repeat split; auto. intros e He. now apply List.filter_In in He.
Qed.

(** X2.  A second [validateEffects] at the same clock reading changes
    nothing, not even the record of what was emitted. *)
Theorem validateEffects_twice (s s1 : EffectList.t) (now : Z) :
  distinct (effects s) ->
  validateEffects now s = Ok (tt, s1) ->
  validateEffects now s1 = Ok (tt, s1).
Proof.
  intros Hd Hv. destruct (validateEffects_ok now s) as (s' & Hv' & _ & Hf).
  rewrite Hv in Hv'. inversion Hv'; subst s'.
  apply validateEffects_clean. intros e He. rewrite (Hf Hd) in He.
  now apply List.filter_In in He.
Qed.

(** X3.  [remove] of a member returns: the effect is deactivated, then
    the owner is told [effectRemoved]; the members afterwards are the
    other members that are current (the relay of the notice sweeps the
    list).  A second [remove] of the same effect throws the reference
    error. *)
Theorem remove_then_remove (s : EffectList.t) (now : Z) (e : Effect.t) :
  distinct (effects s) ->
  List.In e (effects s) ->
  exists s',
    remove now e s = Ok (tt, s') /\
    effects s' = List.filter (isCurrent now) (setDelete e (effects s)) /\
    (exists out,
        signals s' = (signals s ++ Deactivated (Effect.ref e)
                                :: ToTarget "effectRemoved" (Some (Effect.ref e))
                                :: out)%list /\ housekeeping out) /\
    remove now e s' = Throw NeverAdded.
Proof.
  intros Hd Hin. rewrite (remove_run _ _ _ Hin).
  destruct (validateEffects_ok now (removed e s)) as (s' & Hv & Hsw & Hf).
  exists s'. split; [exact Hv|].
  assert (effects s' = List.filter (isCurrent now) (setDelete e (effects s))) as He.
  { apply Hf. simpl. unfold setDelete. now apply distinct_filter. }
  split; [exact He|]. split.
  - destruct Hsw as [_ _ _ (out & Hs & Hh)]. exists out. split; [|exact Hh].
    rewrite Hs. simpl. now rewrite <- !List.app_assoc.
  - unfold remove, removeWith. unfoldM. rewrite He, has_setDelete. reflexivity.
Qed.

End SweepMore.

Lemma validateEffects_purges_witness :
  exists s',
    EffectList.validateEffects (H := Example.brief) 20000 Example.afflicted = Ok (tt, s') /\
    EffectList.effects s' = [].
Proof.
  destruct (validateEffects_purges (H := Example.brief) Example.afflicted 20000)
    as (s' & Hv & He & _).
  - repeat constructor; simpl; intuition discriminate.
  - exists s'. split; [exact Hv | exact He].
Defined.

Lemma validateEffects_twice_witness :
  exists s1,
    EffectList.validateEffects (H := Example.brief) 20000 Example.afflicted = Ok (tt, s1) /\
    EffectList.validateEffects (H := Example.brief) 20000 s1 = Ok (tt, s1).
Proof.
  eexists. split; [vm_compute; reflexivity|].
  apply (validateEffects_twice (H := Example.brief) Example.afflicted).
  - repeat constructor; simpl; intuition discriminate.
  - vm_compute. reflexivity.
Defined.

Lemma remove_then_remove_witness :
  exists s',
    EffectList.remove (H := Example.lasting) 0 (Example.aura 1) Example.afflicted
    = Ok (tt, s') /\
    EffectList.effects s' = [Effect.withTarget (Example.poison 0 (Some 1)) 7] /\
    EffectList.remove (H := Example.lasting) 0 (Example.aura 1) s' = Throw NeverAdded.
Proof.
  destruct (remove_then_remove (H := Example.lasting) Example.afflicted 0 (Example.aura 1))
    as (s' & Hr & He & _ & Hr2).
  - repeat constructor; simpl; intuition discriminate.
  - right. now left.
  - exists s'. split; [exact Hr|]. split; [exact He | exact Hr2].
Defined.

Section AddMore.
Context {Damage : Type} `{EffectMethods Damage}.
Import EffectList.

Lemma add_resolved now e s result l out :
  Effect.target e = None ->
  resolve e (effects s) = Some (result, l, out) ->
  add now e s = Ok (result, mk l (target s) (signals s ++ out)%list (pending s)).
Proof.
  intros Ht Hr. unfold add. rewrite Ht.
  rewrite bool_decide_eq_false_2 by (intros [x Hx]; discriminate).
  rewrite withState_clone. unfoldM. now rewrite Hr.
Qed.

(** The loop of [add] stops at the first member of the type to which a
    rule applies. *)
Lemma resolve_at effect pre a post :
  (forall x, List.In x pre ->
             Effect.type (Effect.config x) = Effect.type (Effect.config effect) ->
             ruleApplies x = false) ->
  Effect.type (Effect.config a) = Effect.type (Effect.config effect) ->
  ruleApplies a = true ->
  resolve effect (pre ++ a :: post) =
  Some (if stacksUp a
        then (true, (pre ++ stackAdded a :: post)%list,
              [ToEffect (Effect.ref a) "effectStackAdded"])
        else if Effect.refreshes (Effect.config a)
             then (true, (pre ++ a :: post)%list,
                   [ToEffect (Effect.ref a) "effectRefreshed"])
             else (false, (pre ++ a :: post)%list, [])).
Proof.
  intros Hpre Ht Hrule. induction pre as [|x pre IH]; simpl.
  - rewrite Ht, String.eqb_refl. unfold ruleApplies in Hrule.
    destruct (stacksUp a); [reflexivity|].
    destruct (Effect.refreshes _); [reflexivity|].
    destruct (Effect.unique _); [reflexivity|discriminate].
  - rewrite IH by (intros y Hy; apply Hpre; now right).
    destruct (String.eqb_spec (Effect.type (Effect.config effect))
                              (Effect.type (Effect.config x))) as [Heq|Hne].
    + pose proof (Hpre x (or_introl eq_refl) (eq_sym Heq)) as Hx.
      unfold ruleApplies in Hx.
      apply orb_false_iff in Hx as [Hx Hu]. apply orb_false_iff in Hx as [Hs Hr].
      rewrite Hs, Hr, Hu.
      destruct (stacksUp a); [reflexivity|].
      destruct (Effect.refreshes _); reflexivity.
    + destruct (stacksUp a); [reflexivity|].
      destruct (Effect.refreshes _); reflexivity.
Qed.

(** X4.  Stacking.  When the first member of the new effect's type to
    which a rule applies has a positive [maxStacks], [add] returns
    [true], tells that member [effectStackAdded] and discards the new
    effect: the list has the same members in the same places, and the
    member's count is then [min(maxStacks, stacks || 1)], which is never
    above the cap. *)
Theorem add_stacks (s : EffectList.t) (now : Z) (e a : Effect.t)
        (pre post : list Effect.t) :
  Effect.target e = None ->
  effects s = (pre ++ a :: post)%list ->
  (forall x, List.In x pre ->
             Effect.type (Effect.config x) = Effect.type (Effect.config e) ->
             ruleApplies x = false) ->
  Effect.type (Effect.config a) = Effect.type (Effect.config e) ->
  0 < Effect.maxStacks (Effect.config a) ->
  exists s' count,
    add now e s = Ok (true, s') /\
    effects s' = (pre ++ stackAdded a :: post)%list /\
    Effect.stacks (Effect.state (stackAdded a)) = Some count /\
    count <= Effect.maxStacks (Effect.config a) /\
    count = Z.min (Effect.maxStacks (Effect.config a))
                  (JS.orZ (Effect.stacks (Effect.state a)) 1) /\
    signals s' = (signals s ++ [ToEffect (Effect.ref a) "effectStackAdded"])%list /\
    List.map Effect.ref (effects s') = List.map Effect.ref (effects s).
Proof.
  intros Ht Hl Hpre Hta Hpos.
  pose proof (stacksUp_positive a Hpos) as Hs.
  assert (ruleApplies a = true) as Hrule by (unfold ruleApplies; now rewrite Hs).
  pose proof (resolve_at e pre a post Hpre Hta Hrule) as Hr. rewrite Hs in Hr.
  rewrite <- Hl in Hr at 1.
  rewrite (add_resolved _ _ _ _ _ _ Ht Hr).
  do 2 eexists. split; [reflexivity|]. simpl.
  split; [reflexivity|]. split; [reflexivity|]. split; [lia|].
  split; [reflexivity|]. split; [reflexivity|].
  rewrite Hl, !List.map_app. reflexivity.
Qed.

(** X5.  Refreshing.  When the first member of the type to which a rule
    applies does not stack and has [refreshes], [add] returns [true],
    tells that member [effectRefreshed] and discards the new effect; no
    member changes. *)
Theorem add_refreshes (s : EffectList.t) (now : Z) (e a : Effect.t)
        (pre post : list Effect.t) :
  Effect.target e = None ->
  effects s = (pre ++ a :: post)%list ->
  (forall x, List.In x pre ->
             Effect.type (Effect.config x) = Effect.type (Effect.config e) ->
             ruleApplies x = false) ->
  Effect.type (Effect.config a) = Effect.type (Effect.config e) ->
  stacksUp a = false ->
  Effect.refreshes (Effect.config a) = true ->
  exists s',
    add now e s = Ok (true, s') /\
    effects s' = effects s /\
    signals s' = (signals s ++ [ToEffect (Effect.ref a) "effectRefreshed"])%list.
Proof.
  intros Ht Hl Hpre Hta Hs Hrf.
  assert (ruleApplies a = true) as Hrule
    by (unfold ruleApplies; rewrite Hs, Hrf; reflexivity).
  pose proof (resolve_at e pre a post Hpre Hta Hrule) as Hr. rewrite Hs, Hrf in Hr.
  rewrite <- Hl in Hr.
  rewrite (add_resolved _ _ _ _ _ _ Ht Hr).
  eexists. split; [reflexivity|]. simpl. auto.
Qed.

(** [add] when the loop over the members runs to its end. *)
Lemma add_free_run (s : EffectList.t) (now : Z) (e : Effect.t) :
  Effect.target e = None ->
  distinct (effects s) ->
  (forall a, List.In a (effects s) -> Effect.ref a <> Effect.ref e) ->
  (forall a, List.In a (effects s) ->
             Effect.type (Effect.config a) = Effect.type (Effect.config e) ->
             ruleApplies a = false) ->
  exists s' out,
    add now e s = Ok (true, s') /\
    effects s' = List.filter (isCurrent now)
                             (effects s ++ [Effect.withTarget e (target s)]) /\
    signals s' = (signals s ++ ToEffect (Effect.ref e) "effectAdded"
                            :: ToTarget "effectAdded" (Some (Effect.ref e))
                            :: out)%list /\
    housekeeping out /\
    target s' = target s.
Proof.
  intros Ht Hd Hfresh Hfree. unfold add. rewrite Ht.
  rewrite bool_decide_eq_false_2 by (intros [x Hx]; discriminate).
  rewrite withState_clone. unfoldM. rewrite (resolve_free e _ Hfree).
  unfold signal, targetEmit, signal. unfoldM. simpl.
  unfold setAdd.
  rewrite (has_fresh (Effect.withTarget e (target s)) (effects s) Hfresh).
  set (s1 := mk _ _ _ _).
  destruct (validateEffects_ok now s1) as (s2 & Hv & Hsw & Hf).
  rewrite (emit_run _ _ _ _ Hv). simpl.
  destruct Hsw as [Htg _ _ (out & Hs & Hh)]. subst s1. simpl in *.
  exists s2, out. split; [reflexivity|].
  split; [apply Hf; now apply distinct_app_fresh|].
  split; [rewrite Hs; now rewrite <- !List.app_assoc|]. auto.
Qed.

(** X6.  Insertion.  When no rule applies to a member of its type, a
    detached effect that is no member yet is appended with the list's
    owner as its target; the effect is told [effectAdded], then the
    owner; and the relay of that notice sweeps the list, so that the
    members afterwards are the current ones among the old members and the
    new effect.  [add] answers [true] even when the new effect is not
    current and is gone again. *)
Theorem add_inserts_and_sweeps (s : EffectList.t) (now : Z) (e : Effect.t) :
  Effect.target e = None ->
  distinct (effects s) ->
  (forall a, List.In a (effects s) -> Effect.ref a <> Effect.ref e) ->
  (forall a, List.In a (effects s) ->
             Effect.type (Effect.config a) = Effect.type (Effect.config e) ->
             ruleApplies a = false) ->
  exists s' out,
    add now e s = Ok (true, s') /\
    effects s' = List.filter (isCurrent now)
                             (effects s ++ [Effect.withTarget e (target s)]) /\
    signals s' = (signals s ++ ToEffect (Effect.ref e) "effectAdded"
                            :: ToTarget "effectAdded" (Some (Effect.ref e))
                            :: out)%list /\
    housekeeping out /\
    target s' = target s.
Proof. exact (add_free_run s now e). Qed.

End AddMore.

Lemma add_stacks_witness :
  exists s',
    EffectList.add (H := Example.lasting) 0 (Example.poison 1 (Some 1)) Example.poisoned
    = Ok (true, s') /\
    List.map (fun x => Effect.stacks (Effect.state x)) (EffectList.effects s') = [Some 1].
Proof.
  destruct (add_stacks (H := Example.lasting) Example.poisoned 0
              (Example.poison 1 (Some 1))
              (Effect.withTarget (Example.poison 0 (Some 1)) 7) [] [])
    as (s' & count & Hadd & He & _).
  - reflexivity.
  - reflexivity.
  - intros x [].
  - reflexivity.
  - reflexivity.
  - exists s'. split; [exact Hadd|]. rewrite He. reflexivity.
Defined.

Lemma add_refreshes_witness :
  exists s',
    EffectList.add (H := Example.lasting) 0 (Example.shield 1 None) Example.shieldList
    = Ok (true, s') /\
    EffectList.effects s' = EffectList.effects Example.shieldList.
Proof.
  destruct (add_refreshes (H := Example.lasting) Example.shieldList 0
              (Example.shield 1 None) (Example.shield 0 (Some 7%nat)) [] [])
    as (s' & Hadd & He & _); try reflexivity.
  - intros x [].
  - exists s'. split; [exact Hadd | exact He].
Defined.

Lemma add_inserts_and_sweeps_witness :
  exists s',
    EffectList.add (H := Example.brief) 20000 (Example.ward 2 None) Example.afflicted
    = Ok (true, s') /\
    EffectList.effects s' = [].
Proof.
  destruct (add_inserts_and_sweeps (H := Example.brief) Example.afflicted 20000
              (Example.ward 2 None))
    as (s' & out & Hadd & He & _).
  - reflexivity.
  - repeat constructor; simpl; intuition discriminate.
  - intros a [<-|[<-|[]]]; simpl; discriminate.
  - intros a [<-|[<-|[]]]; simpl; discriminate.
  - exists s'. split; [exact Hadd | exact He].
Defined.

(* ===================================================================== *)
(** ** Ownership *)
(* ===================================================================== *)

Section Ownership.
Context {Damage : Type} `{EffectMethods Damage}.
Import EffectList.

Lemma resolve_targets effect l result l' out :
  resolve effect l = Some (result, l', out) ->
  List.map Effect.target l' = List.map Effect.target l.
Proof.
  revert result l' out. induction l as [|a l IH]; intros r m o Hr; [discriminate|].
  simpl in Hr.
  destruct (resolve effect l) as [[[r0 m0] o0]|] eqn:Hrest.
  - specialize (IH _ _ _ eq_refl).
    destruct (String.eqb _ _);
      [destruct (stacksUp a);
       [|destruct (Effect.refreshes _); [|destruct (Effect.unique _)]]|];
      inversion Hr; subst; simpl; congruence.
  - destruct (String.eqb _ _); [|discriminate].
    destruct (stacksUp a);
      [|destruct (Effect.refreshes _); [|destruct (Effect.unique _)]];
      inversion Hr; subst; reflexivity.
Qed.

Lemma deliverAll_targets now event l :
  List.map Effect.target (fst (deliverAll now event l)) = List.map Effect.target l.
Proof.
  induction l as [|a l IH]; simpl; [reflexivity|].
  assert (Effect.target (fst (deliver now event a)) = Effect.target a) as Ha.
  { unfold deliver. destruct (Effect.paused a); [reflexivity|].
    destruct (String.eqb event "updateTick"); [|reflexivity].
    destruct (Effect.tickInterval (Effect.config a)); [reflexivity|].
    destruct (_ <? _); reflexivity. }
  destruct (deliver now event a) as [a' out].
  destruct (deliverAll now event l) as [l' outs]. simpl in *. congruence.
Qed.

Lemma attached_map owner l l' :
  List.map Effect.target l' = List.map Effect.target l ->
  (forall a, List.In a l -> Effect.target a = Some owner) ->
  forall a, List.In a l' -> Effect.target a = Some owner.
Proof.
  intros Hm Hl a Ha.
  apply (List.in_map Effect.target) in Ha. rewrite Hm in Ha.
  apply List.in_map_iff in Ha as (b & Hb & Hin). rewrite <- Hb. now apply Hl.
Qed.

Lemma built_attached s :
  built s ->
  forall a, List.In a (effects s) -> Effect.target a = Some (target s).
Proof.
  induction 1 as [owner | now e s r s' Hb IH Hfresh Hadd
                  | now e s s' Hb IH Hr | now s s' Hb IH Hv
                  | now ev s s' Hb IH He | s s' _ IH Hc].
  - intros a [].
  - unfold add in Hadd. destruct (bool_decide _); [discriminate|].
    rewrite withState_clone in Hadd. unfoldM.
    destruct (resolve e (effects s)) as [[[r0 l] out]|] eqn:Hres.
    + inversion Hadd; subst. simpl.
      apply (attached_map _ (effects s)); [|exact IH].
      eapply resolve_targets; eauto.
    + unfold signal, targetEmit, signal in Hadd. unfoldM. simpl in Hadd.
      unfold setAdd in Hadd.
      rewrite (has_fresh (Effect.withTarget e (target s)) (effects s) Hfresh) in Hadd.
      set (s1 := mk _ _ _ _) in Hadd.
      destruct (validateEffects_ok now s1) as (s2 & Hv & Hsw & Hf).
      rewrite (emit_run _ _ _ _ Hv) in Hadd. simpl in Hadd.
      inversion Hadd; subst s'. subst s1. simpl in *.
      destruct (built_wellformed s) as [Hd _]; [assumption|].
      rewrite Hf by (now apply distinct_app_fresh).
      destruct Hsw as [-> _ _ _]. simpl.
      intros a Ha. apply List.filter_In in Ha as [Ha _].
      apply List.in_app_or in Ha as [Ha|[<-|[]]]; [now apply IH | reflexivity].
  - destruct (built_wellformed s Hb) as [Hd _].
    unfold remove, removeWith, signal in Hr. unfoldM.
    destruct (has e (effects s)); [|discriminate]. simpl in Hr.
    set (s1 := mk _ _ _ _) in Hr.
    destruct (validateEffects_ok now s1) as (s2 & Hv & Hsw & Hf).
    rewrite Hr in Hv. inversion Hv; subst s2. subst s1. simpl in *.
    rewrite Hf by (unfold setDelete; now apply distinct_filter).
    destruct Hsw as [-> _ _ _]. simpl.
    intros a Ha. apply List.filter_In in Ha as [Ha _].
    apply List.filter_In in Ha as [Ha _]. now apply IH.
  - destruct (built_wellformed s Hb) as [Hd _].
    destruct (validateEffects_ok now s) as (s2 & Hv2 & Hsw & Hf).
    rewrite Hv in Hv2. inversion Hv2; subst s2.
    rewrite (Hf Hd). destruct Hsw as [-> _ _ _].
    intros a Ha. apply List.filter_In in Ha as [Ha _]. now apply IH.
  - destruct (built_wellformed s Hb) as [Hd _].
    destruct (validateEffects_ok now s) as (s1 & Hv & Hsw & Hf).
    rewrite (emit_run _ _ _ _ Hv) in He.
    assert (forall a, List.In a (effects s1) -> Effect.target a = Some (target s1)) as H1.
    { rewrite (Hf Hd). destruct Hsw as [-> _ _ _].
      intros a Ha. apply List.filter_In in Ha as [Ha _]. now apply IH. }
    destruct (String.eqb ev "effectAdded" || String.eqb ev "effectRemoved").
    + inversion He; subst. exact H1.
    + pose proof (deliverAll_targets now ev (effects s1)) as Hm.
      destruct (deliverAll now ev (effects s1)) as [l out].
      inversion He; subst. simpl in *.
      now apply (attached_map _ (effects s1)).
  - inversion Hc; subst. intros a [].
Qed.

(** X7.  In every list that the methods built from the empty list, no
    object is a member twice, every member has the owner of the list as
    its target, and a member of a type stands before another of that
    type only when no rule of [add] applies to it. *)
Theorem built_invariant (s : EffectList.t) :
  built s ->
  distinct (effects s) /\
  (forall a, List.In a (effects s) -> Effect.target a = Some (target s)) /\
  coexist (effects s).
Proof.
  intros Hb. destruct (built_wellformed s Hb) as [Hd Hco].
  split; [exact Hd|]. split; [now apply built_attached | exact Hco].
Qed.

(** X8.  An effect that is, or once was made, a member of a built list
    stays attached: [add] throws for it on every list, the list it is in
    and any other, also after [clear] or [remove] took it out. *)
Theorem member_cannot_be_added (s s2 : EffectList.t) (a : Effect.t) (now : Z) :
  built s ->
  List.In a (effects s) ->
  add now a s2 = Throw AlreadyHasTarget.
Proof.
  intros Hb Ha. unfold add. rewrite (built_attached s Hb a Ha).
  rewrite bool_decide_eq_true_2 by eauto. reflexivity.
Qed.

End Ownership.

Lemma built_poisoned :
  built (H := Example.lasting)
        (EffectList.mk [Effect.withTarget (Example.poison 0 (Some 1)) 7] 7
           [ToEffect 0 "effectAdded"; ToTarget "effectAdded" (Some 0%nat)] []).
Proof.
  apply (built_add (H := Example.lasting) 0 (Example.poison 0 (Some 1))
           (EffectList.empty 7) true).
  - apply built_empty.
  - intros a [].
  - vm_compute. reflexivity.
Qed.

Lemma built_invariant_witness :
  distinct [Effect.withTarget (Example.poison 0 (Some 1)) 7] /\
  Effect.target (Effect.withTarget (Example.poison 0 (Some 1)) 7) = Some 7%nat.
Proof.
  destruct (built_invariant (H := Example.lasting) _ built_poisoned) as (Hd & Ht & _).
  split; [exact Hd|]. apply Ht. now left.
Defined.

Lemma member_cannot_be_added_witness :
  EffectList.add (H := Example.lasting) 5 (Effect.withTarget (Example.poison 0 (Some 1)) 7)
    (EffectList.empty 8)
  = Throw AlreadyHasTarget.
Proof.
  apply (member_cannot_be_added (H := Example.lasting) _ (EffectList.empty 8) _ 5
           built_poisoned).
  now left.
Defined.

(* ===================================================================== *)
(** ** What emit delivers *)
(* ===================================================================== *)

Lemma deliveries_app r ev a b :
  deliveries r ev (a ++ b) = (deliveries r ev a + deliveries r ev b)%nat.
Proof.
  induction a as [|x a IH]; simpl; [reflexivity|].
  destruct x as [r0 ev0| |]; try exact IH.
  destruct (Nat.eqb r0 r && String.eqb ev0 ev); simpl; congruence.
Qed.

Lemma deliveries_housekeeping r ev out :
  housekeeping out -> deliveries r ev out = 0%nat.
Proof.
  induction 1 as [|x out Hx _ IH]; simpl; [reflexivity|].
  destruct x; [destruct Hx | exact IH | exact IH].
Qed.

Lemma deliveries_other_ref r ev r0 ev0 :
  r0 <> r -> deliveries r ev [ToEffect r0 ev0] = 0%nat.
Proof.
  intros Hne. simpl. apply Nat.eqb_neq in Hne. now rewrite Hne.
Qed.

Section EmitMore.
Context {Damage : Type} `{EffectMethods Damage}.
Import EffectList.

(** What one turn of the loop emits is nothing, or the event for the
    effect at hand. *)
Lemma deliver_out now event e :
  snd (deliver now event e) = []
  \/ snd (deliver now event e) = [ToEffect (Effect.ref e) event].
Proof.
  unfold deliver. destruct (Effect.paused e); [now left|].
  destruct (String.eqb event "updateTick"); [|now right].
  destruct (Effect.tickInterval (Effect.config e)); [now right|].
  destruct (_ <? _); [now left | now right].
Qed.

Lemma deliver_ref now event e :
  Effect.ref (fst (deliver now event e)) = Effect.ref e.
Proof.
  unfold deliver. destruct (Effect.paused e); [reflexivity|].
  destruct (String.eqb event "updateTick"); [|reflexivity].
  destruct (Effect.tickInterval (Effect.config e)); [reflexivity|].
  destruct (_ <? _); reflexivity.
Qed.

Lemma deliverAll_other_member now event r l :
  (forall x, List.In x l -> Effect.ref x <> r) ->
  deliveries r event (snd (deliverAll now event l)) = 0%nat.
Proof.
  induction l as [|a l IH]; intros Hall; [reflexivity|]. simpl.
  pose proof (deliver_out now event a) as Ha.
  destruct (deliver now event a) as [a' out].
  destruct (deliverAll now event l) as [l' outs]. simpl in *.
  rewrite deliveries_app, IH by (intros x Hx; apply Hall; now right).
  destruct Ha as [->| ->]; [reflexivity|].
  rewrite deliveries_other_ref; [reflexivity|]. apply Hall. now left.
Qed.

(** In a Set, what reaches an effect during the loop is what its own
    turn delivers, and the effect afterwards is what its turn leaves. *)
Lemma deliverAll_member now event e l :
  distinct l -> List.In e l ->
  deliveries (Effect.ref e) event (snd (deliverAll now event l))
  = deliveries (Effect.ref e) event (snd (deliver now event e)) /\
  List.In (fst (deliver now event e)) (fst (deliverAll now event l)).
Proof.
  induction l as [|a l IH]; intros Hd Hin; [destruct Hin|].
  assert (distinct l) as Hd' by (unfold distinct in *; simpl in Hd; now inversion Hd).
  simpl.
  destruct (deliver now event a) as [a' out] eqn:Ha.
  destruct (deliverAll now event l) as [l' outs] eqn:Hl. simpl.
  rewrite deliveries_app.
  destruct Hin as [->|Hin].
  - rewrite Ha. simpl. split; [|now left].
    replace outs with (snd (deliverAll now event l)) by now rewrite Hl.
    rewrite deliverAll_other_member; [lia|].
    intros x Hx Hr. unfold distinct in Hd. simpl in Hd. inversion Hd as [|? ? Hnot _].
    apply Hnot. rewrite <- Hr. now apply List.in_map.
  - destruct (IH Hd' Hin) as [Hcount Hmem]. try rewrite Hl in *. simpl in *.
    split; [|now right]. rewrite Hcount.
    assert (Effect.ref a <> Effect.ref e) as Hne.
    { intros Hr. unfold distinct in Hd. simpl in Hd. inversion Hd as [|? ? Hnot _].
      apply Hnot. rewrite Hr. now apply List.in_map. }
    pose proof (deliver_out now event a) as Ho. rewrite Ha in Ho. simpl in Ho.
    destruct Ho as [->| ->]; [reflexivity|].
    now rewrite deliveries_other_ref.
Qed.

Lemma deliverAll_other_out now event l :
  String.eqb event "updateTick" = false ->
  snd (deliverAll now event l)
  = List.map (fun e => ToEffect (Effect.ref e) event) (unpaused l).
Proof.
  intros He. induction l as [|a l IH]; [reflexivity|]. simpl.
  assert (snd (deliver now event a)
          = if Effect.paused a then [] else [ToEffect (Effect.ref a) event]) as Ha.
  { unfold deliver. rewrite He. now destruct (Effect.paused a). }
  destruct (deliver now event a) as [a' out].
  destruct (deliverAll now event l) as [l' outs]. simpl in *.
  rewrite Ha, IH. now destruct (Effect.paused a).
Qed.

(** What [emit] does for an event that is relayed, on a Set. *)
Lemma emit_relayed now event s :
  distinct (effects s) ->
  String.eqb event "effectAdded" || String.eqb event "effectRemoved" = false ->
  exists s' hk,
    emit now event s = Ok (tt, s') /\
    housekeeping hk /\
    effects s' = fst (deliverAll now event (List.filter (isCurrent now) (effects s))) /\
    emitted s s'
    = (hk ++ snd (deliverAll now event (List.filter (isCurrent now) (effects s))))%list.
Proof.
  intros Hd Hev. destruct (validateEffects_ok now s) as (s1 & Hv & Hsw & Hf).
  rewrite (emit_run _ _ _ _ Hv), Hev.
  destruct Hsw as [_ _ _ (hk & Hs & Hh)]. rewrite (Hf Hd).
  destruct (deliverAll now event (List.filter (isCurrent now) (effects s)))
    as [l out] eqn:Hl.
  eexists. exists hk. split; [reflexivity|]. split; [exact Hh|]. split; [reflexivity|].
  simpl. apply emitted_app. simpl. rewrite Hs. now rewrite List.app_assoc.
Qed.

(** X9.  [emit] of [effectAdded] or [effectRemoved] sweeps the list and
    stops: it leaves what [validateEffects] leaves, and no effect is told
    anything. *)
Theorem emit_bookkeeping_silent (s : EffectList.t) (now : Z) (event : string) :
  event = "effectAdded" \/ event = "effectRemoved" ->
  exists s',
    emit now event s = Ok (tt, s') /\
    validateEffects now s = Ok (tt, s') /\
    forall r ev, deliveries r ev (emitted s s') = 0%nat.
Proof.
  intros Hev. destruct (validateEffects_ok now s) as (s1 & Hv & Hsw & _).
  exists s1. rewrite (emit_run _ _ _ _ Hv).
  split; [destruct Hev as [->| ->]; reflexivity|]. split; [exact Hv|].
  intros r ev. destruct Hsw as [_ _ _ (hk & Hs & Hh)].
  rewrite (emitted_app _ _ _ Hs). now apply deliveries_housekeeping.
Qed.

(** X10.  An event other than [updateTick], [effectAdded] and
    [effectRemoved] is delivered, after the sweep, to every current
    member that is not paused, once each and in insertion order; the
    members afterwards are the current members, unchanged. *)
Theorem emit_reaches_each_once (s : EffectList.t) (now : Z) (event : string) :
  distinct (effects s) ->
  event <> "updateTick" -> event <> "effectAdded" -> event <> "effectRemoved" ->
  exists s' hk,
    emit now event s = Ok (tt, s') /\
    effects s' = List.filter (isCurrent now) (effects s) /\
    housekeeping hk /\
    emitted s s'
    = (hk ++ List.map (fun e => ToEffect (Effect.ref e) event)
                      (unpaused (List.filter (isCurrent now) (effects s))))%list.
Proof.
  intros Hd Hu Ha Hr.
  apply String.eqb_neq in Hu, Ha, Hr.
  destruct (emit_relayed now event s Hd) as (s' & hk & He & Hh & Heff & Hout).
  { now rewrite Ha, Hr. }
  exists s', hk. split; [exact He|].
  rewrite Heff, Hout, (deliverAll_other now event _ Hu),
    (deliverAll_other_out now event _ Hu). auto.
Qed.

(** X11.  A paused member is told nothing, whatever the event, and is
    left as it is. *)
Theorem emit_skips_paused (s : EffectList.t) (now : Z) (event : string)
        (e : Effect.t) :
  distinct (effects s) ->
  List.In e (effects s) ->
  Effect.paused e = true ->
  exists s',
    emit now event s = Ok (tt, s') /\
    deliveries (Effect.ref e) event (emitted s s') = 0%nat /\
    (isCurrent now e = true -> List.In e (effects s')).
Proof.
  intros Hd Hin Hp.
  destruct (String.eqb event "effectAdded" || String.eqb event "effectRemoved") eqn:Hev.
  - destruct (validateEffects_ok now s) as (s1 & Hv & Hsw & Hf).
    exists s1. rewrite (emit_run _ _ _ _ Hv), Hev. split; [reflexivity|].
    destruct Hsw as [_ _ _ (hk & Hs & Hh)].
    rewrite (emitted_app _ _ _ Hs). split; [now apply deliveries_housekeeping|].
    intros Hc. rewrite (Hf Hd). apply List.filter_In. auto.
  - destruct (emit_relayed now event s Hd Hev) as (s' & hk & He & Hh & Heff & Hout).
    exists s'. split; [exact He|].
    assert (deliver now event e = (e, [])) as Hde
      by (unfold deliver; now rewrite Hp).
    destruct (isCurrent now e) eqn:Hc.
    + destruct (deliverAll_member now event e
                  (List.filter (isCurrent now) (effects s))) as [Hcount Hmem].
      * now apply distinct_filter.
      * apply List.filter_In. auto.
      * rewrite Hde in *. simpl in *. split; [|intros _; now rewrite Heff].
        rewrite Hout, deliveries_app, Hcount, (deliveries_housekeeping _ _ _ Hh).
        reflexivity.
    + split; [|discriminate].
      rewrite Hout, deliveries_app, (deliveries_housekeeping _ _ _ Hh).
      rewrite deliverAll_other_member; [reflexivity|].
      intros x Hx Hr. apply List.filter_In in Hx as [Hx Hcx].
      rewrite (distinct_same_ref _ x e Hd Hx Hin Hr) in Hcx. congruence.
Qed.

(** X12.  [updateTick] and a numeric [tickInterval].  For a current,
    unpaused member the call either withholds the event, when
    [now - (ticks || 0)] is below the interval in milliseconds, and then
    leaves the effect as it is; or delivers it exactly once, and then
    [lastTick] is the clock reading, the stack count is what it was, and
    [ticks] is one more when it was a non-zero number and unchanged
    otherwise. *)
Theorem updateTick_timed (s : EffectList.t) (now : Z) (e : Effect.t) (n : Z) :
  distinct (effects s) ->
  List.In e (effects s) ->
  isCurrent now e = true ->
  Effect.paused e = false ->
  Effect.tickInterval (Effect.config e) = Effect.TickSeconds n ->
  exists s',
    emit now "updateTick" s = Ok (tt, s') /\
    ((now - JS.orZ (Effect.ticks (Effect.state e)) 0 < n * 1000 /\
      deliveries (Effect.ref e) "updateTick" (emitted s s') = 0%nat /\
      List.In e (effects s'))
     \/
     (n * 1000 <= now - JS.orZ (Effect.ticks (Effect.state e)) 0 /\
      deliveries (Effect.ref e) "updateTick" (emitted s s') = 1%nat /\
      exists e', List.In e' (effects s') /\
                 Effect.ref e' = Effect.ref e /\
                 Effect.config e' = Effect.config e /\
                 Effect.lastTick (Effect.state e') = Some now /\
                 Effect.stacks (Effect.state e') = Effect.stacks (Effect.state e) /\
                 Effect.ticks (Effect.state e')
                 = if JS.truthyZ (Effect.ticks (Effect.state e))
                   then option_map Z.succ (Effect.ticks (Effect.state e))
                   else Effect.ticks (Effect.state e))).
Proof.
  intros Hd Hin Hc Hp Ht.
  destruct (emit_relayed now "updateTick" s Hd eq_refl)
    as (s' & hk & He & Hh & Heff & Hout).
  exists s'. split; [exact He|].
  destruct (deliverAll_member now "updateTick" e
              (List.filter (isCurrent now) (effects s))) as [Hcount Hmem].
  { now apply distinct_filter. }
  { apply List.filter_In. auto. }
  rewrite Hout, deliveries_app, Hcount, (deliveries_housekeeping _ _ _ Hh), Heff.
  clear Hcount Hout Heff He.
  unfold deliver in *. rewrite Hp, Ht in *. simpl in *.
  destruct (Z.ltb_spec (now - JS.orZ (Effect.ticks (Effect.state e)) 0) (n * 1000))
    as [Hlt|Hge]; simpl in *.
  - left. auto.
  - right. split; [exact Hge|]. rewrite Nat.eqb_refl. simpl. split; [reflexivity|].
    eexists. split; [exact Hmem|]. simpl. auto 10.
Qed.

End EmitMore.

Lemma emit_bookkeeping_silent_witness :
  exists s',
    EffectList.emit (H := Example.lasting) 0 "effectAdded" Example.afflicted = Ok (tt, s') /\
    deliveries 1 "effectAdded" (emitted Example.afflicted s') = 0%nat.
Proof.
  destruct (emit_bookkeeping_silent (H := Example.lasting) Example.afflicted 0 "effectAdded")
    as (s' & He & _ & Hz).
  - now left.
  - exists s'. split; [exact He | apply Hz].
Defined.

Lemma emit_reaches_each_once_witness :
  exists s' hk,
    EffectList.emit (H := Example.lasting) 0 "hit" Example.afflicted = Ok (tt, s') /\
    emitted Example.afflicted s' = (hk ++ [ToEffect 0 "hit"; ToEffect 1 "hit"])%list.
Proof.
  destruct (emit_reaches_each_once (H := Example.lasting) Example.afflicted 0 "hit")
    as (s' & hk & He & _ & _ & Hout).
  - repeat constructor; simpl; intuition discriminate.
  - discriminate.
  - discriminate.
  - discriminate.
  - exists s', hk. split; [exact He | exact Hout].
Defined.

Lemma emit_skips_paused_witness :
  exists s',
    EffectList.emit (H := Example.lasting) 9000 "updateTick" ExamplePaused.drowsy
    = Ok (tt, s') /\
    deliveries 0 "updateTick" (emitted ExamplePaused.drowsy s') = 0%nat.
Proof.
  destruct (emit_skips_paused (H := Example.lasting) ExamplePaused.drowsy 9000
              "updateTick" ExamplePaused.sleeping)
    as (s' & He & Hz & _).
  - repeat constructor; simpl; tauto.
  - now left.
  - reflexivity.
  - exists s'. split; [exact He | exact Hz].
Defined.

Lemma updateTick_timed_witness :
  exists s',
    EffectList.emit (H := Example.lasting) 3000 "updateTick" Example.poisoned = Ok (tt, s') /\
    deliveries 0 "updateTick" (emitted Example.poisoned s') = 0%nat.
Proof.
  destruct (updateTick_timed (H := Example.lasting) Example.poisoned 3000
              (Effect.withTarget (Example.poison 0 (Some 1)) 7) 5)
    as (s' & He & [(_ & Hz & _)|(Hge & _)]).
  - repeat constructor; simpl; tauto.
  - now left.
  - reflexivity.
  - reflexivity.
  - reflexivity.
  - exists s'. split; [exact He | exact Hz].
  - exfalso. vm_compute in Hge. now apply Hge.
Defined.

(* ===================================================================== *)
(** ** Lookups by type and the folds *)
(* ===================================================================== *)

Lemma find_first {A} (f : A -> bool) l e :
  List.find f l = Some e ->
  exists pre post, l = (pre ++ e :: post)%list /\ f e = true /\
                   forall x, List.In x pre -> f x = false.
Proof.
  induction l as [|a l IH]; [discriminate|]. simpl.
  destruct (f a) eqn:Ha.
  - intros He. inversion He; subst. exists [], l. repeat split; auto. intros x [].
  - intros He. destruct (IH He) as (pre & post & -> & Hf & Hpre).
    exists (a :: pre), post. repeat split; auto.
    intros x [<-|Hx]; auto.
Qed.

Lemma clamp_cases (x : JS.number) :
  JS.or (JS.Math_max x JS.zero) JS.zero =
  match x with
  | JS.PosInf => JS.PosInf
  | JS.Fin q => if Qle_bool q 0 then JS.zero else JS.Fin q
  | _ => JS.zero
  end.
Proof.
  destruct x as [| | |q]; try reflexivity.
  unfold JS.Math_max, JS.zero. destruct (Qle_bool q 0) eqn:Hle; [reflexivity|].
  unfold JS.or, JS.truthy. destruct (Qeq_bool q 0) eqn:Heq; [|reflexivity].
  apply Qeq_bool_iff in Heq. exfalso.
  assert (Qle_bool q 0 = true) as Ht by (apply Qle_bool_iff; rewrite Heq; apply Qle_refl).
  congruence.
Qed.

Lemma floor_nonneg (v : JS.number) :
  JS.nonneg v = true ->
  JS.nonneg (JS.Math_floor v) = true /\
  (JS.isInteger (JS.Math_floor v) = true \/ JS.Math_floor v = JS.PosInf).
Proof.
  destruct v as [| | |q]; cbn [JS.nonneg JS.Math_floor JS.isInteger];
    try discriminate; [auto|].
  intros Hq. apply Qle_bool_iff in Hq. split.
  - apply Qle_bool_iff. change 0%Q with (inject_Z 0). rewrite <- Zle_Qle.
    assert (Qfloor (inject_Z 0) <= Qfloor q)%Z as Hf
      by (apply Qfloor_resp_le; exact Hq).
    now rewrite Qfloor_Z in Hf.
  - left. apply Qeq_bool_iff. rewrite Qfloor_Z. reflexivity.
Qed.

Section FoldsMore.
Context {Damage : Type} `{EffectMethods Damage}.
Import EffectList.

(** X13.  [getByType] hands out the first member of the type in
    insertion order, or nothing when no member has the type;
    [hasEffectType] says whether it found one; neither changes the
    list. *)
Theorem getByType_first (s : EffectList.t) (type : string) :
  exists found,
    getByType type s = Ok (found, s) /\
    hasEffectType type s = Ok (bool_decide (is_Some found), s) /\
    match found with
    | Some e =>
        exists pre post,
          effects s = (pre ++ e :: post)%list /\
          Effect.type (Effect.config e) = type /\
          forall x, List.In x pre -> Effect.type (Effect.config x) <> type
    | None =>
        forall x, List.In x (effects s) -> Effect.type (Effect.config x) <> type
    end.
Proof.
  eexists. split; [reflexivity|]. split; [reflexivity|].
  destruct (List.find _ (effects s)) as [e|] eqn:Hf.
  - destruct (find_first _ _ _ Hf) as (pre & post & Hl & He & Hpre).
    exists pre, post. split; [exact Hl|]. split; [now apply String.eqb_eq|].
    intros x Hx. apply String.eqb_neq. now apply Hpre.
  - intros x Hx. apply String.eqb_neq. exact (List.find_none _ _ Hf x Hx).
Qed.

(** X14.  [evaluateAttribute] and [evaluateProperty] pass the value
    through the hook of every member that is current and not paused, in
    insertion order, starting from the attribute's [base || 0], resp. the
    given value; expired and paused members take no part, and the expired
    ones are gone afterwards. *)
Theorem evaluate_skips_paused (s : EffectList.t) (now : Z) (attr : Attribute.t)
        (propertyName : string) (propertyValue : JS.number) :
  distinct (effects s) ->
  (exists s',
      evaluateAttribute now attr s
      = Ok (fold_left (fun v e => modifyAttribute e (Attribute.name (Attribute.values attr)) v)
                      (unpaused (List.filter (isCurrent now) (effects s)))
                      (JS.or (Attribute.base (Attribute.values attr)) JS.zero), s') /\
      effects s' = List.filter (isCurrent now) (effects s)) /\
  (exists s',
      evaluateProperty now propertyName propertyValue s
      = Ok (fold_left (fun v e => modifyProperty e propertyName v)
                      (unpaused (List.filter (isCurrent now) (effects s)))
                      propertyValue, s') /\
      effects s' = List.filter (isCurrent now) (effects s)).
Proof.
  intros Hd. split; [now apply evaluateAttribute_run|].
  destruct (validateEffects_ok now s) as (s' & Hv & _ & Hf).
  exists s'. unfold evaluateProperty. unfoldM. rewrite Hv, (Hf Hd). auto.
Qed.

(** X15.  The damage folds pass the amount through the hook of every
    current member, the paused ones included, and clamp what comes out:
    a positive number or +Infinity stays, everything else ([NaN], a
    negative number, -Infinity) becomes 0. *)
Theorem evaluateDamage_folds_paused_too (s : EffectList.t) (now : Z)
        (damage : Damage) (amount : JS.number) :
  distinct (effects s) ->
  let clamp x :=
    match x with
    | JS.PosInf => JS.PosInf
    | JS.Fin q => if Qle_bool q 0 then JS.zero else JS.Fin q
    | _ => JS.zero
    end in
  (exists s',
      evaluateIncomingDamage now damage amount s
      = Ok (clamp (fold_left (fun v e => modifyIncomingDamage e damage v)
                             (List.filter (isCurrent now) (effects s)) amount), s')) /\
  (exists s',
      evaluateOutgoingDamage now damage amount s
      = Ok (clamp (fold_left (fun v e => modifyOutgoingDamage e damage v)
                             (List.filter (isCurrent now) (effects s)) amount), s')).
Proof.
  intros Hd clamp. destruct (validateEffects_ok now s) as (s' & Hv & _ & Hf).
  split; exists s';
    unfold evaluateIncomingDamage, evaluateOutgoingDamage; unfoldM;
    rewrite Hv, (Hf Hd), clamp_cases; reflexivity.
Qed.

(** X16.  [EffectableEntity.evaluateIncomingDamage] returns, and what it
    returns is not negative and is an integer or +Infinity. *)
Theorem incoming_damage_integer (ent : EffectableEntity.t) (now : Z)
        (damage : Damage) (amount : JS.number) :
  exists v ent',
    EffectableEntity.evaluateIncomingDamage now damage amount ent = Ok (v, ent') /\
    JS.nonneg v = true /\
    (JS.isInteger v = true \/ v = JS.PosInf).
Proof.
  destruct (validateEffects_ok now (EffectableEntity.effects ent)) as (l & Hv & _).
  assert (exists v, evaluateIncomingDamage now damage amount (EffectableEntity.effects ent)
                    = Ok (v, l) /\ JS.nonneg v = true) as (v & Hl & Hn).
  { eexists. unfold evaluateIncomingDamage. unfoldM. rewrite Hv.
    split; [reflexivity | apply clamp_nonneg]. }
  rewrite (evaluateIncomingDamage_floors _ _ _ _ _ _ Hl).
  do 2 eexists. split; [reflexivity|]. now apply floor_nonneg.
Qed.

End FoldsMore.

Lemma evaluate_skips_paused_witness :
  exists s',
    EffectList.evaluateAttribute (H := Example.lasting) 0 ExampleEntity.health
      ExamplePaused.drowsy = Ok (JS.ofZ 100, s').
Proof.
  destruct (evaluate_skips_paused (H := Example.lasting) ExamplePaused.drowsy 0
              ExampleEntity.health "armor" JS.zero) as [(s' & He & _) _].
  - repeat constructor; simpl; tauto.
  - exists s'. exact He.
Defined.

Lemma evaluateDamage_folds_paused_too_witness :
  exists s',
    EffectList.evaluateIncomingDamage (H := Example.lasting) 0 tt (JS.Fin (-3 # 1))
      ExamplePaused.drowsy = Ok (JS.zero, s').
Proof.
  destruct (evaluateDamage_folds_paused_too (H := Example.lasting) ExamplePaused.drowsy 0
              tt (JS.Fin (-3 # 1))) as [(s' & He) _].
  - repeat constructor; simpl; tauto.
  - exists s'. exact He.
Defined.

(* ===================================================================== *)
(** * Further properties of EffectableEntity *)
(* ===================================================================== *)

Section EntityMore.
Context {Damage : Type} `{EffectMethods Damage}.
Import EffectableEntity.

Lemma withEffects_same ent : withEffects (effects ent) ent = ent.
Proof. now destruct ent. Qed.

Lemma current_settled now ent :
  settled now ent -> current now ent = EffectList.effects (effects ent).
Proof. intros Hs. unfold current. now apply filter_clean. Qed.

(** On an entity whose effects are all current, the fold changes
    nothing. *)
Lemma evaluateAttribute_settled now a ent :
  settled now ent ->
  onEffects (EffectList.evaluateAttribute now a) ent = Ok (adjusted now ent a, ent).
Proof.
  intros Hs. unfold onEffects, EffectList.evaluateAttribute. unfoldM.
  rewrite (validateEffects_clean now _ Hs).
  unfold adjusted. rewrite (current_settled _ _ Hs), withEffects_same. reflexivity.
Qed.

Lemma getMaxAttributeAt_plain_settled d now r ar ent :
  settled now ent ->
  attributes ent !! r = Some ar -> Attribute.formula ar = None ->
  getMaxAttributeAt (S d) now r ent = Ok (adjusted now ent ar, ent).
Proof.
  intros Hs Ha Hf. rewrite getMaxAttributeAt_S, Ha.
  rewrite (evaluateAttribute_settled _ _ _ Hs), Hf. reflexivity.
Qed.

Lemma mapM_plain_settled d now ent reqs ars :
  settled now ent ->
  List.Forall2 (fun r ar => attributes ent !! r = Some ar /\ Attribute.formula ar = None)
               reqs ars ->
  mapM (getMaxAttributeAt (S d) now) reqs ent
  = Ok (List.map (adjusted now ent) ars, ent).
Proof.
  intros Hs. induction 1 as [|r ar reqs ars [Ha Hf] _ IH]; [reflexivity|].
  rewrite mapM_cons, (getMaxAttributeAt_plain_settled _ _ _ _ _ Hs Ha Hf), IH.
  reflexivity.
Qed.

Lemma mapM_missing d now ent pre ars r post :
  settled now ent ->
  List.Forall2 (fun r ar => attributes ent !! r = Some ar /\ Attribute.formula ar = None)
               pre ars ->
  attributes ent !! r = None ->
  mapM (getMaxAttributeAt (S d) now) (pre ++ r :: post) ent
  = Throw (NoSuchAttribute r).
Proof.
  intros Hs Hpre Hr. induction Hpre as [|x ar pre ars [Ha Hf] _ IH]; simpl app.
  - rewrite mapM_cons, getMaxAttributeAt_S, Hr. reflexivity.
  - rewrite mapM_cons, (getMaxAttributeAt_plain_settled _ _ _ _ _ Hs Ha Hf), IH.
    reflexivity.
Qed.

(** The first fold of a call sweeps the list; the entity is settled
    afterwards and has the same current effects. *)
Lemma evaluateAttribute_first now a ent :
  distinct (EffectList.effects (effects ent)) ->
  exists l1,
    onEffects (EffectList.evaluateAttribute now a) ent
    = Ok (adjusted now ent a, withEffects l1 ent) /\
    EffectList.effects l1 = current now ent /\
    swept (effects ent) l1.
Proof.
  intros Hd. destruct (validateEffects_ok now (effects ent)) as (l1 & Hv & Hsw & Hf).
  exists l1. unfold onEffects, EffectList.evaluateAttribute. unfoldM.
  rewrite Hv, (Hf Hd). auto.
Qed.

Lemma settled_after now ent l1 :
  EffectList.effects l1 = current now ent -> settled now (withEffects l1 ent).
Proof.
  intros Hl e He. simpl in He. rewrite Hl in He.
  now apply List.filter_In in He.
Qed.

Lemma adjusted_after now ent l1 a :
  EffectList.effects l1 = current now ent ->
  adjusted now (withEffects l1 ent) a = adjusted now ent a.
Proof.
  intros Hl. unfold adjusted, current. simpl. rewrite Hl. unfold current.
  now rewrite filter_idem.
Qed.

Lemma size_positive ent name a :
  attributes ent !! name = Some a ->
  exists k, base.size (attributes ent) = S k.
Proof.
  intros Ha. destruct (base.size (attributes ent)) as [|k] eqn:Hs; [|eauto].
  apply map_size_empty_inv in Hs. rewrite Hs, lookup_empty in Ha. discriminate.
Qed.

(** X17.  An attribute without a formula: [getAttribute] is the base
    ([base || 0]) passed through [modifyAttribute] of the current,
    unpaused effects, plus the delta; the attributes are left as they
    are.  With no such effect it is [base || 0] plus delta. *)
Theorem getAttribute_plain (ent : EffectableEntity.t) (now : Z) (name : string)
        (attr : Attribute.t) :
  distinct (EffectList.effects (effects ent)) ->
  attributes ent !! name = Some attr ->
  Attribute.formula attr = None ->
  exists ent',
    getAttribute now name ent
    = Ok (JS.add (adjusted now ent attr) (Attribute.delta (Attribute.values attr)),
          ent') /\
    attributes ent' = attributes ent /\
    (EffectList.unpaused (current now ent) = [] ->
     adjusted now ent attr = JS.or (Attribute.base (Attribute.values attr)) JS.zero).
Proof.
  intros Hd Ha Hf. rewrite (getAttribute_run _ _ _ _ Ha).
  unfold getMaxAttribute. unfoldM. rewrite getMaxAttributeAt_S, Ha.
  destruct (evaluateAttribute_first now attr ent Hd) as (l1 & Hr & _).
  rewrite Hr, Hf. eexists. split; [reflexivity|]. split; [reflexivity|].
  intros Hnone. unfold adjusted. now rewrite Hnone.
Qed.

(** X18.  An attribute with a formula whose requirements are attributes
    without formulas: [getMaxAttribute] applies the formula to the
    attribute, to its own base after the effects, and to the
    requirements' values after the effects, in the order of [requires];
    not to their bases. *)
Theorem getMaxAttribute_formula (ent : EffectableEntity.t) (now : Z) (name : string)
        (attr : Attribute.t) (f : Attribute.Formula) (required : list Attribute.t) :
  distinct (EffectList.effects (effects ent)) ->
  attributes ent !! name = Some attr ->
  Attribute.formula attr = Some f ->
  List.Forall2 (fun r ar => attributes ent !! r = Some ar /\ Attribute.formula ar = None)
               (Attribute.requires f) required ->
  exists ent',
    getMaxAttribute now name ent
    = Ok (Attribute.evaluate f (Attribute.values attr) (view ent)
            (adjusted now ent attr) (List.map (adjusted now ent) required), ent') /\
    attributes ent' = attributes ent.
Proof.
  intros Hd Ha Hf Hreq. unfold getMaxAttribute. unfoldM.
  destruct (size_positive _ _ _ Ha) as [k ->].
  rewrite getMaxAttributeAt_S, Ha.
  destruct (evaluateAttribute_first now attr ent Hd) as (l1 & Hr & Hl & _).
  rewrite Hr, Hf.
  rewrite (mapM_plain_settled k now (withEffects l1 ent) _ required
             (settled_after _ _ _ Hl) Hreq).
  assert (List.map (adjusted now (withEffects l1 ent)) required
          = List.map (adjusted now ent) required) as ->
    by (apply List.map_ext; intros a; now apply adjusted_after).
  eexists. split; reflexivity.
Qed.

(** X19.  When the formula requires an attribute the entity does not
    have, and the requirements before it are attributes without
    formulas, [getMaxAttribute] and [getAttribute] throw the range error
    for the missing name. *)
Theorem getMaxAttribute_missing_requirement (ent : EffectableEntity.t) (now : Z)
        (name : string) (attr : Attribute.t) (f : Attribute.Formula)
        (pre post : list string) (present : list Attribute.t) (missing : string) :
  distinct (EffectList.effects (effects ent)) ->
  attributes ent !! name = Some attr ->
  Attribute.formula attr = Some f ->
  Attribute.requires f = (pre ++ missing :: post)%list ->
  List.Forall2 (fun r ar => attributes ent !! r = Some ar /\ Attribute.formula ar = None)
               pre present ->
  attributes ent !! missing = None ->
  getMaxAttribute now name ent = Throw (NoSuchAttribute missing) /\
  getAttribute now name ent = Throw (NoSuchAttribute missing).
Proof.
  intros Hd Ha Hf Hreq Hpre Hmiss.
  assert (getMaxAttribute now name ent = Throw (NoSuchAttribute missing)) as Hmax.
  { unfold getMaxAttribute. unfoldM.
    destruct (size_positive _ _ _ Ha) as [k ->].
    rewrite getMaxAttributeAt_S, Ha.
    destruct (evaluateAttribute_first now attr ent Hd) as (l1 & Hr & Hl & _).
    rewrite Hr, Hf, Hreq.
    rewrite (mapM_missing k now (withEffects l1 ent) pre present missing post
               (settled_after _ _ _ Hl) Hpre Hmiss).
    reflexivity. }
  split; [exact Hmax|]. now rewrite (getAttribute_run _ _ _ _ Ha), Hmax.
Qed.

End EntityMore.

Lemma champion_distinct :
  distinct (EffectList.effects (EffectableEntity.effects ExampleFormula.champion)).
Proof. repeat constructor; simpl; tauto. Qed.

Lemma getAttribute_plain_witness :
  exists ent',
    EffectableEntity.getAttribute (H := ExampleFormula.blessing) 0 "strength"
      ExampleFormula.champion = Ok (JS.ofZ 15, ent').
Proof.
  destruct (getAttribute_plain (H := ExampleFormula.blessing) ExampleFormula.champion 0
              "strength" ExampleFormula.strength champion_distinct)
    as (ent' & Hg & _); [reflexivity | reflexivity |].
  exists ent'. rewrite Hg. vm_compute. reflexivity.
Defined.

Lemma getMaxAttribute_formula_witness :
  exists ent',
    EffectableEntity.getMaxAttribute (H := ExampleFormula.blessing) 0 "power"
      ExampleFormula.champion = Ok (JS.ofZ 31, ent').
Proof.
  destruct (getMaxAttribute_formula (H := ExampleFormula.blessing) ExampleFormula.champion 0
              "power" ExampleFormula.power ExampleFormula.powerFormula
              [ExampleFormula.strength] champion_distinct)
    as (ent' & Hg & _); [reflexivity | reflexivity | |].
  - repeat constructor.
  - exists ent'. rewrite Hg. vm_compute. reflexivity.
Defined.

Lemma getMaxAttribute_missing_requirement_witness :
  EffectableEntity.getAttribute (H := ExampleFormula.blessing) 0 "reach"
    ExampleFormula.champion = Throw (NoSuchAttribute "agility").
Proof.
  refine (proj2 (getMaxAttribute_missing_requirement (H := ExampleFormula.blessing)
                   ExampleFormula.champion 0 "reach" ExampleFormula.reach _
                   ["strength"] [] [ExampleFormula.strength] "agility"
                   champion_distinct _ eq_refl eq_refl _ _)).
  - reflexivity.
  - repeat constructor.
  - reflexivity.
Defined.

(* ===================================================================== *)
(** ** Hydration and the setters *)
(* ===================================================================== *)

Section HydrateMore.
Context {Damage : Type} `{EffectMethods Damage}.
Import EffectableEntity.

Lemma createAttributes_effects gs :
  forall l ent ent',
    createAttributes gs l ent = Ok (tt, ent') ->
    effects ent' = effects ent /\ __attributes ent' = __attributes ent /\
    __hydrated ent' = __hydrated ent.
Proof.
  induction l as [|[k c] l IH]; intros ent ent' Hrun.
  - inversion Hrun; subst. auto.
  - destruct (created gs k c) as [a|] eqn:Ha.
    + rewrite (createAttributes_cons _ _ _ _ _ _ Ha) in Hrun.
      destruct (IH _ _ Hrun) as (He & Ht & Hh). auto.
    + exfalso. destruct c; simpl in *; try discriminate;
        try change (JS.or JS.zero JS.zero) with JS.zero in Hrun;
        rewrite Ha in Hrun; discriminate.
Qed.

Lemma createAttributes_rejects gs ent :
  forall pre k c post,
    (forall k' c', List.In (k', c') pre -> is_Some (created gs k' c')) ->
    created gs k c = None ->
    createAttributes gs (pre ++ (k, c) :: post) ent
    = Throw (match c with
             | Null => InOperatorOnNull
             | Malformed => InvalidBaseValue
             | _ => InvalidAttribute k
             end).
Proof.
  intros pre k c post. revert ent.
  induction pre as [|[k0 c0] pre IH]; intros ent Hpre Hnone.
  - destruct c; simpl in *; try change (JS.or JS.zero JS.zero) with JS.zero;
      try rewrite Hnone; reflexivity.
  - destruct (Hpre k0 c0 (or_introl eq_refl)) as [a0 Ha0].
    simpl app. rewrite (createAttributes_cons _ _ _ _ _ _ Ha0).
    apply IH; [|exact Hnone]. intros k' c' Hin. apply Hpre. now right.
Qed.

(** X20.  Hydration is a one-time step: an entity that [hydrate]
    returned for has [__hydrated] set, and a further [hydrate], with any
    registry and at any time, returns at once and leaves it as it is. *)
Theorem hydrate_once (gs gs' : GameState) (now now' : Z)
        (ent ent' : EffectableEntity.t) :
  hydrate gs now ent = Ok (tt, ent') ->
  __hydrated ent' = true /\ hydrate gs' now' ent' = Ok (tt, ent').
Proof.
  intros Hh.
  assert (__hydrated ent' = true) as Hflag.
  { unfold hydrate in Hh. unfoldM.
    destruct (__hydrated ent) eqn:Hf; [inversion Hh; now subst|].
    destruct (createAttributes gs (__attributes ent) ent) as [[u e1]|]; [|discriminate].
    destruct (onEffects (EffectList.hydrate gs now) e1) as [[u2 e2]|]; [|discriminate].
    inversion Hh; subst. reflexivity. }
  split; [exact Hflag|]. unfold hydrate. unfoldM. now rewrite Hflag.
Qed.

(** X21.  Hydration stops at the first entry of [__attributes] that
    cannot be made into an attribute: it throws the TypeError of
    ['base' in null] when the entry is [null], the invalid-base error
    when the entry is another value that is neither a number nor an
    object with a base, and the invalid-attribute error for the name when
    the registry does not know it. *)
Theorem hydrate_rejects (gs : GameState) (now : Z) (ent : EffectableEntity.t)
        (pre post : list (string * AttrConfig)) (k : string) (c : AttrConfig) :
  __hydrated ent = false ->
  __attributes ent = (pre ++ (k, c) :: post)%list ->
  (forall k' c', List.In (k', c') pre -> is_Some (created gs k' c')) ->
  created gs k c = None ->
  hydrate gs now ent
  = Throw (match c with
           | Null => InOperatorOnNull
           | Malformed => InvalidBaseValue
           | _ => InvalidAttribute k
           end).
Proof.
  intros Hf Hl Hpre Hnone. unfold hydrate. unfoldM. rewrite Hf, Hl.
  now rewrite (createAttributes_rejects gs ent pre k c post Hpre Hnone).
Qed.

(** X22.  What hydration makes of the entries of [__attributes], when
    their names are distinct and registered and the effects hydrate: a
    bare number [n] becomes the attribute with base [n] and delta 0; an
    object becomes the attribute with its base and its [delta || 0], 0
    when it has none; attributes under other names stay; the flag is
    set. *)
Theorem hydrate_attributes (gs : GameState) (now : Z) (ent : EffectableEntity.t)
        (l' : EffectList.t) :
  __hydrated ent = false ->
  NoDup ((__attributes ent).*1) ->
  (forall k c, (k, c) ∈ __attributes ent ->
               c <> Null /\ c <> Malformed /\ is_Some (AttributeFactory gs !! k)) ->
  EffectList.hydrate gs now (effects ent) = Ok (tt, l') ->
  exists ent',
    hydrate gs now ent = Ok (tt, ent') /\
    __hydrated ent' = true /\ effects ent' = l' /\
    (forall k n, (k, Bare n) ∈ __attributes ent ->
                 Attribute.values <$> (attributes ent' !! k)
                 = Some (Attribute.mkValues k n JS.zero)) /\
    (forall k b d, (k, Spec b d) ∈ __attributes ent ->
                   Attribute.values <$> (attributes ent' !! k)
                   = Some (Attribute.mkValues k b (JS.orUndefined d JS.zero))) /\
    (forall k, k ∉ (__attributes ent).*1 ->
               attributes ent' !! k = attributes ent !! k).
Proof.
  intros Hf Hnd Hall Hl.
  assert (forall k c, (k, c) ∈ __attributes ent -> is_Some (created gs k c)) as Hc.
  { intros k c Hin. destruct (Hall k c Hin) as (Hn & Hm & [fk Hfk]).
    destruct c; [| |congruence|congruence];
      simpl; unfold Attribute.create; rewrite Hfk; eauto. }
  destruct (createAttributes_run gs (__attributes ent) ent Hnd Hc)
    as (m & Hrun & Hin & Hout).
  exists (mk m (__attributes ent) l' true (listened ent)).
  split; [|split; [reflexivity|split; [reflexivity|split; [|split]]]].
  - unfold hydrate. unfoldM. rewrite Hf, Hrun. unfold onEffects. simpl.
    now rewrite Hl.
  - intros k n Hk. simpl. rewrite (Hin _ _ Hk). simpl.
    destruct (Hall _ _ Hk) as (_ & _ & [fk Hfk]). unfold Attribute.create.
    now rewrite Hfk.
  - intros k b d Hk. simpl. rewrite (Hin _ _ Hk). simpl.
    destruct (Hall _ _ Hk) as (_ & _ & [fk Hfk]). unfold Attribute.create.
    now rewrite Hfk.
  - intros k Hk. simpl. now apply Hout.
Qed.

(** X23.  The four setters ([setAttributeToMax], [raiseAttribute],
    [lowerAttribute], [setAttributeBase]) on an attribute that has no
    formula before or after the change: the call returns; the attribute
    is replaced by the changed one and no other attribute is touched; the
    expired effects are swept; then the listeners of the entity are told
    [attributeUpdate], and after them every current, unpaused effect,
    once each. *)
Theorem setter_announces (ent : EffectableEntity.t) (now : Z) (name : string)
        (attr : Attribute.t) (change : Attribute.t -> Attribute.t) :
  distinct (EffectList.effects (effects ent)) ->
  attributes ent !! name = Some attr ->
  Attribute.formula (change attr) = None ->
  exists ent' hk,
    update now name change ent = Ok (tt, ent') /\
    attributes ent' = <[name := change attr]> (attributes ent) /\
    EffectList.effects (effects ent') = current now ent /\
    housekeeping hk /\
    emitted (effects ent) (effects ent')
    = (hk ++ ToTarget "attributeUpdate" None
          :: List.map (fun e => ToEffect (Effect.ref e) "attributeUpdate")
                      (EffectList.unpaused (current now ent)))%list.
Proof.
  intros Hd Ha Hf. rewrite (update_run _ _ _ _ _ Ha).
  set (entA := withAttributes (<[name := change attr]> (attributes ent)) ent).
  assert (attributes entA !! name = Some (change attr)) as HaA
    by (simpl; apply lookup_insert_eq).
  rewrite (getAttribute_run _ _ _ _ HaA).
  unfold getMaxAttribute. unfoldM. rewrite getMaxAttributeAt_S, HaA.
  destruct (evaluateAttribute_first now (change attr) entA Hd)
    as (l1 & Hr & Hl & Hsw).
  rewrite Hr, Hf.
  (* the relay *)
  unfold emit. unfoldM. rewrite superEmit_run by reflexivity.
  unfold onEffects. simpl.
  set (l2 := EffectList.mk _ _ _ _).
  assert (EffectList.validateEffects now l2 = Ok (tt, l2)) as Hv.
  { apply validateEffects_clean. intros e He. subst l2. simpl in He.
    rewrite Hl in He. now apply List.filter_In in He. }
  rewrite (emit_run _ _ _ _ Hv). simpl.
  pose proof (deliverAll_other now "attributeUpdate" (EffectList.effects l1) eq_refl)
    as Hfst.
  pose proof (deliverAll_other_out now "attributeUpdate" (EffectList.effects l1) eq_refl)
    as Hsnd.
  destruct (EffectList.deliverAll now "attributeUpdate" (EffectList.effects l1))
    as [l out]. simpl in Hfst, Hsnd. subst l out.
  destruct Hsw as [_ _ _ (hk & Hs & Hh)].
  eexists. exists hk. split; [reflexivity|]. simpl.
  split; [reflexivity|]. split; [exact Hl|]. split; [exact Hh|].
  apply emitted_app. simpl. rewrite Hs, Hl.
  change (current now entA) with (current now ent).
  now rewrite <- !List.app_assoc.
Qed.

End HydrateMore.

Lemma hydrate_once_witness :
  exists ent',
    EffectableEntity.hydrate (H := Example.lasting) ExampleWorld.world 0 ExampleHydrate.sound
    = Ok (tt, ent') /\
    EffectableEntity.hydrate (H := Example.lasting) ExampleWorld.world 9 ent' = Ok (tt, ent').
Proof.
  eexists. split; [vm_compute; reflexivity|].
  apply (hydrate_once (H := Example.lasting) ExampleWorld.world ExampleWorld.world 0 9
           ExampleHydrate.sound).
  vm_compute. reflexivity.
Defined.

Lemma hydrate_rejects_witness :
  EffectableEntity.hydrate (H := Example.lasting) ExampleWorld.world 0 ExampleHydrate.broken
  = Throw InvalidBaseValue /\
  EffectableEntity.hydrate (H := Example.lasting) ExampleWorld.world 0 ExampleHydrate.nulled
  = Throw InOperatorOnNull.
Proof.
  split.
  - apply (hydrate_rejects (H := Example.lasting) ExampleWorld.world 0
             ExampleHydrate.broken
             [("health", EffectableEntity.Bare (JS.ofZ 100))] [] "mana"
             EffectableEntity.Malformed).
    + reflexivity.
    + reflexivity.
    + intros k' c' [Heq|[]]. inversion Heq; subst. vm_compute. eauto.
    + reflexivity.
  - apply (hydrate_rejects (H := Example.lasting) ExampleWorld.world 0
             ExampleHydrate.nulled
             [("health", EffectableEntity.Bare (JS.ofZ 100))] [] "mana"
             EffectableEntity.Null).
    + reflexivity.
    + reflexivity.
    + intros k' c' [Heq|[]]. inversion Heq; subst. vm_compute. eauto.
    + reflexivity.
Defined.

Lemma hydrate_attributes_witness :
  exists ent',
    EffectableEntity.hydrate (H := Example.lasting) ExampleWorld.world 0 ExampleHydrate.sound
    = Ok (tt, ent') /\
    Attribute.values <$> (EffectableEntity.attributes ent' !! "health")
    = Some (Attribute.mkValues "health" (JS.ofZ 100) (JS.ofZ (-20))).
Proof.
  destruct (hydrate_attributes (H := Example.lasting) ExampleWorld.world 0
              ExampleHydrate.sound (EffectList.mk [] 7 [] []))
    as (ent' & Hh & _ & _ & _ & Hs & _).
  - reflexivity.
  - repeat constructor. intros Hin. inversion Hin.
  - intros k c Hin. apply list_elem_of_singleton in Hin. inversion Hin; subst.
    split; [discriminate|]. split; [discriminate|].
    simpl. rewrite lookup_singleton_eq. eauto.
  - reflexivity.
  - exists ent'. split; [exact Hh|].
    apply (Hs "health" (JS.ofZ 100) (Some (JS.ofZ (-20)))). now left.
Defined.

Lemma setter_announces_witness :
  exists ent' hk,
    EffectableEntity.raiseAttribute (H := Example.lasting) 0 "health" (JS.ofZ 5)
      ExampleEntity.hero
    = Ok (tt, ent') /\
    emitted (EffectableEntity.effects ExampleEntity.hero) (EffectableEntity.effects ent')
    = (hk ++ [ToTarget "attributeUpdate" None;
              ToEffect 0 "attributeUpdate"; ToEffect 1 "attributeUpdate"])%list.
Proof.
  destruct (setter_announces (H := Example.lasting) ExampleEntity.hero 0 "health"
              ExampleEntity.health (fun a => Attribute.raise a (JS.ofZ 5)))
    as (ent' & hk & Hu & _ & _ & _ & Hout).
  - repeat constructor; simpl; intuition discriminate.
  - reflexivity.
  - reflexivity.
  - exists ent', hk. split; [exact Hu | exact Hout].
Defined.

(* ===================================================================== *)
(** ** How the operations compose *)
(* ===================================================================== *)

Section Compose.
Context {Damage : Type} `{EffectMethods Damage}.

(** X24.  [size] is the number of current members, and [entries], asked
    next, lists just as many: the current members in insertion order. *)
Theorem size_entries_agree (s : EffectList.t) (now : Z) :
  distinct (EffectList.effects s) ->
  exists s',
    EffectList.size now s
    = Ok (length (List.filter (isCurrent now) (EffectList.effects s)), s') /\
    EffectList.entries now s'
    = Ok (List.filter (isCurrent now) (EffectList.effects s), s') /\
    (length (List.filter (isCurrent now) (EffectList.effects s))
     <= length (EffectList.effects s))%nat.
Proof.
  intros Hd. destruct (validateEffects_ok now s) as (s' & Hv & _ & Hf).
  exists s'. split; [|split].
  - unfold EffectList.size. unfoldM. now rewrite Hv, (Hf Hd).
  - unfold EffectList.entries. unfoldM.
    rewrite validateEffects_clean; [now rewrite (Hf Hd)|].
    intros e He. rewrite (Hf Hd) in He. now apply List.filter_In in He.
  - apply List.filter_length_le.
Qed.

(** X25.  [serialize] of the list sweeps it and writes the current
    members that persist, in insertion order, and nothing else. *)
Theorem serialize_writes_kept (s : EffectList.t) (now : Z) :
  distinct (EffectList.effects s) ->
  exists s',
    EffectList.serialize now s
    = Ok (List.map Effect.serialize (kept now (EffectList.effects s)), s') /\
    EffectList.effects s' = List.filter (isCurrent now) (EffectList.effects s) /\
    (forall e, List.In e (kept now (EffectList.effects s)) ->
               Effect.persists (Effect.config e) = true /\
               isCurrent now e = true).
Proof.
  intros Hd. destruct (validateEffects_ok now s) as (s' & Hv & _ & Hf).
  exists s'. split; [|split].
  - unfold EffectList.serialize. unfoldM. now rewrite Hv, (Hf Hd).
  - now apply Hf.
  - intros e He. apply kept_persists in He. tauto.
Qed.

(** X26.  Once the only member of a type is removed, a new effect of
    that type is accepted again, whatever the rules of the one that
    left: it is appended and attached, when it is current. *)
Theorem remove_then_add (s : EffectList.t) (now : Z) (a e : Effect.t) :
  distinct (EffectList.effects s) ->
  List.In a (EffectList.effects s) ->
  (forall x, List.In x (EffectList.effects s) ->
             Effect.type (Effect.config x) = Effect.type (Effect.config e) -> x = a) ->
  Effect.target e = None ->
  (forall x, List.In x (EffectList.effects s) -> Effect.ref x <> Effect.ref e) ->
  isCurrent now (Effect.withTarget e (EffectList.target s)) = true ->
  exists s1 s2,
    EffectList.remove now a s = Ok (tt, s1) /\
    EffectList.add now e s1 = Ok (true, s2) /\
    EffectList.effects s2
    = (List.filter (isCurrent now) (EffectList.setDelete a (EffectList.effects s))
         ++ [Effect.withTarget e (EffectList.target s)])%list.
Proof.
  intros Hd Ha Honly Ht Hfresh Hcur.
  rewrite (remove_run _ _ _ Ha).
  destruct (validateEffects_ok now (removed a s)) as (s1 & Hv & Hsw & Hf).
  assert (EffectList.effects s1
          = List.filter (isCurrent now) (EffectList.setDelete a (EffectList.effects s)))
    as He1.
  { apply Hf. simpl. unfold EffectList.setDelete. now apply distinct_filter. }
  assert (forall x, List.In x (EffectList.effects s1) ->
                    List.In x (EffectList.effects s) /\ isCurrent now x = true /\
                    Effect.ref x <> Effect.ref a) as Hsub.
  { intros x Hx. rewrite He1 in Hx. apply List.filter_In in Hx as [Hx Hc].
    unfold EffectList.setDelete in Hx. apply List.filter_In in Hx as [Hx Hr].
    repeat split; auto. intros Heq. apply negb_true_iff in Hr.
    symmetry in Heq. apply sameRef_true in Heq. congruence. }
  assert (EffectList.target s1 = EffectList.target s) as Htg
    by (destruct Hsw as [Htg _ _ _]; exact Htg).
  destruct (add_free_run s1 now e) as (s2 & out & Hadd & He2 & _); auto.
  - rewrite He1. apply distinct_filter. unfold EffectList.setDelete.
    now apply distinct_filter.
  - intros x Hx. apply Hfresh. now apply Hsub.
  - intros x Hx Hty. exfalso. destruct (Hsub x Hx) as (Hin & _ & Hne).
    apply Hne. now rewrite (Honly x Hin Hty).
  - exists s1, s2. split; [exact Hv|]. split; [exact Hadd|].
    rewrite He2, Htg, List.filter_app. simpl. rewrite Hcur.
    f_equal. rewrite He1. apply filter_idem.
Qed.

(** X27.  [EffectableEntity.emit] on an entity whose list holds effects
    only, no serialized entries.  For every event but ['error'] it
    returns [true]; it leaves the attributes, the hydration flag and the
    listeners alone; and the listeners of the entity are told first,
    before the list sweeps or relays.  An ['error'] that nobody listens
    to is thrown by the emitter, and the list is not reached. *)
Theorem entity_emit_relays (ent : EffectableEntity.t) (now : Z) (event : string) :
  EffectList.pending (EffectableEntity.effects ent) = [] ->
  (event <> "error" ->
   exists ent' rest,
     EffectableEntity.emit now event ent = Ok (true, ent') /\
     EffectableEntity.attributes ent' = EffectableEntity.attributes ent /\
     EffectableEntity.__hydrated ent' = EffectableEntity.__hydrated ent /\
     EffectableEntity.listened ent' = EffectableEntity.listened ent /\
     emitted (EffectableEntity.effects ent) (EffectableEntity.effects ent')
     = ToTarget event None :: rest) /\
  (event = "error" -> "error" ∉ EffectableEntity.listened ent ->
   EffectableEntity.emit now event ent = Throw UnhandledError).
Proof.
  intros _. split.
  - intros Hev.
    assert (String.eqb event "error"
            && negb (bool_decide ("error" ∈ EffectableEntity.listened ent)) = false)
      as Hheard.
    { apply String.eqb_neq in Hev. now rewrite Hev. }
    unfold EffectableEntity.emit. unfoldM. rewrite (superEmit_run _ _ Hheard).
    unfold EffectableEntity.onEffects. simpl. set (l0 := EffectList.mk _ _ _ _).
    destruct (validateEffects_ok now l0) as (l1 & Hv & Hsw & _).
    rewrite (emit_run _ _ _ _ Hv).
    destruct Hsw as [_ _ _ (hk & Hs & _)]. subst l0. simpl in Hs.
    destruct (String.eqb event "effectAdded" || String.eqb event "effectRemoved").
    + eexists. exists hk.
      split; [reflexivity|]. split; [reflexivity|]. split; [reflexivity|].
      split; [reflexivity|].
      simpl. apply (emitted_app _ _ (ToTarget event None :: hk)).
      rewrite Hs. now rewrite <- List.app_assoc.
    + destruct (EffectList.deliverAll now event (EffectList.effects l1)) as [l out].
      eexists. exists (hk ++ out)%list.
      split; [reflexivity|]. split; [reflexivity|]. split; [reflexivity|].
      split; [reflexivity|].
      simpl. apply (emitted_app _ _ (ToTarget event None :: hk ++ out)).
      simpl. rewrite Hs. now rewrite <- !List.app_assoc.
  - intros -> Hnot. unfold EffectableEntity.emit, EffectableEntity.superEmit. unfoldM.
    now rewrite (bool_decide_eq_false_2 _ Hnot).
Qed.

End Compose.

Lemma size_entries_agree_witness :
  exists s',
    EffectList.size (H := Example.lasting) 0 Example.afflicted = Ok (2%nat, s').
Proof.
  destruct (size_entries_agree (H := Example.lasting) Example.afflicted 0)
    as (s' & Hs & _).
  - repeat constructor; simpl; intuition discriminate.
  - exists s'. exact Hs.
Defined.

Lemma serialize_writes_kept_witness :
  exists s',
    EffectList.serialize (H := Example.lasting) 0 Example.afflicted
    = Ok ([Effect.mkPersisted "poison" (Effect.mkState (Some 1) None (Some 0)) false],
          s').
Proof.
  destruct (serialize_writes_kept (H := Example.lasting) Example.afflicted 0)
    as (s' & Hs & _).
  - repeat constructor; simpl; intuition discriminate.
  - exists s'. exact Hs.
Defined.

Lemma remove_then_add_witness :
  exists s1 s2,
    EffectList.remove (H := Example.lasting) 0 (Example.ward 0 (Some 7%nat)) Example.wardList
    = Ok (tt, s1) /\
    EffectList.add (H := Example.lasting) 0 (Example.ward 1 None) s1 = Ok (true, s2) /\
    EffectList.effects s2 = [Example.ward 1 (Some 7%nat)].
Proof.
  destruct (remove_then_add (H := Example.lasting) Example.wardList 0
              (Example.ward 0 (Some 7%nat)) (Example.ward 1 None))
    as (s1 & s2 & Hr & Ha & He).
  - repeat constructor; simpl; tauto.
  - now left.
  - intros x [<-|[]] _. reflexivity.
  - reflexivity.
  - intros x [<-|[]]. simpl. discriminate.
  - reflexivity.
  - exists s1, s2. split; [exact Hr|]. split; [exact Ha | exact He].
Defined.

Lemma entity_emit_relays_witness :
  (exists ent' rest,
      EffectableEntity.emit (H := Example.lasting) 0 "damaged" ExampleEntity.hero
      = Ok (true, ent') /\
      emitted (EffectableEntity.effects ExampleEntity.hero) (EffectableEntity.effects ent')
      = ToTarget "damaged" None :: rest) /\
  EffectableEntity.emit (H := Example.lasting) 0 "error" ExampleEntity.hero
  = Throw UnhandledError.
Proof.
  destruct (entity_emit_relays (H := Example.lasting) ExampleEntity.hero 0 "damaged"
              eq_refl) as [Hok _].
  destruct (entity_emit_relays (H := Example.lasting) ExampleEntity.hero 0 "error"
              eq_refl) as [_ Hthrow].
  split.
  - destruct Hok as (ent' & rest & He & _ & _ & _ & Hout); [discriminate|].
    exists ent', rest. split; [exact He | exact Hout].
  - apply Hthrow; [reflexivity|]. intros Hin. inversion Hin.
Defined.
